(** * speechbrain/processing/signal_processing.py

    A shallow embedding of the tensor code of [signal_processing.py]:
    the block-matrix codecs of [EigenH] ([f], [finv], [g], [ginv]), the
    regulariser [pos_def], the solver [forward], and the control flow of
    [notch_filter] and [convolve1d].

    Tensors are nested lists together with their shape; every torch
    assignment of the source is one function of this file, with the
    shape and bounds checks torch performs written out as errors. *)

From Stdlib Require Import ZArith QArith Lia String.
From stdpp Require Import base numbers list option gmap.

(** ** Scalars

    Tensor entries are floating point numbers in the source.  The codecs
    only copy entries and multiply them by [-1]; they are modelled over
    any carrier with a zero, a one, a negation (the source's [-1 * x]),
    an addition and a multiplication.  Negation is an involution that
    fixes zero, which is what the comparison [==] of the source sees on
    floats. *)

Class Scalar (R : Type) := {
  zero : R;
  one : R;
  neg : R → R;
  add : R → R → R;
  mul : R → R → R;
  neg_neg : ∀ x, neg (neg x) = x;
  neg_zero : neg zero = zero;
}.

#[export] Program Instance Z_scalar : Scalar Z := {|
  zero := 0%Z; one := 1%Z; neg := Z.opp; add := Z.add; mul := Z.mul |}.
Next Obligation. intros x. apply Z.opp_involutive. Qed.
Next Obligation. reflexivity. Qed.

#[export] Instance scalar_inhabited `{Scalar R} : Inhabited R := populate zero.

(** ** Errors

    What the source and the torch primitives raise. *)

Inductive error :=
  | ShapeMismatch      (* RuntimeError: value cannot be broadcast to the indexed shape *)
  | IndexError         (* index out of range *)
  | EmptyStack         (* RuntimeError: stack expects a non-empty list *)
  | RankError          (* the tensor does not have the documented rank *)
  | AssertionError     (* a failed [assert] *)
  | ValueError         (* raised by the source itself *)
  | RuntimeError       (* any other failure of a torch primitive *)
  | MetaMismatch       (* RuntimeError: the operands differ in dtype or device *)
  | LinAlgError.       (* a failure of an external linear algebra routine *)

Inductive result (A : Type) :=
  | Ok (a : A)
  | Err (e : error).
Arguments Ok {A} a.
Arguments Err {A} e.

#[export] Instance result_ret : MRet result := λ A a, Ok a.
#[export] Instance result_bind : MBind result := λ A B k m,
  match m with Ok a => k a | Err e => Err e end.

Definition guard_or (e : error) (b : bool) : result unit :=
  if b then Ok tt else Err e.

Lemma bind_Ok {A B} (m : result A) (k : A → result B) b :
  m ≫= k = Ok b ↔ ∃ a, m = Ok a ∧ k a = Ok b.
Proof.
  destruct m as [a|e]; simpl.
  - split; [eauto | intros (a' & [= ->] & ?); done].
  - split; [done | intros (a' & [=] & _)].
Qed.

(** ** Matrices as lists of rows *)

Section Matrix.
Context {R : Type}.

Definition mlookup (M : list (list R)) (r c : nat) : option R :=
  M !! r ≫= (.!! c).

(** [M[r][c] = v] *)
Definition mset (M : list (list R)) (r c : nat) (v : R) : list (list R) :=
  alter (<[c:=v]>) r M.

(** An indexed assignment, one written cell after the other: a later
    write to a cell replaces an earlier one. *)
Definition scatter (M : list (list R)) (ivs : list ((nat * nat) * R)) :
    list (list R) :=
  foldl (λ M' iv, mset M' iv.1.1 iv.1.2 iv.2) M ivs.

(** Does [M] have [m] rows of [n] entries? *)
Definition has_dims (m n : nat) (M : list (list R)) : Prop :=
  length M = m ∧ ∀ row, row ∈ M → length row = n.

Lemma mlookup_mset_eq M r c v :
  is_Some (mlookup M r c) → mlookup (mset M r c v) r c = Some v.
Proof.
  unfold mlookup, mset. intros [x Hx].
  rewrite list_lookup_alter_eq.
  destruct (M !! r) as [row|] eqn:Hr; simpl in *; [|done].
  apply list_lookup_insert_eq. by eapply lookup_lt_Some.
Qed.

Lemma mlookup_mset_ne M r c v r' c' :
  (r, c) ≠ (r', c') → mlookup (mset M r c v) r' c' = mlookup M r' c'.
Proof.
  unfold mlookup, mset. intros Hne.
  destruct (decide (r = r')) as [->|Hr].
  - rewrite list_lookup_alter_eq.
    destruct (M !! r') as [row|]; simpl; [|done].
    apply list_lookup_insert_ne. congruence.
  - by rewrite list_lookup_alter_ne.
Qed.

Lemma mset_dims m n M r c v : has_dims m n M → has_dims m n (mset M r c v).
Proof.
  intros [Hm Hn]. split; [unfold mset; by rewrite length_alter|].
  intros row [i Hi]%list_elem_of_lookup. unfold mset in Hi.
  destruct (decide (r = i)) as [->|Hne].
  - rewrite list_lookup_alter_eq in Hi.
    destruct (M !! i) as [row'|] eqn:Hrow; simplify_eq/=.
    rewrite length_insert. apply Hn. by eapply list_elem_of_lookup_2.
  - rewrite list_lookup_alter_ne in Hi by done.
    apply Hn. by eapply list_elem_of_lookup_2.
Qed.

Lemma scatter_dims m n M ivs : has_dims m n M → has_dims m n (scatter M ivs).
Proof.
  revert M. induction ivs as [|iv ivs IH]; intros M HM; simpl; [done|].
  apply IH. by apply mset_dims.
Qed.

Lemma has_dims_lookup m n M r c :
  has_dims m n M → r < m → c < n → is_Some (mlookup M r c).
Proof.
  intros [Hm Hn] Hr Hc. unfold mlookup.
  destruct (lookup_lt_is_Some_2 M r) as [row Hrow]; [lia|].
  rewrite Hrow. simpl. apply lookup_lt_is_Some_2.
  rewrite (Hn row); [done|]. by eapply list_elem_of_lookup_2.
Qed.

Lemma has_dims_lookup_inv m n M r c :
  has_dims m n M → is_Some (mlookup M r c) → r < m ∧ c < n.
Proof.
  intros [Hm Hn] [x Hx]. unfold mlookup in Hx.
  destruct (M !! r) as [row|] eqn:Hrow; simpl in Hx; [|done].
  split.
  - rewrite <- Hm. by eapply lookup_lt_Some.
  - rewrite <- (Hn row); [by eapply lookup_lt_Some|].
    by eapply list_elem_of_lookup_2.
Qed.

Lemma mlookup_scatter_notin M ivs r c :
  (r, c) ∉ ivs.*1 → mlookup (scatter M ivs) r c = mlookup M r c.
Proof.
  revert M. induction ivs as [|[[r0 c0] v0] ivs IH]; intros M Hnot; [done|].
  simpl in *. apply not_elem_of_cons in Hnot as [Hne Hnot].
  rewrite IH by done. apply mlookup_mset_ne. congruence.
Qed.

Lemma scatter_is_Some M ivs r c :
  is_Some (mlookup M r c) → is_Some (mlookup (scatter M ivs) r c).
Proof.
  revert M. induction ivs as [|[[r0 c0] v0] ivs IH]; intros M HM; [done|].
  simpl. apply IH.
  destruct (decide ((r0, c0) = (r, c))) as [[= -> ->]|Hne].
  - rewrite mlookup_mset_eq; done.
  - by rewrite mlookup_mset_ne.
Qed.

Lemma mlookup_scatter_in M ivs r c v :
  NoDup ivs.*1 → ((r, c), v) ∈ ivs → is_Some (mlookup M r c) →
  mlookup (scatter M ivs) r c = Some v.
Proof.
  revert M. induction ivs as [|[[r0 c0] v0] ivs IH]; intros M Hnd Hin HM.
  { by apply elem_of_nil in Hin. }
  simpl in *. apply NoDup_cons in Hnd as [Hfresh Hnd].
  apply elem_of_cons in Hin as [[= <- <- <-]|Hin].
  - rewrite mlookup_scatter_notin by done. by apply mlookup_mset_eq.
  - apply IH; [done..|].
    destruct (decide ((r0, c0) = (r, c))) as [[= -> ->]|Hne].
    + rewrite mlookup_mset_eq; done.
    + by rewrite mlookup_mset_ne.
Qed.

(** Two matrices of the same dimensions with the same cells are equal. *)
Lemma matrix_eq m n M N :
  has_dims m n M → has_dims m n N →
  (∀ r c, r < m → c < n → mlookup M r c = mlookup N r c) → M = N.
Proof.
  intros [HMm HMn] [HNm HNn] Heq.
  apply (list_eq_same_length _ _ m); [done..|].
  intros r rowM rowN Hr HrM HrN.
  apply (list_eq_same_length _ _ n).
  - apply HNn. by eapply list_elem_of_lookup_2.
  - apply HMn. by eapply list_elem_of_lookup_2.
  - intros c x y Hc Hx Hy.
    specialize (Heq r c Hr Hc). unfold mlookup in Heq.
    rewrite HrM, HrN in Heq. simpl in Heq. congruence.
Qed.
End Matrix.

(** ** Tensors

    A tensor of rank 3, 4 or 5 is its shape and its entries as nested
    lists, outermost axis first. *)

Record tensor3 (R : Type) := T3 {
  shape3 : nat * nat * nat;
  data3 : list (list (list R)) }.
Record tensor4 (R : Type) := T4 {
  shape4 : nat * nat * nat * nat;
  data4 : list (list (list (list R))) }.
Record tensor5 (R : Type) := T5 {
  shape5 : nat * nat * nat * nat * nat;
  data5 : list (list (list (list (list R)))) }.
Arguments T3 {R} _ _.
Arguments shape3 {R} _.
Arguments data3 {R} _.
Arguments T4 {R} _ _.
Arguments shape4 {R} _.
Arguments data4 {R} _.
Arguments T5 {R} _ _.
Arguments shape5 {R} _.
Arguments data5 {R} _.

(** The entries agree with the shape: [shaped wf n l] holds when [l] has
    [n] elements, each of them well formed. *)
Definition shaped {A} (wfA : A → bool) (n : nat) (l : list A) : bool :=
  (length l =? n) && forallb wfA l.
Definition shaped1 {A} (n : nat) (l : list A) : bool := length l =? n.

Definition wf3 {R} (t : tensor3 R) : bool :=
  let '(a, b, c) := shape3 t in
  shaped (shaped (shaped1 c) b) a (data3 t).
Definition wf4 {R} (t : tensor4 R) : bool :=
  let '(a, b, c, d) := shape4 t in
  shaped (shaped (shaped (shaped1 d) c) b) a (data4 t).
Definition wf5 {R} (t : tensor5 R) : bool :=
  let '(a, b, c, d, e) := shape5 t in
  shaped (shaped (shaped (shaped (shaped1 e) d) c) b) a (data5 t).

(** Broadcasting of an assigned value: an axis of the value fits when it
    has the size of the target axis or size one, and an axis of size one
    is repeated. *)
Definition bcast_ok (src dst : nat) : bool := (src =? dst) || (src =? 1).

Definition expand {A} (n : nat) (l : list A) : list A :=
  if length l =? n then l
  else match l with x :: _ => replicate n x | [] => [] end.

Definition bzip {A B C} (f : A → B → C) (l : list A) (k : list B) : list C :=
  zip_with f l (expand (length l) k).

(** [torch.triu_indices(row, col)]: the coordinates of the upper triangle,
    row by row; [indices[0]] are the rows and [indices[1]] the columns. *)
Definition triu_pairs (row col : nat) : list (nat * nat) :=
  i ← seq 0 row; (λ j, (i, j)) <$> seq i (col - i).

Definition triu_indices (row col : nat) : list nat * list nat :=
  ((triu_pairs row col).*1, (triu_pairs row col).*2).

(** [int(round(((1 + 8 * p) ** 0.5 - 1) / 2))], computed on the reals:
    [1 + 8 p] is odd, so [(sqrt (1 + 8 p) - 1) / 2] is never half way
    between two integers, and the nearest integer is [n] exactly when
    [2 n <= sqrt (1 + 8 p) < 2 n + 2]. *)
Definition channels_of (p : nat) : nat := Nat.sqrt (1 + 8 * p) / 2.

(** [slice(start, stop, step)] on an axis of size [dim]. *)
Record slice := Slice { sl_start : nat; sl_stop : nat; sl_step : nat }.

Definition slice_range (s : slice) (dim : nat) : list nat :=
  (λ k, sl_start s + k * sl_step s) <$>
    seq 0 ((sl_stop s `min` dim - sl_start s + sl_step s - 1) / sl_step s).

Abbreviation lmap := (fmap (M := list)).

Section Primitives.
Context `{Scalar R}.

Definition zeros3 (a b c : nat) : tensor3 R :=
  T3 (a, b, c) (replicate a (replicate b (replicate c zero))).
Definition zeros4 (a b c d : nat) : tensor4 R :=
  T4 (a, b, c, d) (replicate a (replicate b (replicate c (replicate d zero)))).
Definition zeros5 (a b c d e : nat) : tensor5 R :=
  T5 (a, b, c, d, e)
     (replicate a (replicate b (replicate c (replicate d (replicate e zero))))).

(** Transposition of a matrix with [ncols] columns. *)
Definition transpose2 (ncols : nat) (M : list (list R)) : list (list R) :=
  (λ j, (λ row, row !!! j) <$> M) <$> seq 0 ncols.

(** [t.transpose(3, 4)] *)
Definition transpose34 (t : tensor5 R) : tensor5 R :=
  let '(a, b, c, d, e) := shape5 t in
  T5 (a, b, c, e, d) (lmap (lmap (lmap (transpose2 e))) (data5 t)).

(** [t.transpose(2, 3)] on rank 4 *)
Definition transpose23 (t : tensor4 R) : tensor4 R :=
  let '(a, b, c, d) := shape4 t in
  T4 (a, b, d, c) (lmap (lmap (transpose2 d)) (data4 t)).

(** [t.squeeze(1)] for the documented input, whose axis 1 has size one.
    (On another input torch leaves the rank at 5; the codecs are not
    written for that, and the model stops there.) *)
Definition squeeze1 (t : tensor5 R) : result (tensor4 R) :=
  let '(a, b, c, d, e) := shape5 t in
  if b =? 1 then Ok (T4 (a, c, d, e) (lmap (λ x, concat x) (data5 t))) else Err RankError.

(** [t[..., c]] *)
Definition select_last4 (t : tensor4 R) (c : nat) : result (tensor3 R) :=
  let '(a, b, p, d) := shape4 t in
  if c <? d
  then Ok (T3 (a, b, p) (lmap (lmap (lmap (λ cell : list R, cell !!! c))) (data4 t)))
  else Err IndexError.
Definition select_last5 (t : tensor5 R) (c : nat) : result (tensor4 R) :=
  let '(a, b, p, q, d) := shape5 t in
  if c <? d
  then Ok (T4 (a, b, p, q)
             (lmap (lmap (lmap (lmap (λ cell : list R, cell !!! c)))) (data5 t)))
  else Err IndexError.

(** [-1 * t] *)
Definition neg3 (t : tensor3 R) : tensor3 R :=
  T3 (shape3 t) (lmap (lmap (fmap neg)) (data3 t)).
Definition neg4 (t : tensor4 R) : tensor4 R :=
  T4 (shape4 t) (lmap (lmap (lmap (fmap neg))) (data4 t)).

(** [t[..., rows, cols] = v] with index lists [rows] and [cols]: for
    every leading position the cell [(rows[p], cols[p])] receives
    [v[..., p]], in the order of [p]. *)
Definition index_put4 (t : tensor4 R) (rows cols : list nat) (v : tensor3 R) :
    result (tensor4 R) :=
  let '(b, k, r, c) := shape4 t in
  let '(vb, vk, vp) := shape3 v in
  _ ← guard_or ShapeMismatch (length rows =? length cols);
  _ ← guard_or IndexError
        (forallb (λ i, i <? r) rows && forallb (λ j, j <? c) cols);
  _ ← guard_or ShapeMismatch
        (bcast_ok vb b && bcast_ok vk k && bcast_ok vp (length rows));
  Ok (T4 (b, k, r, c)
        (bzip (bzip (λ M vals,
                 scatter M (zip (zip rows cols) (expand (length rows) vals))))
           (data4 t) (data3 v))).

(** [t[..., rows, cols]] with index lists: the gathered entries. *)
Definition index_get4 (t : tensor4 R) (rows cols : list nat) : result (tensor3 R) :=
  let '(b, k, r, c) := shape4 t in
  _ ← guard_or ShapeMismatch (length rows =? length cols);
  _ ← guard_or IndexError
        (forallb (λ i, i <? r) rows && forallb (λ j, j <? c) cols);
  Ok (T3 (b, k, length rows)
        (lmap (lmap (λ M : list (list R),
                 (λ rc : nat * nat, (M !!! rc.1) !!! rc.2) <$> zip rows cols))
           (data4 t))).

(** The cells written by a slice assignment of the block [V]. *)
Definition slice_cells (ridx cidx : list nat) (V : list (list R)) :
    list ((nat * nat) * R) :=
  rv ← zip ridx (expand (length ridx) V);
  (λ cv : nat * R, ((rv.1, cv.1), cv.2)) <$> zip cidx (expand (length cidx) rv.2).

(** [t[..., rs, cs] = v] with two slices. *)
Definition slice_put4 (t : tensor4 R) (rs cs : slice) (v : tensor4 R) :
    result (tensor4 R) :=
  let '(b, k, r, c) := shape4 t in
  let '(vb, vk, vr, vc) := shape4 v in
  let ridx := slice_range rs r in
  let cidx := slice_range cs c in
  _ ← guard_or ShapeMismatch
        (bcast_ok vb b && bcast_ok vk k &&
         bcast_ok vr (length ridx) && bcast_ok vc (length cidx));
  Ok (T4 (b, k, r, c)
        (bzip (bzip (λ M V, scatter M (slice_cells ridx cidx V)))
           (data4 t) (data4 v))).

(** [t[..., rs, cs]] with two slices. *)
Definition slice_get4 (t : tensor4 R) (rs cs : slice) : tensor4 R :=
  let '(b, k, r, c) := shape4 t in
  let ridx := slice_range rs r in
  let cidx := slice_range cs c in
  T4 (b, k, length ridx, length cidx)
     (lmap (lmap (λ M : list (list R),
              (λ i, (λ j, (M !!! i) !!! j) <$> cidx) <$> ridx))
        (data4 t)).

(** [t[..., c] = v] on rank 5. *)
Definition assign_last5 (t : tensor5 R) (c : nat) (v : tensor4 R) :
    result (tensor5 R) :=
  let '(b, k, p, q, d) := shape5 t in
  let '(vb, vk, vp, vq) := shape4 v in
  _ ← guard_or IndexError (c <? d);
  _ ← guard_or ShapeMismatch
        (bcast_ok vb b && bcast_ok vk k && bcast_ok vp p && bcast_ok vq q);
  Ok (T5 (b, k, p, q, d)
        (bzip (bzip (bzip (bzip (λ (cell : list R) x, <[c:=x]> cell))))
           (data5 t) (data4 v))).

(** [t[:, 0, :, c, :] = v] on rank 5. *)
Definition assign_component5 (t : tensor5 R) (c : nat) (v : tensor3 R) :
    result (tensor5 R) :=
  let '(b, o, k, d, p) := shape5 t in
  let '(vb, vk, vp) := shape3 v in
  _ ← guard_or IndexError ((0 <? o) && (c <? d));
  _ ← guard_or ShapeMismatch (bcast_ok vb b && bcast_ok vk k && bcast_ok vp p);
  Ok (T5 (b, o, k, d, p)
        (bzip (λ (xb : list (list (list (list R)))) (vb' : list (list R)),
                 alter (λ xk, bzip (λ (cell : list (list R)) vals,
                                      <[c:=expand p vals]> cell) xk vb') 0 xb)
           (data5 t) (data3 v))).
End Primitives.

(** ** The codecs of [EigenH] *)

Section Codecs.
Context `{Scalar R}.

(** [indices * 2] and [indices * 2 + 1] *)
Definition twice (l : list nat) : list nat := (λ i, i * 2) <$> l.
Definition twice1 (l : list nat) : list nat := (λ i, i * 2 + 1) <$> l.

(** [EigenH.f]: packed Hermitian [(B, 1, K, 2, P)] to block [(B, K, 2C, 2C)]. *)
Definition f (ws : tensor5 R) : result (tensor4 R) :=
  ws ← squeeze1 (transpose34 ws);
  let '(batch, n_fft, p, _) := shape4 ws in
  let n_channels := channels_of p in
  let wsh := zeros4 batch n_fft (2 * n_channels) (2 * n_channels) in
  let indices := triu_indices n_channels n_channels in
  v ← select_last4 ws 0;
  wsh ← index_put4 wsh (twice indices.2) (twice indices.1) v;
  v ← select_last4 ws 0;
  wsh ← index_put4 wsh (twice indices.1) (twice indices.2) v;
  v ← select_last4 ws 0;
  wsh ← index_put4 wsh (twice1 indices.2) (twice1 indices.1) v;
  v ← select_last4 ws 0;
  wsh ← index_put4 wsh (twice1 indices.1) (twice1 indices.2) v;
  v ← select_last4 ws 1;
  wsh ← index_put4 wsh (twice indices.1) (twice1 indices.2) (neg3 v);
  v ← select_last4 ws 1;
  wsh ← index_put4 wsh (twice1 indices.2) (twice indices.1) (neg3 v);
  v ← select_last4 ws 1;
  wsh ← index_put4 wsh (twice1 indices.1) (twice indices.2) v;
  v ← select_last4 ws 1;
  wsh ← index_put4 wsh (twice indices.2) (twice1 indices.1) v;
  Ok wsh.

(** [EigenH.finv]: block [(B, K, 2C, 2C)] to packed [(B, 1, K, 2, P)]. *)
Definition finv (wsh : tensor4 R) : result (tensor5 R) :=
  let '(batch, n_fft, d2, _) := shape4 wsh in
  let n_channels := d2 / 2 in
  let p := n_channels * (n_channels + 1) / 2 in
  let ws := zeros5 batch 1 n_fft 2 p in
  let indices := triu_indices n_channels n_channels in
  v ← index_get4 wsh (twice indices.1) (twice indices.2);
  ws ← assign_component5 ws 0 v;
  v ← index_get4 wsh (twice indices.1) (twice1 indices.2);
  ws ← assign_component5 ws 1 (neg3 v);
  Ok ws.

(** [EigenH.g]: full complex [(B, K, C, C, 2)] to block [(B, K, 2C, 2C)]. *)
Definition g (ws : tensor5 R) : result (tensor4 R) :=
  let '(batch, n_fft, n_chan, _, _) := shape5 ws in
  let wsh := zeros4 batch n_fft (2 * n_chan) (2 * n_chan) in
  let even := Slice 0 (2 * n_chan) 2 in
  let odd := Slice 1 (2 * n_chan) 2 in
  v ← select_last5 ws 0;
  wsh ← slice_put4 wsh even even v;
  v ← select_last5 ws 0;
  wsh ← slice_put4 wsh odd odd v;
  v ← select_last5 ws 1;
  wsh ← slice_put4 wsh even odd (neg4 v);
  v ← select_last5 ws 1;
  wsh ← slice_put4 wsh odd even v;
  Ok wsh.

(** [EigenH.ginv]: block [(B, K, 2C, 2C)] to full complex [(B, K, C, C, 2)]. *)
Definition ginv (wsh : tensor4 R) : result (tensor5 R) :=
  let '(batch, n_fft, d2, _) := shape4 wsh in
  let n_chan := d2 / 2 in
  let ws := zeros5 batch n_fft n_chan n_chan 2 in
  let even := Slice 0 (2 * n_chan) 2 in
  let odd := Slice 1 (2 * n_chan) 2 in
  ws ← assign_last5 ws 0 (slice_get4 wsh even even);
  ws ← assign_last5 ws 1 (slice_get4 wsh odd even);
  Ok ws.
End Codecs.

(** ** Batches

    The leading axes [(B, K)] of every tensor of [EigenH] are carried
    along by the ellipsis of the source's indexing: an assignment acts on
    each [(batch, bin)] item on its own. *)

Definition bmap {A B} (F : A → B) (D : list (list A)) : list (list B) :=
  lmap (lmap F) D.

Lemma expand_id {A} n (l : list A) : length l = n → expand n l = l.
Proof. intros <-. unfold expand. by rewrite Nat.eqb_refl. Qed.

Section Batches.
Context {A B C : Type}.

Lemma shaped_spec (wfA : A → bool) n l :
  shaped wfA n l = true ↔ length l = n ∧ ∀ x, x ∈ l → wfA x = true.
Proof.
  unfold shaped. rewrite andb_true_iff, Nat.eqb_eq, forallb_forall.
  setoid_rewrite <- list_elem_of_In. done.
Qed.

Lemma shaped1_spec n (l : list A) : shaped1 n l = true ↔ length l = n.
Proof. unfold shaped1. apply Nat.eqb_eq. Qed.

Lemma bzip_zip_with (h : A → B → C) l k :
  length k = length l → bzip h l k = zip_with h l k.
Proof. intros Hlen. unfold bzip. by rewrite expand_id. Qed.

Lemma mlookup_bmap (F : A → B) D b k :
  mlookup (bmap F D) b k = F <$> mlookup D b k.
Proof.
  unfold mlookup, bmap. rewrite list_lookup_fmap.
  destruct (D !! b) as [xs|]; simpl; [|done]. apply list_lookup_fmap.
Qed.

Lemma has_dims_bmap (F : A → B) m n D : has_dims m n D → has_dims m n (bmap F D).
Proof.
  intros [Hm Hn]. split; [unfold bmap; by rewrite length_fmap|].
  intros row (xs & -> & Hxs)%list_elem_of_fmap.
  rewrite length_fmap. by apply Hn.
Qed.

Lemma replicate_bmap m n (z : B) (D : list (list A)) :
  has_dims m n D → replicate m (replicate n z) = bmap (λ _, z) D.
Proof.
  intros [Hm Hn]. unfold bmap. rewrite <- Hm.
  rewrite <- (const_fmap (λ _ : list A, replicate n z)) by done.
  apply list_fmap_ext. intros i xs Hxs.
  rewrite (const_fmap _ xs z) by done. f_equal.
  symmetry. apply Hn. by eapply list_elem_of_lookup_2.
Qed.

Lemma bmap_ext (F G : A → B) D :
  (∀ xs x, xs ∈ D → x ∈ xs → F x = G x) → bmap F D = bmap G D.
Proof.
  intros Hext. unfold bmap. apply list_fmap_ext. intros i xs Hxs.
  apply list_fmap_ext. intros j x Hx.
  eapply Hext; by eapply list_elem_of_lookup_2.
Qed.

Lemma bmap_bmap (F : A → B) (G : B → C) D :
  bmap G (bmap F D) = bmap (λ x, G (F x)) D.
Proof.
  unfold bmap. rewrite <- list_fmap_compose. apply list_fmap_ext.
  intros i xs _. simpl. by rewrite <- list_fmap_compose.
Qed.
End Batches.

Lemma bzip_bmap {A B C D} (h : B → C → D) (F : A → B) (G : A → C) X :
  bzip (bzip h) (bmap F X) (bmap G X) = bmap (λ x, h (F x) (G x)) X.
Proof.
  unfold bmap. rewrite bzip_zip_with by (by rewrite !length_fmap).
  rewrite zip_with_fmap_l, zip_with_fmap_r, zip_with_diag.
  apply list_fmap_ext. intros i xs _.
  rewrite bzip_zip_with by (by rewrite !length_fmap).
  by rewrite zip_with_fmap_l, zip_with_fmap_r, zip_with_diag.
Qed.

Lemma concat_lmap_lmap {A B} (F : A → B) (xb : list (list A)) :
  concat (lmap (lmap F) xb) = lmap F (concat xb).
Proof.
  induction xb as [|x xb IH]; csimpl; [done|].
  rewrite fmap_app. by f_equal.
Qed.

(** ** The upper triangle *)

Definition tri (n : nat) : nat := n * (n + 1) / 2.

Lemma elem_of_triu_pairs row col i j :
  (i, j) ∈ triu_pairs row col ↔ i ≤ j ∧ i < row ∧ j < col.
Proof.
  unfold triu_pairs. rewrite list_elem_of_bind. split.
  - intros (i' & Hin & Hi'). apply elem_of_seq in Hi'.
    apply list_elem_of_fmap in Hin as (j' & [= -> ->] & Hj').
    apply elem_of_seq in Hj'. lia.
  - intros (Hij & Hi & Hj). exists i. split.
    + apply list_elem_of_fmap. exists j. split; [done|]. apply elem_of_seq. lia.
    + apply elem_of_seq. lia.
Qed.

Lemma NoDup_triu_pairs row col : NoDup (triu_pairs row col).
Proof.
  unfold triu_pairs. apply NoDup_bind.
  - intros i1 i2 [i j] _ _ Hin1 Hin2.
    apply list_elem_of_fmap in Hin1 as (? & [= -> ->] & _).
    apply list_elem_of_fmap in Hin2 as (? & [= -> ->] & _). done.
  - intros i _. apply NoDup_fmap_2; [|apply NoDup_seq].
    intros j1 j2 [=]. done.
  - apply NoDup_seq.
Qed.

Lemma tri_S n : tri (S n) = tri n + S n.
Proof.
  unfold tri. replace (S n * (S n + 1)) with (n * (n + 1) + S n * 2) by lia.
  by rewrite Nat.div_add.
Qed.

Lemma length_triu_pairs_aux n k :
  k ≤ n →
  length (i ← seq (n - k) k; (λ j, (i, j)) <$> seq i (n - i)) = tri k.
Proof.
  induction k as [|k IH]; intros Hk; [done|].
  rewrite tri_S. simpl seq. csimpl.
  rewrite length_app, length_fmap, length_seq.
  replace (S (n - S k)) with (n - k) by lia.
  rewrite IH by lia. lia.
Qed.

Lemma length_triu_pairs n : length (triu_pairs n n) = tri n.
Proof.
  unfold triu_pairs. rewrite <- (length_triu_pairs_aux n n) by lia.
  by rewrite Nat.sub_diag.
Qed.

Lemma channels_of_tri n : channels_of (tri n) = n.
Proof.
  unfold channels_of, tri.
  assert (Heven : n * (n + 1) = 2 * (n * (n + 1) / 2)).
  { destruct (Nat.Even_or_Odd n) as [[m ->]|[m ->]].
    - replace (2 * m * (2 * m + 1)) with (m * (2 * m + 1) * 2) by lia.
      rewrite Nat.div_mul by done. lia.
    - replace ((2 * m + 1) * (2 * m + 1 + 1)) with ((2 * m + 1) * (m + 1) * 2) by lia.
      rewrite Nat.div_mul by done. lia. }
  replace (1 + 8 * (n * (n + 1) / 2)) with ((2 * n + 1) * (2 * n + 1)) by lia.
  rewrite Nat.sqrt_square.
  replace (2 * n + 1) with (1 + n * 2) by lia.
  rewrite Nat.div_add by done. simpl. lia.
Qed.

(** ** Evaluating [f] *)

Section FEval.
Context `{Scalar R}.

(** The [(batch, bin)] items [a[b, 0, k]] of a packed input, each the
    two rows [[re; im]]. *)
Definition packed_cells (a : tensor5 R) : list (list (list (list R))) :=
  lmap (λ x, concat x) (data5 a).

Definition cells_wf (B K m n : nat) (X : list (list (list (list R)))) : Prop :=
  has_dims B K X ∧ ∀ xs cell, xs ∈ X → cell ∈ xs → has_dims m n cell.

Lemma shaped_singleton {A} (wfA : A → bool) (l : list A) :
  shaped wfA 1 l = true → ∃ x, l = [x] ∧ wfA x = true.
Proof.
  intros [Hlen Hall]%shaped_spec.
  destruct l as [|x [|]]; simplify_eq/=. exists x. split; [done|].
  apply Hall. by left.
Qed.

Lemma shaped_matrix m n (M : list (list R)) :
  shaped (shaped1 n) m M = true ↔ has_dims m n M.
Proof.
  rewrite shaped_spec. unfold has_dims.
  by setoid_rewrite shaped1_spec.
Qed.

Lemma packed_cells_wf a B K m n :
  shape5 a = (B, 1, K, m, n) → wf5 a = true →
  cells_wf B K m n (packed_cells a).
Proof.
  unfold wf5, packed_cells. intros -> [Hlen Hall]%shaped_spec.
  assert (Hitem : ∀ xb, xb ∈ data5 a →
    length (concat xb) = K ∧ ∀ cell, cell ∈ concat xb → has_dims m n cell).
  { intros xb Hxb. apply Hall in Hxb.
    apply shaped_singleton in Hxb as (xk & -> & [HK Hcells]%shaped_spec).
    simpl. rewrite app_nil_r. split; [done|].
    intros cell Hcell. by apply shaped_matrix, Hcells. }
  split; [split|].
  - by rewrite length_fmap.
  - intros row (xb & -> & Hxb)%list_elem_of_fmap. by apply Hitem.
  - intros xs cell (xb & -> & Hxb)%list_elem_of_fmap Hcell.
    by apply (Hitem xb).
Qed.

Lemma has_dims_row m n (M : list (list R)) c :
  has_dims m n M → c < m → length (M !!! c) = n.
Proof.
  intros [Hm Hn] Hc. apply Hn.
  apply list_elem_of_lookup. exists c.
  apply list_lookup_lookup_total_lt. lia.
Qed.

(** Row [c] of the transposed item is column [c] of the item. *)
Lemma select_transpose2 m n (M : list (list R)) c :
  has_dims m n M → c < m →
  (λ cell : list R, cell !!! c) <$> transpose2 n M = M !!! c.
Proof.
  intros HM Hc. pose proof (has_dims_row _ _ _ _ HM Hc) as Hrow.
  destruct HM as [Hm Hn].
  apply (list_eq_same_length _ _ n); [done| |].
  { unfold transpose2. by rewrite !length_fmap, length_seq. }
  intros j x y Hj Hx Hy. unfold transpose2 in Hx.
  rewrite list_lookup_fmap, list_lookup_fmap, lookup_seq_lt in Hx by done.
  simpl in Hx. injection Hx as <-.
  rewrite (list_lookup_total_fmap (λ row : list R, row !!! j) M c) by lia.
  apply list_lookup_total_correct in Hy. done.
Qed.

Lemma squeeze_transpose a B K m n :
  shape5 a = (B, 1, K, m, n) →
  squeeze1 (transpose34 a) =
    Ok (T4 (B, K, n, m) (bmap (transpose2 n) (packed_cells a))).
Proof.
  intros Hs. unfold transpose34, squeeze1. rewrite Hs. simpl.
  do 2 f_equal. unfold bmap, packed_cells.
  rewrite <- !list_fmap_compose. apply list_fmap_ext.
  intros i xb _. simpl. apply concat_lmap_lmap.
Qed.

Lemma select_last4_cells B K m n X c :
  cells_wf B K m n X → c < m →
  select_last4 (T4 (B, K, n, m) (bmap (transpose2 n) X)) c =
    Ok (T3 (B, K, n) (bmap (λ cell, cell !!! c) X)).
Proof.
  intros [HX Hcells] Hc. unfold select_last4. simpl.
  destruct (Nat.ltb_spec c m) as [_|?]; [|lia].
  do 2 f_equal. change (lmap (lmap ?F) ?D) with (bmap F D).
  rewrite bmap_bmap. apply bmap_ext. intros xs cell Hxs Hcell.
  eapply select_transpose2; eauto.
Qed.

Lemma forallb_lt_spec n (l : list nat) :
  (∀ i, i ∈ l → i < n) → forallb (λ i, i <? n) l = true.
Proof.
  intros Hl. apply forallb_forall. intros i Hi%list_elem_of_In.
  apply Nat.ltb_lt. auto.
Qed.

Lemma index_put4_bmap {A} B K r c P rows cols
    (F : A → list (list R)) (G : A → list R) (X : list (list A)) :
  length rows = length cols →
  (∀ i, i ∈ rows → i < r) → (∀ j, j ∈ cols → j < c) →
  P = length rows →
  index_put4 (T4 (B, K, r, c) (bmap F X)) rows cols (T3 (B, K, P) (bmap G X)) =
    Ok (T4 (B, K, r, c)
          (bmap (λ x, scatter (F x)
                        (zip (zip rows cols) (expand (length rows) (G x)))) X)).
Proof.
  intros Hlen Hr Hc ->. unfold index_put4. simpl.
  rewrite Hlen, Nat.eqb_refl. simpl.
  rewrite !forallb_lt_spec by done. simpl.
  unfold bcast_ok. rewrite !Nat.eqb_refl. simpl.
  rewrite <- Hlen. by rewrite bzip_bmap.
Qed.

Lemma index_put4_mismatch (t : tensor4 R) rows cols (v : tensor3 R) B K r c P :
  shape4 t = (B, K, r, c) → shape3 v = (B, K, P) →
  length rows = length cols →
  (∀ i, i ∈ rows → i < r) → (∀ j, j ∈ cols → j < c) →
  P ≠ length rows → P ≠ 1 →
  index_put4 t rows cols v = Err ShapeMismatch.
Proof.
  intros Ht Hv Hlen Hr Hc HP HP1. unfold index_put4. rewrite Ht, Hv.
  rewrite Hlen, Nat.eqb_refl. simpl.
  rewrite !forallb_lt_spec by done. simpl.
  unfold bcast_ok. rewrite !Nat.eqb_refl. simpl.
  rewrite <- Hlen.
  destruct (Nat.eqb_spec P (length rows)); [done|].
  destruct (Nat.eqb_spec P 1); done.
Qed.
End FEval.

Section FBlock.
Context `{Scalar R}.

(** The eight assignments of [f] on one [(batch, bin)] item with real
    parts [re] and imaginary parts [im]. *)
Definition f_block (n : nat) (re im : list R) : list (list R) :=
  let i0 := (triu_indices n n).1 in
  let i1 := (triu_indices n n).2 in
  let M := replicate (2 * n) (replicate (2 * n) zero) in
  let M := scatter M (zip (zip (twice i1) (twice i0)) re) in
  let M := scatter M (zip (zip (twice i0) (twice i1)) re) in
  let M := scatter M (zip (zip (twice1 i1) (twice1 i0)) re) in
  let M := scatter M (zip (zip (twice1 i0) (twice1 i1)) re) in
  let M := scatter M (zip (zip (twice i0) (twice1 i1)) (neg <$> im)) in
  let M := scatter M (zip (zip (twice1 i1) (twice i0)) (neg <$> im)) in
  let M := scatter M (zip (zip (twice1 i0) (twice i1)) im) in
  let M := scatter M (zip (zip (twice i1) (twice1 i0)) im) in
  M.

Lemma triu_fst_lt n i : i ∈ (triu_pairs n n).*1 → i < n.
Proof.
  intros ([i' j] & -> & Hin)%list_elem_of_fmap.
  apply elem_of_triu_pairs in Hin. simpl. lia.
Qed.
Lemma triu_snd_lt n j : j ∈ (triu_pairs n n).*2 → j < n.
Proof.
  intros ([i j'] & -> & Hin)%list_elem_of_fmap.
  apply elem_of_triu_pairs in Hin. simpl. lia.
Qed.

Lemma twice_lt n l i : (∀ x, x ∈ l → x < n) → i ∈ twice l → i < 2 * n.
Proof. intros Hl (x & -> & Hx%Hl)%list_elem_of_fmap. lia. Qed.
Lemma twice1_lt n l i : (∀ x, x ∈ l → x < n) → i ∈ twice1 l → i < 2 * n.
Proof. intros Hl (x & -> & Hx%Hl)%list_elem_of_fmap. lia. Qed.

Lemma length_twice l : length (twice l) = length l.
Proof. apply length_fmap. Qed.
Lemma length_twice1 l : length (twice1 l) = length l.
Proof. apply length_fmap. Qed.
Lemma length_triu_fst n : length (triu_pairs n n).*1 = tri n.
Proof. by rewrite length_fmap, length_triu_pairs. Qed.
Lemma length_triu_snd n : length (triu_pairs n n).*2 = tri n.
Proof. by rewrite length_fmap, length_triu_pairs. Qed.
End FBlock.

Create HintDb triu.
#[local] Hint Resolve triu_fst_lt triu_snd_lt : triu.
#[local] Hint Extern 1 (_ < 2 * _) => (eapply twice_lt; [|eassumption]) : triu.
#[local] Hint Extern 1 (_ < 2 * _) => (eapply twice1_lt; [|eassumption]) : triu.

Ltac solve_index_side :=
  try done;
  first
    [ by rewrite ?length_twice, ?length_twice1, ?length_triu_fst, ?length_triu_snd
    | intros ??; eauto with triu ].

Section FEval2.
Context `{Scalar R}.

Lemma neg3_bmap {A} s (G : A → list R) (X : list (list A)) :
  neg3 (T3 s (bmap G X)) = T3 s (bmap (λ x, neg <$> G x) X).
Proof. unfold neg3. simpl. f_equal. apply (bmap_bmap G (fmap neg)). Qed.

Lemma f_eval a B K P :
  shape5 a = (B, 1, K, 2, P) → wf5 a = true → tri (channels_of P) = P →
  f a = Ok (T4 (B, K, 2 * channels_of P, 2 * channels_of P)
              (bmap (λ cell, f_block (channels_of P) (cell !!! 0) (cell !!! 1))
                 (packed_cells a))).
Proof.
  intros Hs Hwf HP. set (n := channels_of P) in *.
  pose proof (packed_cells_wf _ _ _ _ _ Hs Hwf) as HX.
  unfold f. rewrite (squeeze_transpose _ _ _ _ _ Hs).
  cbn [mbind result_bind shape4].
  rewrite !(select_last4_cells B K 2 P) by (done || lia).
  cbn [mbind result_bind]. fold n. unfold zeros4, triu_indices.
  rewrite (replicate_bmap B K _ (packed_cells a)) by apply HX.
  cbn [fst snd]. rewrite !neg3_bmap.
  repeat (rewrite index_put4_bmap; [cbn [mbind result_bind]|solve_index_side..]).
  do 2 f_equal. apply bmap_ext. intros xs cell Hxs Hcell.
  destruct HX as [_ Hcells]. specialize (Hcells _ _ Hxs Hcell).
  unfold f_block, triu_indices. cbn [fst snd].
  rewrite !expand_id; [done|..];
    rewrite ?length_fmap, ?length_twice, ?length_twice1,
      ?length_triu_fst, ?length_triu_snd, ?length_triu_pairs;
    rewrite HP; eapply has_dims_row; eauto.
Qed.

(** Without a triangular packed length the first indexed assignment
    cannot broadcast its value. *)
Lemma f_mismatch a B K m P :
  shape5 a = (B, 1, K, m, P) → 0 < m → tri (channels_of P) ≠ P →
  f a = Err ShapeMismatch.
Proof.
  intros Hs Hm HP. unfold f. rewrite (squeeze_transpose _ _ _ _ _ Hs).
  cbn [mbind result_bind shape4].
  assert (∃ d, select_last4
            (T4 (B, K, P, m) (bmap (transpose2 P) (packed_cells a))) 0 =
            Ok (T3 (B, K, P) d)) as [d ->].
  { unfold select_last4. simpl.
    destruct (Nat.ltb_spec 0 m) as [_|?]; [eauto|lia]. }
  cbn [mbind result_bind]. unfold triu_indices. cbn [fst snd].
  rewrite (index_put4_mismatch _ _ _ _ B K (2 * channels_of P)
             (2 * channels_of P) P); [done|done|done|solve_index_side..| |].
  - rewrite length_twice, length_triu_snd. done.
  - intros ->. by apply HP.
Qed.
End FEval2.

(** ** The cells of [f_block] *)

Section FCells.
Context `{Scalar R}.

Lemma zip_fmap_diag {A B C} (g1 : A → B) (g2 : A → C) (l : list A) :
  zip (g1 <$> l) (g2 <$> l) = (λ x, (g1 x, g2 x)) <$> l.
Proof. induction l as [|x l IH]; csimpl; [done|]. by f_equal. Qed.

Lemma zip_index_lists (g1 g2 : nat → nat) (p1 p2 : nat * nat → nat)
    (T : list (nat * nat)) :
  zip (g1 <$> (p1 <$> T)) (g2 <$> (p2 <$> T)) =
    (λ ij, (g1 (p1 ij), g2 (p2 ij))) <$> T.
Proof. rewrite <- !list_fmap_compose. apply zip_fmap_diag. Qed.

Section Step.
Context (key : nat * nat → nat * nat) (T : list (nat * nat)).
Context (vals : list R) (M : list (list R)).

Lemma step_out r c :
  (∀ ij, ij ∈ T → key ij ≠ (r, c)) →
  mlookup (scatter M (zip (key <$> T) vals)) r c = mlookup M r c.
Proof.
  intros Hout. apply mlookup_scatter_notin.
  intros ([rc v] & Hrc & Hin)%list_elem_of_fmap. simpl in Hrc. subst rc.
  apply elem_of_zip_l in Hin.
  apply list_elem_of_fmap in Hin as (ij & Hkey & Hij).
  by apply (Hout ij).
Qed.

Lemma step_in p ij v r c :
  Inj (=) (=) key → NoDup T → length T = length vals →
  T !! p = Some ij → vals !! p = Some v → key ij = (r, c) →
  is_Some (mlookup M r c) →
  mlookup (scatter M (zip (key <$> T) vals)) r c = Some v.
Proof.
  intros Hinj Hnd Hlen Hp Hv Hkey HM.
  apply mlookup_scatter_in; [|..|done].
  - rewrite fst_zip by (rewrite length_fmap; lia).
    by apply NoDup_fmap_2.
  - apply list_elem_of_lookup. exists p.
    rewrite lookup_zip_with, list_lookup_fmap, Hp, Hv. simpl.
    by rewrite Hkey.
Qed.
End Step.

Lemma zeros_is_Some m n r c :
  r < m → c < n → is_Some (mlookup (replicate m (replicate n (zero : R))) r c).
Proof.
  intros Hr Hc. unfold mlookup.
  rewrite lookup_replicate_2 by done. simpl.
  rewrite lookup_replicate_2 by done. eauto.
Qed.

Lemma mlookup_zeros m n r c :
  r < m → c < n → mlookup (replicate m (replicate n (zero : R))) r c = Some zero.
Proof.
  intros Hr Hc. unfold mlookup.
  rewrite lookup_replicate_2 by done. simpl.
  by rewrite lookup_replicate_2.
Qed.

(** The index pairs of the eight assignments, as functions of the
    upper-triangle coordinate [(i, j)]. *)
Definition key1 (ij : nat * nat) : nat * nat := (ij.2 * 2, ij.1 * 2).
Definition key2 (ij : nat * nat) : nat * nat := (ij.1 * 2, ij.2 * 2).
Definition key3 (ij : nat * nat) : nat * nat := (ij.2 * 2 + 1, ij.1 * 2 + 1).
Definition key4 (ij : nat * nat) : nat * nat := (ij.1 * 2 + 1, ij.2 * 2 + 1).
Definition key5 (ij : nat * nat) : nat * nat := (ij.1 * 2, ij.2 * 2 + 1).
Definition key6 (ij : nat * nat) : nat * nat := (ij.2 * 2 + 1, ij.1 * 2).
Definition key7 (ij : nat * nat) : nat * nat := (ij.1 * 2 + 1, ij.2 * 2).
Definition key8 (ij : nat * nat) : nat * nat := (ij.2 * 2, ij.1 * 2 + 1).

Ltac solve_inj :=
  intros [??] [??]; unfold key1, key2, key3, key4, key5, key6, key7, key8;
  simpl; intros [=]; f_equal; lia.

#[local] Instance key1_inj : Inj (=) (=) key1. Proof. solve_inj. Qed.
#[local] Instance key2_inj : Inj (=) (=) key2. Proof. solve_inj. Qed.
#[local] Instance key3_inj : Inj (=) (=) key3. Proof. solve_inj. Qed.
#[local] Instance key4_inj : Inj (=) (=) key4. Proof. solve_inj. Qed.
#[local] Instance key5_inj : Inj (=) (=) key5. Proof. solve_inj. Qed.
#[local] Instance key6_inj : Inj (=) (=) key6. Proof. solve_inj. Qed.
#[local] Instance key7_inj : Inj (=) (=) key7. Proof. solve_inj. Qed.
#[local] Instance key8_inj : Inj (=) (=) key8. Proof. solve_inj. Qed.

Lemma f_block_keys n re im :
  f_block n re im =
    let T := triu_pairs n n in
    let M := replicate (2 * n) (replicate (2 * n) zero) in
    let M := scatter M (zip (key1 <$> T) re) in
    let M := scatter M (zip (key2 <$> T) re) in
    let M := scatter M (zip (key3 <$> T) re) in
    let M := scatter M (zip (key4 <$> T) re) in
    let M := scatter M (zip (key5 <$> T) (neg <$> im)) in
    let M := scatter M (zip (key6 <$> T) (neg <$> im)) in
    let M := scatter M (zip (key7 <$> T) im) in
    let M := scatter M (zip (key8 <$> T) im) in
    M.
Proof.
  unfold f_block, triu_indices, twice, twice1. cbn [fst snd].
  by rewrite !zip_index_lists.
Qed.

Lemma f_block_dims n re im : has_dims (2 * n) (2 * n) (f_block n re im).
Proof.
  unfold f_block. cbv zeta. repeat apply scatter_dims.
  split; [by rewrite length_replicate|].
  intros row Hrow%elem_of_replicate. destruct Hrow as [-> _].
  by rewrite length_replicate.
Qed.

Ltac unfold_keys := unfold key1, key2, key3, key4, key5, key6, key7, key8.

Ltac key_out :=
  rewrite step_out by
    (intros [??] ?%elem_of_triu_pairs; unfold_keys; simpl; intros [=]; lia).

Ltac key_in p :=
  eapply (step_in _ _ _ _ p);
    [ tc_solve
    | apply NoDup_triu_pairs
    | rewrite ?length_fmap, length_triu_pairs; done
    | eassumption
    | first [eassumption | by (rewrite list_lookup_fmap; simplify_option_eq)]
    | unfold_keys; simpl; f_equal; lia
    | repeat apply scatter_is_Some; apply zeros_is_Some; lia ].

Ltac solve_cell p := repeat key_out; key_in p.

(** What [f] leaves in the block for the packed entry [p] of the
    upper-triangle coordinate [(i, j)]. *)
Lemma f_block_cells n re im p i j r x :
  length re = tri n → length im = tri n →
  triu_pairs n n !! p = Some (i, j) → re !! p = Some r → im !! p = Some x →
  let F := f_block n re im in
  mlookup F (2 * j) (2 * i) = Some r ∧
  mlookup F (2 * i) (2 * j) = Some r ∧
  mlookup F (2 * j + 1) (2 * i + 1) = Some r ∧
  mlookup F (2 * i + 1) (2 * j + 1) = Some r ∧
  mlookup F (2 * i + 1) (2 * j) = Some x ∧
  mlookup F (2 * j) (2 * i + 1) = Some x ∧
  (i < j → mlookup F (2 * i) (2 * j + 1) = Some (neg x) ∧
           mlookup F (2 * j + 1) (2 * i) = Some (neg x)).
Proof.
  intros Hre Him Hp Hr Hx F. subst F.
  assert (i ≤ j ∧ i < n ∧ j < n) as (Hij & Hi & Hj).
  { apply elem_of_triu_pairs. by eapply list_elem_of_lookup_2. }
  rewrite f_block_keys. cbv zeta.
  destruct (decide (i = j)) as [->|Hne].
  - split_and!; [solve_cell p..|lia].
  - assert (i < j) by lia. split_and!; [solve_cell p..|].
    intros _. split; solve_cell p.
Qed.
End FCells.

(** ** Symmetry of the block *)

Section FSymmetric.
Context `{Scalar R}.

Lemma triu_lookup_of_le n i j :
  i ≤ j → j < n → ∃ p, triu_pairs n n !! p = Some (i, j) ∧ p < tri n.
Proof.
  intros Hij Hj.
  assert ((i, j) ∈ triu_pairs n n) as [p Hp]%list_elem_of_lookup.
  { apply elem_of_triu_pairs. lia. }
  exists p. split; [done|].
  rewrite <- length_triu_pairs. by eapply lookup_lt_Some.
Qed.

Lemma f_block_sym_le n re im a b s t :
  length re = tri n → length im = tri n →
  a ≤ b → b < n → s < 2 → t < 2 →
  mlookup (f_block n re im) (2 * a + s) (2 * b + t) =
  mlookup (f_block n re im) (2 * b + t) (2 * a + s).
Proof.
  intros Hre Him Hab Hb Hs Ht.
  destruct (triu_lookup_of_le n a b) as (p & Hp & Hlt); [done..|].
  destruct (lookup_lt_is_Some_2 re p) as [r Hr]; [lia|].
  destruct (lookup_lt_is_Some_2 im p) as [x Hx]; [lia|].
  destruct (f_block_cells n re im p a b r x Hre Him Hp Hr Hx)
    as (E1 & E2 & E3 & E4 & E5 & E6 & E7).
  destruct s as [|[|]], t as [|[|]]; try lia;
    rewrite ?Nat.add_0_r.
  - by rewrite E1, E2.
  - destruct (decide (a = b)) as [->|Hne].
    + by rewrite E5, E6.
    + destruct E7 as [E7 E8]; [lia|]. by rewrite E7, E8.
  - by rewrite E5, E6.
  - by rewrite E3, E4.
Qed.

Lemma f_block_symmetric n re im r c :
  length re = tri n → length im = tri n →
  r < 2 * n → c < 2 * n →
  mlookup (f_block n re im) r c = mlookup (f_block n re im) c r.
Proof.
  intros Hre Him Hr Hc.
  rewrite (Nat.div_mod r 2), (Nat.div_mod c 2) by done.
  pose proof (Nat.mod_upper_bound r 2). pose proof (Nat.mod_upper_bound c 2).
  assert (r / 2 < n) by (apply Nat.Div0.div_lt_upper_bound; lia).
  assert (c / 2 < n) by (apply Nat.Div0.div_lt_upper_bound; lia).
  destruct (decide (r / 2 ≤ c / 2)).
  - apply f_block_sym_le; lia.
  - symmetry. apply f_block_sym_le; lia.
Qed.

Lemma mlookup_total (M : list (list R)) r c v :
  mlookup M r c = Some v → (M !!! r) !!! c = v.
Proof.
  unfold mlookup. intros Hv.
  destruct (M !! r) as [row|] eqn:Hrow; simpl in Hv; [|done].
  apply list_lookup_total_correct in Hrow. rewrite Hrow.
  by apply list_lookup_total_correct.
Qed.

Lemma mlookup_transpose2 m n (M : list (list R)) r c :
  has_dims m n M → r < n → c < m →
  mlookup (transpose2 n M) r c = mlookup M c r.
Proof.
  intros HM Hr Hc.
  destruct (has_dims_lookup m n M c r HM Hc Hr) as [v Hv].
  rewrite Hv. unfold mlookup, transpose2.
  rewrite list_lookup_fmap, lookup_seq_lt by done. simpl.
  rewrite list_lookup_fmap.
  unfold mlookup in Hv.
  destruct (M !! c) as [row|] eqn:Hrow; simpl in *; [|done].
  f_equal. by apply list_lookup_total_correct.
Qed.

Lemma transpose2_dims n (M : list (list R)) :
  has_dims n (length M) (transpose2 n M).
Proof.
  split; [unfold transpose2; by rewrite length_fmap, length_seq|].
  intros row (j & -> & _)%list_elem_of_fmap. by rewrite length_fmap.
Qed.

Lemma transpose2_symmetric n (M : list (list R)) :
  has_dims n n M →
  (∀ r c, r < n → c < n → mlookup M r c = mlookup M c r) →
  transpose2 n M = M.
Proof.
  intros HM Hsym. apply (matrix_eq n n); [|done|].
  - pose proof (transpose2_dims n M) as Hd.
    destruct HM as [Hlen _]. by rewrite Hlen in Hd.
  - intros r c Hr Hc. rewrite (mlookup_transpose2 n n) by done.
    by apply Hsym.
Qed.
End FSymmetric.

(** ** Diagonal entries of the packing *)

(** [l[mask]] with a boolean mask. *)
Definition mask_select {A} (mask : list bool) (l : list A) : list A :=
  (filter (λ mv : bool * A, mv.1 = true) (zip mask l)).*2.

(** [torch.eq(indices[0, :], indices[1, :])]: the packed positions of the
    diagonal. *)
Definition indices_diag (n : nat) : list bool :=
  zip_with Nat.eqb (triu_indices n n).1 (triu_indices n n).2.

Lemma mask_select_elem {A} (mask : list bool) (l : list A) p x :
  mask !! p = Some true → l !! p = Some x → x ∈ mask_select mask l.
Proof.
  intros Hm Hl. unfold mask_select.
  apply list_elem_of_fmap. exists (true, x). split; [done|].
  apply list_elem_of_filter. split; [done|].
  apply list_elem_of_lookup. exists p.
  by rewrite lookup_zip_with, Hm, Hl.
Qed.

Lemma indices_diag_lookup n p i j :
  triu_pairs n n !! p = Some (i, j) → indices_diag n !! p = Some (i =? j).
Proof.
  intros Hp. unfold indices_diag, triu_indices. cbn [fst snd].
  by rewrite lookup_zip_with, !list_lookup_fmap, Hp.
Qed.

Section Accessors.
Context `{Scalar R}.

(** [t[b, k, r, c]] and [t[i0, i1, i2, i3, i4]] *)
Definition at4 (t : tensor4 R) (b k r c : nat) : option R :=
  mlookup (data4 t) b k ≫= λ M, mlookup M r c.
Definition at5 (t : tensor5 R) (i0 i1 i2 i3 i4 : nat) : option R :=
  mlookup (data5 t) i0 i1 ≫= λ M, mlookup M i2 i3 ≫= λ l, l !! i4.

(** The imaginary parts of the diagonal packed entries are zero, for every
    [(batch, bin)] item of a packed input with [n] channels. *)
Definition diag_imag_zero (n : nat) (a : tensor5 R) : Prop :=
  Forall (Forall (λ cell : list (list R),
            Forall (λ x, x = zero) (mask_select (indices_diag n) (cell !!! 1))))
    (packed_cells a).

Lemma diag_imag_zero_lookup n (a : tensor5 R) xs cell p i x :
  diag_imag_zero n a → xs ∈ packed_cells a → cell ∈ xs →
  triu_pairs n n !! p = Some (i, i) → (cell !!! 1) !! p = Some x → x = zero.
Proof.
  intros Hz Hxs Hcell Hp Hx.
  unfold diag_imag_zero in Hz. rewrite Forall_forall in Hz.
  specialize (Hz xs Hxs). rewrite Forall_forall in Hz.
  specialize (Hz cell Hcell). rewrite Forall_forall in Hz.
  apply Hz. eapply mask_select_elem; [|done].
  rewrite (indices_diag_lookup n p i i) by done.
  by rewrite Nat.eqb_refl.
Qed.

Lemma cell_eta n (cell : list (list R)) :
  has_dims 2 n cell → cell = [cell !!! 0; cell !!! 1].
Proof.
  intros [Hlen _]. by destruct cell as [|r0 [|r1 [|]]].
Qed.

Lemma packed_data_eta (a : tensor5 R) B K m n :
  shape5 a = (B, 1, K, m, n) → wf5 a = true →
  data5 a = lmap (λ xs, [xs]) (packed_cells a).
Proof.
  unfold wf5, packed_cells. intros -> [Hlen Hall]%shaped_spec.
  rewrite <- list_fmap_compose.
  rewrite <- (list_fmap_id (data5 a)) at 1.
  apply list_fmap_ext. intros i xb Hxb%list_elem_of_lookup_2. simpl.
  apply Hall, shaped_singleton in Hxb as (xk & -> & _).
  simpl. by rewrite app_nil_r.
Qed.

Lemma at5_packed (a : tensor5 R) B K m n b k c p :
  shape5 a = (B, 1, K, m, n) → wf5 a = true →
  at5 a b 0 k c p = mlookup (packed_cells a) b k ≫= λ cell, mlookup cell c p.
Proof.
  intros Hs Hwf. unfold at5.
  rewrite (packed_data_eta a B K m n Hs Hwf) at 1.
  unfold mlookup. rewrite list_lookup_fmap.
  destruct (packed_cells a !! b) as [xs|]; simpl; [|done].
  destruct (xs !! k) as [cell|]; simpl; [|done].
  by destruct (cell !! c).
Qed.
End Accessors.

(** ** Evaluating [finv] on a block tensor *)

Section FinvEval.
Context `{Scalar R}.

(** [M[rows, cols]] on one item. *)
Definition gather (M : list (list R)) (rows cols : list nat) : list R :=
  (λ rc : nat * nat, (M !!! rc.1) !!! rc.2) <$> zip rows cols.

Lemma index_get4_bmap {A} B K r c rows cols (F : A → list (list R))
    (X : list (list A)) :
  length rows = length cols →
  (∀ i, i ∈ rows → i < r) → (∀ j, j ∈ cols → j < c) →
  index_get4 (T4 (B, K, r, c) (bmap F X)) rows cols =
    Ok (T3 (B, K, length rows) (bmap (λ x, gather (F x) rows cols) X)).
Proof.
  intros Hlen Hr Hc. unfold index_get4. simpl.
  rewrite Hlen, Nat.eqb_refl. simpl.
  rewrite !forallb_lt_spec by done. simpl.
  do 2 f_equal. apply (bmap_bmap F).
Qed.

Lemma assign_component5_cells {A} B K d p c (F : A → list (list R))
    (G : A → list R) (X : list (list A)) :
  c < d →
  assign_component5 (T5 (B, 1, K, d, p) (lmap (λ xs, [lmap F xs]) X)) c
      (T3 (B, K, p) (bmap G X)) =
    Ok (T5 (B, 1, K, d, p)
          (lmap (λ xs, [lmap (λ x, <[c:=expand p (G x)]> (F x)) xs]) X)).
Proof.
  intros Hc. unfold assign_component5. simpl.
  destruct (Nat.ltb_spec c d) as [_|?]; [|lia]. simpl.
  unfold bcast_ok. rewrite !Nat.eqb_refl. simpl.
  do 2 f_equal. unfold bmap.
  rewrite bzip_zip_with by (by rewrite !length_fmap).
  rewrite zip_with_fmap_l, zip_with_fmap_r, zip_with_diag.
  apply list_fmap_ext. intros i xs _. simpl. f_equal.
  rewrite bzip_zip_with by (by rewrite !length_fmap).
  by rewrite zip_with_fmap_l, zip_with_fmap_r, zip_with_diag.
Qed.

Lemma zeros5_cells {A} B K d p (X : list (list A)) :
  has_dims B K X →
  zeros5 B 1 K d p =
    T5 (B, 1, K, d, p)
       (lmap (λ xs, [lmap (λ _, replicate d (replicate p (zero : R))) xs]) X).
Proof.
  intros [HB HK]. unfold zeros5. f_equal. rewrite <- HB.
  rewrite <- (const_fmap (λ _ : list A,
    replicate 1 (replicate K (replicate d (replicate p (zero : R)))))) by done.
  apply list_fmap_ext. intros i xs Hxs%list_elem_of_lookup_2.
  simpl. f_equal. rewrite <- (HK xs Hxs).
  symmetry. by apply const_fmap.
Qed.

Lemma finv_eval {A} B K n (F : A → list (list R)) (X : list (list A)) :
  has_dims B K X →
  finv (T4 (B, K, 2 * n, 2 * n) (bmap F X)) =
    Ok (T5 (B, 1, K, 2, tri n)
          (lmap (λ xs, [lmap (λ x,
             [gather (F x) (twice (triu_pairs n n).*1) (twice (triu_pairs n n).*2);
              neg <$> gather (F x) (twice (triu_pairs n n).*1)
                        (twice1 (triu_pairs n n).*2)]) xs]) X)).
Proof.
  intros HX. unfold finv. cbn [shape4].
  replace (2 * n / 2) with n by (rewrite Nat.mul_comm, Nat.div_mul; done).
  fold (tri n). unfold triu_indices. cbn [fst snd].
  rewrite (zeros5_cells B K 2 (tri n) X HX).
  rewrite !index_get4_bmap by solve_index_side.
  cbn [mbind result_bind].
  rewrite !length_twice, !length_triu_fst, neg3_bmap.
  rewrite assign_component5_cells by lia.
  cbn [mbind result_bind].
  rewrite assign_component5_cells by lia.
  cbn [mbind result_bind]. do 2 f_equal.
  apply list_fmap_ext. intros i xs _. f_equal.
  apply list_fmap_ext. intros j x _.
  rewrite !expand_id; [done|..]; unfold gather;
    by rewrite ?length_fmap, length_zip_with_l_eq,
         length_twice, length_triu_fst
      by (by rewrite ?length_twice, ?length_twice1, length_triu_fst, length_triu_snd).
Qed.

(** Reading the block of [f] back at the positions [finv] reads. *)
Lemma gather_f_block_re n re im :
  length re = tri n → length im = tri n →
  gather (f_block n re im) (twice (triu_pairs n n).*1) (twice (triu_pairs n n).*2) = re.
Proof.
  intros Hre Him. unfold gather, twice. rewrite zip_index_lists.
  apply (list_eq_same_length _ _ (tri n)); [done|by rewrite !length_fmap, length_triu_pairs|].
  intros p x r Hp Hx Hr.
  rewrite <- list_fmap_compose, list_lookup_fmap in Hx.
  destruct (triu_pairs n n !! p) as [[i j]|] eqn:HT; simplify_eq/=.
  destruct (lookup_lt_is_Some_2 im p) as [y Hy]; [lia|].
  destruct (f_block_cells n re im p i j r y Hre Him HT Hr Hy)
    as (_ & E2 & _).
  apply mlookup_total. by rewrite !(Nat.mul_comm _ 2).
Qed.

Lemma gather_f_block_im n re im :
  length re = tri n → length im = tri n →
  Forall (λ x, x = zero) (mask_select (indices_diag n) im) →
  neg <$> gather (f_block n re im) (twice (triu_pairs n n).*1)
            (twice1 (triu_pairs n n).*2) = im.
Proof.
  intros Hre Him Hz. unfold gather, twice, twice1. rewrite zip_index_lists.
  apply (list_eq_same_length _ _ (tri n)); [done|by rewrite !length_fmap, length_triu_pairs|].
  intros p x y Hp Hx Hy.
  rewrite <- !list_fmap_compose, list_lookup_fmap in Hx.
  destruct (triu_pairs n n !! p) as [[i j]|] eqn:HT; simplify_eq/=.
  destruct (lookup_lt_is_Some_2 re p) as [r Hr]; [lia|].
  destruct (f_block_cells n re im p i j r y Hre Him HT Hr Hy)
    as (_ & _ & _ & _ & _ & E6 & E7).
  rewrite !(Nat.mul_comm _ 2).
  destruct (decide (i = j)) as [->|Hne].
  - rewrite (mlookup_total _ _ _ _ E6).
    assert (y = zero) as ->; [|apply neg_zero].
    rewrite Forall_forall in Hz. apply Hz.
    eapply mask_select_elem; [|done].
    rewrite (indices_diag_lookup n p j j HT). by rewrite Nat.eqb_refl.
  - assert (i ≤ j ∧ i < n ∧ j < n) as (Hij & _).
    { apply elem_of_triu_pairs. by eapply list_elem_of_lookup_2. }
    destruct E7 as [E7 _]; [lia|].
    rewrite (mlookup_total _ _ _ _ E7). apply neg_neg.
Qed.
End FinvEval.

(** ** Properties of [f] and [finv] *)

Section FTheorems.
Context `{Scalar R}.

Lemma cells_lengths B K n (X : list (list (list (list R)))) xs cell :
  cells_wf B K 2 n X → xs ∈ X → cell ∈ xs →
  length (cell !!! 0) = n ∧ length (cell !!! 1) = n.
Proof.
  intros [_ Hcells] Hxs Hcell. specialize (Hcells _ _ Hxs Hcell).
  split; eapply has_dims_row; eauto.
Qed.

(** The block of [f] is symmetric whatever the packed entries are. *)
Lemma f_symmetric_any (a : tensor5 R) B K C :
  shape5 a = (B, 1, K, 2, tri C) → wf5 a = true →
  ∃ m, f a = Ok m ∧ shape4 m = (B, K, 2 * C, 2 * C) ∧ transpose23 m = m.
Proof.
  intros Hs Hwf.
  pose proof (packed_cells_wf _ _ _ _ _ Hs Hwf) as HX.
  rewrite (f_eval a B K (tri C) Hs Hwf) by (by rewrite channels_of_tri).
  rewrite channels_of_tri. eexists. split; [done|]. split; [done|].
  unfold transpose23. simpl. f_equal.
  change (lmap (lmap ?F) ?D) with (bmap F D).
  rewrite bmap_bmap.
  apply bmap_ext. intros xs cell Hxs Hcell.
  destruct (cells_lengths _ _ _ _ _ _ HX Hxs Hcell) as [Hre Him].
  apply transpose2_symmetric; [apply f_block_dims|].
  intros r c Hr Hc. by apply f_block_symmetric.
Qed.

(** C4: for a packed Hermitian input of shape [(B, 1, K, 2, P)], [P]
    triangular, whose diagonal packed entries have zero imaginary part,
    the block matrix [f a] of shape [(B, K, 2C, 2C)] equals its own
    transpose in the last two axes. *)
Theorem f_symmetric (a : tensor5 R) (B K C : nat) :
  shape5 a = (B, 1, K, 2, tri C) → wf5 a = true → diag_imag_zero C a →
  ∃ m, f a = Ok m ∧ shape4 m = (B, K, 2 * C, 2 * C) ∧ transpose23 m = m.
Proof. intros Hs Hwf _. by apply f_symmetric_any. Qed.

(** C3: on a packed Hermitian input whose diagonal packed entries have
    zero imaginary part, [finv] undoes [f]: the real entries come back
    from the cells [(2i, 2j)] and the imaginary entries as the negated
    cells [(2i, 2j + 1)]. *)
Theorem finv_f_left_inverse (a : tensor5 R) (B K C : nat) :
  shape5 a = (B, 1, K, 2, tri C) → wf5 a = true → diag_imag_zero C a →
  ∃ m, f a = Ok m ∧ finv m = Ok a.
Proof.
  intros Hs Hwf Hz.
  pose proof (packed_cells_wf _ _ _ _ _ Hs Hwf) as HX.
  rewrite (f_eval a B K (tri C) Hs Hwf) by (by rewrite channels_of_tri).
  rewrite channels_of_tri. eexists. split; [done|].
  rewrite (finv_eval B K C) by apply HX.
  f_equal. destruct a as [sh d]. simpl in Hs. subst sh. f_equal.
  change d with (data5 (T5 (B, 1, K, 2, tri C) d)) at 2.
  rewrite (packed_data_eta _ B K 2 (tri C)) by done.
  apply list_fmap_ext. intros i xs Hxs%list_elem_of_lookup_2. f_equal.
  rewrite <- (list_fmap_id xs) at 2.
  apply list_fmap_ext. intros j cell Hcell%list_elem_of_lookup_2. simpl.
  destruct (cells_lengths _ _ _ _ _ _ HX Hxs Hcell) as [Hre Him].
  rewrite gather_f_block_re by done.
  rewrite gather_f_block_im; [|done|done|].
  - symmetry. eapply cell_eta. destruct HX as [_ Hc]. eauto.
  - unfold diag_imag_zero in Hz. rewrite Forall_forall in Hz.
    specialize (Hz xs Hxs). rewrite Forall_forall in Hz. by apply Hz.
Qed.

(** C5, amended: for the packed entry [p] of the upper-triangle pair
    [(i, j)], with real part [r] and imaginary part [x], the block of [f]
    holds [r] at [(2j, 2i)], [(2i, 2j)], [(2j+1, 2i+1)], [(2i+1, 2j+1)]
    and [x] at [(2i+1, 2j)] and [(2j, 2i+1)]; it holds [-x] at
    [(2i, 2j+1)] and [(2j+1, 2i)] when [i < j], while for [i = j] these
    two cells are the cells of [x], written last.  Every cell of the
    block is one of these cells for some pair, so none is left at the
    initial zero. *)
Theorem f_index_rule (a : tensor5 R) (B K C b k p i j : nat) (r x : R) :
  shape5 a = (B, 1, K, 2, tri C) → wf5 a = true →
  triu_pairs C C !! p = Some (i, j) →
  at5 a b 0 k 0 p = Some r → at5 a b 0 k 1 p = Some x →
  ∃ m, f a = Ok m ∧
    at4 m b k (2 * j) (2 * i) = Some r ∧
    at4 m b k (2 * i) (2 * j) = Some r ∧
    at4 m b k (2 * j + 1) (2 * i + 1) = Some r ∧
    at4 m b k (2 * i + 1) (2 * j + 1) = Some r ∧
    at4 m b k (2 * i + 1) (2 * j) = Some x ∧
    at4 m b k (2 * j) (2 * i + 1) = Some x ∧
    (i < j → at4 m b k (2 * i) (2 * j + 1) = Some (neg x) ∧
             at4 m b k (2 * j + 1) (2 * i) = Some (neg x)) ∧
    (i = j → at4 m b k (2 * i) (2 * j + 1) = Some x ∧
             at4 m b k (2 * j + 1) (2 * i) = Some x) ∧
    (∀ u v, u < 2 * C → v < 2 * C →
       ∃ i' j', i' ≤ j' ∧ j' < C ∧
         (u, v) ∈ [(2 * j', 2 * i'); (2 * i', 2 * j');
                   (2 * j' + 1, 2 * i' + 1); (2 * i' + 1, 2 * j' + 1);
                   (2 * i', 2 * j' + 1); (2 * j' + 1, 2 * i');
                   (2 * i' + 1, 2 * j'); (2 * j', 2 * i' + 1)]).
Proof.
  intros Hs Hwf Hp Hr Hx.
  pose proof (packed_cells_wf _ _ _ _ _ Hs Hwf) as HX.
  rewrite (f_eval a B K (tri C) Hs Hwf) by (by rewrite channels_of_tri).
  rewrite channels_of_tri. eexists. split; [done|].
  rewrite (at5_packed a B K 2 (tri C)) in Hr, Hx by done.
  unfold at4. simpl. rewrite mlookup_bmap.
  destruct (mlookup (packed_cells a) b k) as [cell|] eqn:Hcell; simpl in *; [|done].
  assert (∃ xs, xs ∈ packed_cells a ∧ cell ∈ xs) as (xs & Hxs & Hin).
  { unfold mlookup in Hcell.
    destruct (packed_cells a !! b) as [xs|] eqn:Hb; simpl in Hcell; [|done].
    exists xs. split; by eapply list_elem_of_lookup_2. }
  destruct (cells_lengths _ _ _ _ _ _ HX Hxs Hin) as [Hre Him].
  assert (Hrow : ∀ c v, mlookup cell c p = Some v → (cell !!! c) !! p = Some v).
  { intros c v Hv. unfold mlookup in Hv.
    destruct (cell !! c) as [row|] eqn:Hc; simpl in Hv; [|done].
    by rewrite (list_lookup_total_correct _ _ _ Hc). }
  apply Hrow in Hr, Hx.
  destruct (f_block_cells C _ _ p i j r x Hre Him Hp Hr Hx)
    as (E1 & E2 & E3 & E4 & E5 & E6 & E7).
  split_and!; try done.
  - intros ->. split; [exact E6 | exact E5].
  - intros u v Hu Hv.
    assert (u / 2 < C) by (apply Nat.Div0.div_lt_upper_bound; lia).
    assert (v / 2 < C) by (apply Nat.Div0.div_lt_upper_bound; lia).
    pose proof (Nat.div_mod u 2 ltac:(done)) as Hu2.
    pose proof (Nat.div_mod v 2 ltac:(done)) as Hv2.
    pose proof (Nat.mod_upper_bound u 2 ltac:(done)).
    pose proof (Nat.mod_upper_bound v 2 ltac:(done)).
    set (ua := u / 2) in *. set (va := v / 2) in *.
    rewrite Hu2, Hv2.
    destruct (u mod 2) as [|[|]], (v mod 2) as [|[|]]; try lia;
      rewrite ?Nat.add_0_r;
      destruct (decide (ua ≤ va));
      first [ exists ua, va; split; [lia|]; split; [lia|];
              rewrite !elem_of_cons; auto 12; fail
            | exists va, ua; split; [lia|]; split; [lia|];
              rewrite !elem_of_cons; auto 12; fail ].
Qed.
End FTheorems.

(** ** Concrete packed inputs *)

(** A [2 × 2] Hermitian matrix [[1, 2 + 7i], [2 - 7i, 3]], packed. *)
Definition packed_example : tensor5 Z :=
  T5 (1, 1, 1, 2, 3) [[[[[1; 2; 3]; [0; 7; 0]]]]]%Z.

(** A [1 × 1] packing whose diagonal entry has imaginary part [7]. *)
Definition packed_diag_imag : tensor5 Z :=
  T5 (1, 1, 1, 2, 1) [[[[[5]; [7]]]]]%Z.

Lemma packed_example_diag : diag_imag_zero 2 packed_example.
Proof. repeat constructor. Defined.

Lemma f_symmetric_witness :
  shape5 packed_example = (1, 1, 1, 2, tri 2) ∧ wf5 packed_example = true ∧
  diag_imag_zero 2 packed_example ∧
  ∃ m, f packed_example = Ok m ∧ shape4 m = (1, 1, 2 * 2, 2 * 2) ∧
       transpose23 m = m.
Proof.
  split; [reflexivity|]. split; [reflexivity|].
  split; [exact packed_example_diag|].
  apply (f_symmetric packed_example 1 1 2);
    [reflexivity | reflexivity | exact packed_example_diag].
Defined.

Lemma finv_f_left_inverse_witness :
  shape5 packed_example = (1, 1, 1, 2, tri 2) ∧ wf5 packed_example = true ∧
  diag_imag_zero 2 packed_example ∧
  ∃ m, f packed_example = Ok m ∧ finv m = Ok packed_example.
Proof.
  split; [reflexivity|]. split; [reflexivity|].
  split; [exact packed_example_diag|].
  apply (finv_f_left_inverse packed_example 1 1 2);
    [reflexivity | reflexivity | exact packed_example_diag].
Defined.

Lemma f_index_rule_witness :
  ∃ m, f packed_example = Ok m ∧
    at4 m 0 0 (2 * 1) (2 * 0) = Some 2%Z ∧
    at4 m 0 0 (2 * 0) (2 * 1 + 1) = Some (-7)%Z.
Proof.
  destruct (f_index_rule packed_example 1 1 2 0 0 1 0 1 2%Z 7%Z)
    as (m & Hm & E1 & _ & _ & _ & _ & _ & E7 & _);
    [reflexivity..|].
  exists m. split; [exact Hm|]. split; [exact E1|].
  apply E7. apply Nat.lt_0_1.
Defined.

(** C5 as stated fails on a diagonal entry with a non-zero imaginary
    part: for [(i, j) = (0, 0)], [r = 5] and [x = 7] the cell
    [(2i, 2j + 1) = (0, 1)] of the block holds [x = 7], not [-x]. *)
Lemma f_index_rule_diag_counterexample :
  triu_pairs 1 1 !! 0 = Some (0, 0) ∧
  at5 packed_diag_imag 0 0 0 0 0 = Some 5%Z ∧
  at5 packed_diag_imag 0 0 0 1 0 = Some 7%Z ∧
  ∃ m, f packed_diag_imag = Ok m ∧
    at4 m 0 0 (2 * 0) (2 * 0 + 1) = Some 7%Z ∧
    at4 m 0 0 (2 * 0) (2 * 0 + 1) ≠ Some (neg 7%Z).
Proof.
  split; [reflexivity|]. split; [reflexivity|]. split; [reflexivity|].
  eexists. split; [reflexivity|]. split; [reflexivity|]. discriminate.
Qed.

(** ** Slices *)

(** The positions of an [n × m] block, row by row. *)
Definition grid (n m : nat) : list (nat * nat) :=
  a ← seq 0 n; (λ b, (a, b)) <$> seq 0 m.

Lemma elem_of_grid n m a b : (a, b) ∈ grid n m ↔ a < n ∧ b < m.
Proof.
  unfold grid. rewrite list_elem_of_bind. split.
  - intros (a' & Hin & Ha'%elem_of_seq).
    apply list_elem_of_fmap in Hin as (b' & [= -> ->] & Hb'%elem_of_seq). lia.
  - intros [Ha Hb]. exists a. split; [|apply elem_of_seq; lia].
    apply list_elem_of_fmap. exists b. split; [done|]. apply elem_of_seq. lia.
Qed.

Lemma NoDup_grid n m : NoDup (grid n m).
Proof.
  unfold grid. apply NoDup_bind.
  - intros a1 a2 [a b] _ _ Hin1 Hin2.
    apply list_elem_of_fmap in Hin1 as (? & [= -> ->] & _).
    apply list_elem_of_fmap in Hin2 as (? & [= -> ->] & _). done.
  - intros a _. apply NoDup_fmap_2; [|apply NoDup_seq].
    intros b1 b2 [=]. done.
  - apply NoDup_seq.
Qed.

Lemma fmap_bind_list {A B C} (h : B → C) (g : A → list B) (l : list A) :
  h <$> (l ≫= g) = l ≫= (λ x, h <$> g x).
Proof.
  induction l as [|x l IH]; csimpl; [done|].
  by rewrite fmap_app, IH.
Qed.

Lemma list_bind_ext_in {A B} (g1 g2 : A → list B) (l : list A) :
  (∀ x, x ∈ l → g1 x = g2 x) → l ≫= g1 = l ≫= g2.
Proof.
  induction l as [|x l IH]; intros Hext; csimpl; [done|].
  rewrite Hext by left. f_equal. apply IH. intros y Hy. apply Hext. by right.
Qed.

Lemma list_total_eta `{Inhabited A} (l : list A) n :
  length l = n → l = (λ a, l !!! a) <$> seq 0 n.
Proof.
  intros Hlen. apply (list_eq_same_length _ _ n);
    [by rewrite length_fmap, length_seq|done|].
  intros i x y Hi Hx Hy.
  rewrite list_lookup_fmap, lookup_seq_lt in Hy by done.
  simpl in Hy. injection Hy as <-.
  symmetry. by apply list_lookup_total_correct.
Qed.

Lemma zip_seq_fmap `{Inhabited B} {A} (g : nat → A) (l : list B) n :
  length l = n → zip (g <$> seq 0 n) l = (λ a, (g a, l !!! a)) <$> seq 0 n.
Proof.
  intros Hlen. rewrite (list_total_eta l n Hlen) at 1.
  apply (zip_fmap_diag g (λ a, l !!! a)).
Qed.

Lemma slice_range_step2 s n :
  s < 2 → slice_range (Slice s (2 * n) 2) (2 * n) = (λ k, s + k * 2) <$> seq 0 n.
Proof.
  intros Hs. unfold slice_range. simpl sl_start. simpl sl_stop. simpl sl_step.
  rewrite Nat.min_id. do 2 f_equal.
  destruct s as [|[|]]; [| |lia].
  - replace (2 * n - 0 + 2 - 1) with (1 + n * 2) by lia.
    rewrite Nat.div_add by done. done.
  - destruct n as [|n]; [done|].
    replace (2 * S n - 1 + 2 - 1) with (0 + S n * 2) by lia.
    rewrite Nat.div_add by done. done.
Qed.

Section SliceCells.
Context `{Scalar R}.

Lemma slice_cells_grid n m (fr fc : nat → nat) (V : list (list R)) :
  has_dims n m V →
  slice_cells (fr <$> seq 0 n) (fc <$> seq 0 m) V =
    zip ((λ ab, (fr ab.1, fc ab.2)) <$> grid n m)
        ((λ ab, (V !!! ab.1) !!! ab.2) <$> grid n m).
Proof.
  intros HV. rewrite zip_fmap_diag. unfold slice_cells, grid.
  rewrite !length_fmap, !length_seq.
  rewrite (expand_id n V) by apply HV.
  rewrite zip_seq_fmap by apply HV.
  rewrite list_fmap_bind, fmap_bind_list.
  apply list_bind_ext_in. intros a Ha%elem_of_seq. simpl.
  rewrite expand_id by (eapply has_dims_row; [done|lia]).
  rewrite zip_seq_fmap by (eapply has_dims_row; [done|lia]).
  by rewrite <- !list_fmap_compose.
Qed.

(** [M[rs, cs]] on one item. *)
Definition submatrix (M : list (list R)) (ridx cidx : list nat) : list (list R) :=
  (λ i, (λ j, (M !!! i) !!! j) <$> cidx) <$> ridx.

Lemma slice_put4_bmap {A} B K n s t (F : A → list (list R))
    (G : A → list (list R)) (X : list (list A)) :
  s < 2 → t < 2 →
  slice_put4 (T4 (B, K, 2 * n, 2 * n) (bmap F X))
      (Slice s (2 * n) 2) (Slice t (2 * n) 2) (T4 (B, K, n, n) (bmap G X)) =
    Ok (T4 (B, K, 2 * n, 2 * n)
          (bmap (λ x, scatter (F x)
                        (slice_cells ((λ k, s + k * 2) <$> seq 0 n)
                           ((λ k, t + k * 2) <$> seq 0 n) (G x))) X)).
Proof.
  intros Hs Ht. unfold slice_put4. cbn [shape4 data4].
  rewrite !slice_range_step2 by done.
  rewrite !length_fmap, !length_seq.
  unfold bcast_ok. rewrite !Nat.eqb_refl. simpl.
  by rewrite bzip_bmap.
Qed.

Lemma slice_get4_bmap {A} B K n s t (F : A → list (list R)) (X : list (list A)) :
  s < 2 → t < 2 →
  slice_get4 (T4 (B, K, 2 * n, 2 * n) (bmap F X))
      (Slice s (2 * n) 2) (Slice t (2 * n) 2) =
    T4 (B, K, n, n)
       (bmap (λ x, submatrix (F x) ((λ k, s + k * 2) <$> seq 0 n)
                     ((λ k, t + k * 2) <$> seq 0 n)) X).
Proof.
  intros Hs Ht. unfold slice_get4. cbn [shape4 data4].
  rewrite !slice_range_step2 by done.
  rewrite !length_fmap, !length_seq. f_equal.
  apply (bmap_bmap F).
Qed.
End SliceCells.

(** ** Evaluating [g] and [ginv] *)

Section GEval.
Context `{Scalar R}.

(** The four slice assignments of [g] on one [(batch, bin)] item [W], an
    [n × n] matrix of cells [[re; im]]. *)
Definition g_block (n : nat) (W : list (list (list R))) : list (list R) :=
  let even := (λ k, 0 + k * 2) <$> seq 0 n in
  let odd := (λ k, 1 + k * 2) <$> seq 0 n in
  let re := lmap (lmap (λ cell : list R, cell !!! 0)) W in
  let im := lmap (lmap (λ cell : list R, cell !!! 1)) W in
  let M := replicate (2 * n) (replicate (2 * n) zero) in
  let M := scatter M (slice_cells even even re) in
  let M := scatter M (slice_cells odd odd re) in
  let M := scatter M (slice_cells even odd (lmap (lmap neg) im)) in
  let M := scatter M (slice_cells odd even im) in
  M.

(** The two assignments of [ginv] on one item. *)
Definition ginv_block (n : nat) (M : list (list R)) : list (list (list R)) :=
  let even := (λ k, 0 + k * 2) <$> seq 0 n in
  let odd := (λ k, 1 + k * 2) <$> seq 0 n in
  let W := replicate n (replicate n (replicate 2 zero)) in
  let W := bzip (bzip (λ (cell : list R) x, <[0:=x]> cell)) W
             (submatrix M even even) in
  let W := bzip (bzip (λ (cell : list R) x, <[1:=x]> cell)) W
             (submatrix M odd even) in
  W.

Lemma neg4_bmap {A} s (G : A → list (list R)) (X : list (list A)) :
  neg4 (T4 s (bmap G X)) = T4 s (bmap (λ x, lmap (lmap neg) (G x)) X).
Proof. unfold neg4. simpl. f_equal. apply (bmap_bmap G). Qed.

Lemma select_last5_bmap B K p q d c (X : list (list (list (list (list R))))) :
  c < d →
  select_last5 (T5 (B, K, p, q, d) X) c =
    Ok (T4 (B, K, p, q) (bmap (lmap (lmap (λ cell : list R, cell !!! c))) X)).
Proof.
  intros Hc. unfold select_last5. simpl.
  by destruct (Nat.ltb_spec c d) as [_|?]; [|lia].
Qed.

Lemma g_eval (w : tensor5 R) B K n m d :
  shape5 w = (B, K, n, m, d) → m = n → 1 < d → has_dims B K (data5 w) →
  g w = Ok (T4 (B, K, 2 * n, 2 * n) (bmap (g_block n) (data5 w))).
Proof.
  intros Hs -> Hd HX. destruct w as [sh X]. simpl in *. subst sh.
  unfold g. cbn [shape5].
  rewrite !select_last5_bmap by lia. cbn [mbind result_bind].
  unfold zeros4. rewrite (replicate_bmap B K _ X) by done.
  rewrite neg4_bmap.
  repeat (rewrite slice_put4_bmap by lia; cbn [mbind result_bind]).
  done.
Qed.

Lemma assign_last5_bmap {A} B K p q d c (F : A → list (list (list R)))
    (G : A → list (list R)) (X : list (list A)) :
  c < d →
  assign_last5 (T5 (B, K, p, q, d) (bmap F X)) c (T4 (B, K, p, q) (bmap G X)) =
    Ok (T5 (B, K, p, q, d)
          (bmap (λ x, bzip (bzip (λ (cell : list R) v, <[c:=v]> cell)) (F x) (G x)) X)).
Proof.
  intros Hc. unfold assign_last5. simpl.
  destruct (Nat.ltb_spec c d) as [_|?]; [|lia]. simpl.
  unfold bcast_ok. rewrite !Nat.eqb_refl. simpl.
  by rewrite (bzip_bmap (bzip (bzip (λ (cell : list R) v, <[c:=v]> cell)))).
Qed.

Lemma ginv_eval {A} B K n (F : A → list (list R)) (X : list (list A)) :
  has_dims B K X →
  ginv (T4 (B, K, 2 * n, 2 * n) (bmap F X)) =
    Ok (T5 (B, K, n, n, 2) (bmap (λ x, ginv_block n (F x)) X)).
Proof.
  intros HX. unfold ginv. cbn [shape4].
  replace (2 * n / 2) with n by (rewrite Nat.mul_comm, Nat.div_mul; done).
  rewrite !slice_get4_bmap by lia.
  unfold zeros5. rewrite (replicate_bmap B K _ X) by done.
  rewrite assign_last5_bmap by lia. cbn [mbind result_bind].
  rewrite assign_last5_bmap by lia. cbn [mbind result_bind].
  done.
Qed.
End GEval.

Section GCells.
Context `{Scalar R}.

Definition slice_key (s t : nat) (ab : nat * nat) : nat * nat :=
  (s + ab.1 * 2, t + ab.2 * 2).

#[local] Instance slice_key_inj s t : Inj (=) (=) (slice_key s t).
Proof.
  intros [a b] [a' b']. unfold slice_key. simpl. intros [=]. f_equal; lia.
Qed.

Lemma slice_step_out (M : list (list R)) n s t V r c :
  has_dims n n V → s < 2 → t < 2 → r mod 2 ≠ s ∨ c mod 2 ≠ t →
  mlookup (scatter M (slice_cells ((λ k, s + k * 2) <$> seq 0 n)
                        ((λ k, t + k * 2) <$> seq 0 n) V)) r c =
  mlookup M r c.
Proof.
  intros HV Hs Ht Hpar. rewrite slice_cells_grid by done.
  apply (step_out (slice_key s t)).
  intros [a b] _. unfold slice_key. simpl. intros [= <- <-].
  rewrite !Nat.Div0.mod_add, !Nat.mod_small in Hpar by done.
  by destruct Hpar.
Qed.

Lemma slice_step_in (M : list (list R)) n s t V a b :
  has_dims n n V → a < n → b < n →
  is_Some (mlookup M (s + a * 2) (t + b * 2)) →
  mlookup (scatter M (slice_cells ((λ k, s + k * 2) <$> seq 0 n)
                        ((λ k, t + k * 2) <$> seq 0 n) V))
    (s + a * 2) (t + b * 2) = Some ((V !!! a) !!! b).
Proof.
  intros HV Ha Hb HM. rewrite slice_cells_grid by done.
  assert ((a, b) ∈ grid n n) as [p Hp]%list_elem_of_lookup.
  { by apply elem_of_grid. }
  eapply (step_in (slice_key s t) _ _ _ p (a, b)); try done.
  - apply _.
  - apply NoDup_grid.
  - by rewrite length_fmap.
  - by rewrite list_lookup_fmap, Hp.
Qed.

Lemma lookup_total_lmap2 `{Inhabited A, Inhabited B} (h : A → B) n m
    (V : list (list A)) a b :
  has_dims n m V → a < n → b < m →
  (lmap (lmap h) V !!! a) !!! b = h ((V !!! a) !!! b).
Proof.
  intros HV Ha Hb.
  assert (length (V !!! a) = m) as Hrow.
  { destruct HV as [Hn Hm]. apply Hm. apply list_elem_of_lookup. exists a.
    apply list_lookup_lookup_total_lt. lia. }
  destruct HV as [Hn _].
  rewrite (list_lookup_total_fmap (lmap h) V a) by lia.
  by rewrite (list_lookup_total_fmap h (V !!! a) b) by lia.
Qed.

Ltac slice_out :=
  rewrite slice_step_out;
    [ | eassumption | lia | lia
      | rewrite ?Nat.Div0.mod_add; simpl; lia ].

(** The cells of the block of [g] for the entry [(a, b)] of the item. *)
Lemma g_block_cells n (W : list (list (list R))) a b :
  has_dims n n W → a < n → b < n →
  let re := ((W !!! a) !!! b) !!! 0 in
  let im := ((W !!! a) !!! b) !!! 1 in
  mlookup (g_block n W) (2 * a) (2 * b) = Some re ∧
  mlookup (g_block n W) (2 * a + 1) (2 * b + 1) = Some re ∧
  mlookup (g_block n W) (2 * a) (2 * b + 1) = Some (neg im) ∧
  mlookup (g_block n W) (2 * a + 1) (2 * b) = Some im.
Proof.
  intros HW Ha Hb re im. unfold g_block. cbv zeta.
  pose proof (has_dims_bmap (λ cell : list R, cell !!! 0) n n W HW) as Hre.
  pose proof (has_dims_bmap (λ cell : list R, cell !!! 1) n n W HW) as Him.
  pose proof (has_dims_bmap neg n n _ Him) as Hneg.
  unfold bmap in Hre, Him, Hneg.
  replace (2 * a) with (0 + a * 2) by lia.
  replace (2 * b) with (0 + b * 2) by lia.
  replace (0 + a * 2 + 1) with (1 + a * 2) by lia.
  replace (0 + b * 2 + 1) with (1 + b * 2) by lia.
  split_and!.
  - do 3 slice_out.
    rewrite slice_step_in; [|done..|apply zeros_is_Some; lia].
    f_equal. by apply (lookup_total_lmap2 _ n n).
  - do 2 slice_out.
    rewrite slice_step_in;
      [|done..|apply scatter_is_Some, zeros_is_Some; lia].
    f_equal. by apply (lookup_total_lmap2 _ n n).
  - slice_out.
    rewrite slice_step_in;
      [|done..|do 2 apply scatter_is_Some; apply zeros_is_Some; lia].
    f_equal. rewrite (lookup_total_lmap2 neg n n) by done.
    f_equal. by apply (lookup_total_lmap2 _ n n).
  - rewrite slice_step_in;
      [|done..|do 3 apply scatter_is_Some; apply zeros_is_Some; lia].
    f_equal. by apply (lookup_total_lmap2 _ n n).
Qed.

Lemma g_block_dims n W : has_dims (2 * n) (2 * n) (g_block n W).
Proof.
  unfold g_block. cbv zeta. repeat apply scatter_dims.
  split; [by rewrite length_replicate|].
  intros row Hrow%elem_of_replicate. destruct Hrow as [-> _].
  by rewrite length_replicate.
Qed.
End GCells.

Section GRoundTrip.
Context `{Scalar R}.

Lemma replicate_seq {A} n (z : A) : replicate n z = (λ _, z) <$> seq 0 n.
Proof. rewrite (const_fmap (λ _ : nat, z) (seq 0 n) z) by done. by rewrite length_seq. Qed.

Lemma bzip_seq2 {A B C} (h : A → B → C) (F : nat → nat → A) (G : nat → nat → B) n m :
  bzip (bzip h) ((λ a, F a <$> seq 0 m) <$> seq 0 n)
                ((λ a, G a <$> seq 0 m) <$> seq 0 n) =
  (λ a, (λ b, h (F a b) (G a b)) <$> seq 0 m) <$> seq 0 n.
Proof.
  rewrite bzip_zip_with by (by rewrite !length_fmap).
  rewrite zip_with_fmap_l, zip_with_fmap_r, zip_with_diag.
  apply list_fmap_ext. intros i a _.
  rewrite bzip_zip_with by (by rewrite !length_fmap).
  by rewrite zip_with_fmap_l, zip_with_fmap_r, zip_with_diag.
Qed.

Lemma matrix_total_eta `{Inhabited A} n m (W : list (list A)) :
  has_dims n m W → W = (λ a, (λ b, (W !!! a) !!! b) <$> seq 0 m) <$> seq 0 n.
Proof.
  intros [Hn Hm]. rewrite (list_total_eta W n Hn) at 1.
  apply list_fmap_ext. intros i a [-> Ha]%lookup_seq. simpl.
  apply list_total_eta. apply Hm. apply list_elem_of_lookup. exists i.
  apply list_lookup_lookup_total_lt. lia.
Qed.

Lemma ginv_block_seq n (M : list (list R)) :
  ginv_block n M =
    (λ a, (λ b, [(M !!! (0 + a * 2)) !!! (0 + b * 2);
                 (M !!! (1 + a * 2)) !!! (0 + b * 2)]) <$> seq 0 n) <$> seq 0 n.
Proof.
  unfold ginv_block, submatrix. cbv zeta.
  rewrite (replicate_seq n (replicate n _)), (replicate_seq n (replicate 2 _)).
  rewrite <- !list_fmap_compose.
  assert (Hsub : ∀ s t : nat,
    ((λ i, (λ j, (M !!! i) !!! j) <$> ((λ k, t + k * 2) <$> seq 0 n)) ∘
       (λ k, s + k * 2)) <$> seq 0 n =
    (λ a, (λ b, (M !!! (s + a * 2)) !!! (t + b * 2)) <$> seq 0 n) <$> seq 0 n).
  { intros s t. apply list_fmap_ext. intros i a _. simpl.
    by rewrite <- list_fmap_compose. }
  rewrite !Hsub. by rewrite !bzip_seq2.
Qed.

(** Decoding the block of [g] gives the item back. *)
Lemma ginv_block_g_block n (W : list (list (list R))) :
  has_dims n n W →
  (∀ row cell, row ∈ W → cell ∈ row → length cell = 2) →
  ginv_block n (g_block n W) = W.
Proof.
  intros HW Hcell. rewrite ginv_block_seq.
  etrans; [|symmetry; apply (matrix_total_eta n n W HW)].
  apply list_fmap_ext. intros a ? [-> Ha]%lookup_seq.
  apply list_fmap_ext. intros b ? [-> Hb]%lookup_seq. simpl.
  destruct (g_block_cells n W a b HW Ha Hb) as (E1 & _ & _ & E4).
  rewrite !(Nat.mul_comm 2) in E1, E4.
  rewrite (Nat.add_comm _ 1) in E4.
  rewrite (mlookup_total _ _ _ _ E1), (mlookup_total _ _ _ _ E4).
  assert (length ((W !!! a) !!! b) = 2) as Hlen.
  { destruct HW as [Hn Hm].
    assert (W !! a = Some (W !!! a)) as Hrow
      by (apply list_lookup_lookup_total_lt; lia).
    apply (Hcell (W !!! a)); [by eapply list_elem_of_lookup_2|].
    apply list_elem_of_lookup. exists b.
    apply list_lookup_lookup_total_lt.
    rewrite (Hm (W !!! a)); [done|]. by eapply list_elem_of_lookup_2. }
  by destruct ((W !!! a) !!! b) as [|x [|y [|]]].
Qed.

Lemma wf5_items (w : tensor5 R) B K n m d :
  shape5 w = (B, K, n, m, d) → wf5 w = true →
  has_dims B K (data5 w) ∧
  ∀ xs W, xs ∈ data5 w → W ∈ xs →
    has_dims n m W ∧ ∀ row cell, row ∈ W → cell ∈ row → length cell = d.
Proof.
  unfold wf5. intros -> [HB Hall]%shaped_spec. split; [split; [done|]|].
  - intros xs Hxs. by apply Hall, shaped_spec in Hxs as [? _].
  - intros xs W Hxs HW.
    apply Hall, shaped_spec in Hxs as [_ Hxs].
    apply Hxs, shaped_spec in HW as [Hn HW]. split; [split; [done|]|].
    + intros row Hrow. by apply HW, shaped_spec in Hrow as [? _].
    + intros row cell Hrow Hc.
      apply HW, shaped_spec in Hrow as [_ Hrow].
      by apply Hrow, shaped1_spec in Hc.
Qed.

(** C1: for every complex matrix batch [w] of shape [(B, K, C, C, 2)],
    encoding with [g] and decoding with [ginv] gives [w] back, every
    real and imaginary entry unchanged. *)
Theorem ginv_g_round_trip (w : tensor5 R) (B K C : nat) :
  shape5 w = (B, K, C, C, 2) → wf5 w = true →
  ∃ m, g w = Ok m ∧ shape4 m = (B, K, 2 * C, 2 * C) ∧ ginv m = Ok w.
Proof.
  intros Hs Hwf.
  destruct (wf5_items w B K C C 2 Hs Hwf) as [HX Hitems].
  rewrite (g_eval w B K C C 2) by (done || lia).
  eexists. split; [done|]. split; [done|].
  rewrite ginv_eval by done. f_equal.
  destruct w as [sh X]. simpl in *. subst sh. f_equal.
  rewrite <- (list_fmap_id X) at 2. unfold bmap.
  apply list_fmap_ext. intros i xs Hxs%list_elem_of_lookup_2.
  rewrite <- (list_fmap_id xs) at 2.
  apply list_fmap_ext. intros j W HW%list_elem_of_lookup_2. simpl.
  destruct (Hitems xs W Hxs HW) as [Hd Hc].
  by apply ginv_block_g_block.
Qed.
End GRoundTrip.

(** A [2 × 2] complex matrix [[1 + 2i, 3 + 4i], [5 + 6i, 7 + 8i]]. *)
Definition complex_example : tensor5 Z :=
  T5 (1, 1, 2, 2, 2) [[[[[1; 2]; [3; 4]]; [[5; 6]; [7; 8]]]]]%Z.

Lemma ginv_g_round_trip_witness :
  shape5 complex_example = (1, 1, 2, 2, 2) ∧ wf5 complex_example = true ∧
  ∃ m, g complex_example = Ok m ∧ shape4 m = (1, 1, 2 * 2, 2 * 2) ∧
       ginv m = Ok complex_example.
Proof.
  split; [reflexivity|]. split; [reflexivity|].
  apply (ginv_g_round_trip complex_example 1 1 2); reflexivity.
Defined.

(** ** The solver [EigenH.forward]

    The dense linear algebra routines are external: the solver is
    modelled over any implementation of them.

    A tensor has a dtype and a device besides its entries.  The codecs
    create their results with the dtype and the device of their argument
    ([dtype=ws.dtype, device=ws.device]), and so do the external
    routines; [torch.eye] and [torch.zeros] without these arguments use
    the defaults of the session; a product of two tensors that differ in
    dtype or device is refused. *)

Inductive dtype := Float16 | Float32 | Float64.
Inductive device := Cpu | Cuda (index : nat).
Definition meta : Type := dtype * device.

#[export] Instance dtype_eq_dec : EqDecision dtype.
Proof. solve_decision. Defined.
#[export] Instance device_eq_dec : EqDecision device.
Proof. solve_decision. Defined.

(** A value with its dtype and device. *)
Record tagged (A : Type) := Tagged { meta_of : meta; value_of : A }.
Arguments Tagged {A} meta_of value_of.
Arguments meta_of {A} t.
Arguments value_of {A} t.

Class LinAlg (R : Type) := {
  (** the dtype and the device of [torch.eye(n)] and [torch.zeros(s)] *)
  default_meta : meta;
  cholesky : tensor4 R → result (tensor4 R);
  inverse : tensor4 R → result (tensor4 R);
  matmul : tensor4 R → tensor4 R → result (tensor4 R);
  symeig : tensor4 R → result (tensor3 R * tensor4 R);
}.

(** A routine that keeps the dtype and the device of its argument. *)
Definition keep_meta {A B} (h : A → result B) (x : tagged A) :
    result (tagged B) :=
  y ← h (value_of x); Ok (Tagged (meta_of x) y).

(** [torch.stack(l, 0)] of a list of equally shaped items: the list
    becomes the new leading axis; an empty list is refused. *)
Definition stack0 {A} (l : list A) : result (list A) :=
  match l with
  | [] => Err EmptyStack
  | _ => Ok l
  end.

Section Forward.
Context `{Scalar R, LinAlg R}.

(** [torch.eye(n)] and [torch.zeros((n, m))] *)
Definition eye (n : nat) : list (list R) :=
  (λ i, (λ j, if i =? j then one else zero) <$> seq 0 n) <$> seq 0 n.
Definition zeros2 (n m : nat) : list (list R) := replicate n (replicate m zero).

(** [torch.stack((x, y), -1)] of two matrices of the same dimensions. *)
Definition stack_last (x y : list (list R)) : list (list (list R)) :=
  zip_with (zip_with (λ u v, [u; v])) x y.

(** [torch.matmul(x, y)]: the operands must agree in dtype and device. *)
Definition matmul_meta (x y : tagged (tensor4 R)) : result (tagged (tensor4 R)) :=
  _ ← guard_or MetaMismatch (bool_decide (meta_of x = meta_of y));
  z ← matmul (value_of x) (value_of y);
  Ok (Tagged (meta_of x) z).

(** The block form [B_h] of the reference matrix: the identity through
    [g] when [b] is absent, built with the default dtype on the default
    device whatever those of [a] are, and [f b] otherwise. *)
Definition reference_block (a : tagged (tensor5 R))
    (b : option (tagged (tensor5 R))) : result (tagged (tensor4 R)) :=
  let '(batch, _, n_fft, _, p) := shape5 (value_of a) in
  let n_channels := channels_of p in
  match b with
  | None =>
      let b := stack_last (eye n_channels) (zeros2 n_channels n_channels) in
      b ← stack0 (replicate n_fft b);
      b ← stack0 (replicate batch b);
      keep_meta g
        (Tagged default_meta (T5 (batch, n_fft, n_channels, n_channels, 2) b))
  | Some b => keep_meta f b
  end.

(** The whitened matrix [C_h = L⁻¹ A_h (L⁻¹)ᵗ], with [(L⁻¹)ᵗ]. *)
Definition whitened (a : tagged (tensor5 R)) (b : option (tagged (tensor5 R))) :
    result (tagged (tensor4 R) * tagged (tensor4 R)) :=
  ash ← keep_meta f a;
  bsh ← reference_block a b;
  lsh ← keep_meta cholesky bsh;
  lsh_inv ← keep_meta inverse lsh;
  let lsh_inv_T := Tagged (meta_of lsh_inv) (transpose23 (value_of lsh_inv)) in
  t ← matmul_meta ash lsh_inv_T;
  csh ← matmul_meta lsh_inv t;
  Ok (csh, lsh_inv_T).

Definition forward (a : tagged (tensor5 R)) (b : option (tagged (tensor5 R))) :
    result (tagged (tensor5 R) * tagged (tensor5 R)) :=
  let '(batch, _, n_fft, _, p) := shape5 (value_of a) in
  let n_channels := channels_of p in
  cl ← whitened a b;
  ey ← symeig (value_of cl.1);
  let m := meta_of cl.1 in
  let dsh := zeros4 batch n_fft (2 * n_channels) (2 * n_channels) in
  dsh ← index_put4 dsh (seq 0 (2 * n_channels)) (seq 0 (2 * n_channels)) ey.1;
  vsh ← matmul_meta cl.2 (Tagged m (transpose23 ey.2));
  vs ← keep_meta ginv vsh;
  ds ← ginv dsh;
  Ok (vs, Tagged m ds).

(** The packed Hermitian encoding of the identity matrix for every
    [(batch, bin)]: real part one on the diagonal positions of the
    packing and zero elsewhere, imaginary part zero. *)
Definition identity_packed (B K C : nat) : tensor5 R :=
  T5 (B, 1, K, 2, tri C)
     (replicate B
        [replicate K
           [(λ ij : nat * nat, if ij.1 =? ij.2 then one else zero) <$> triu_pairs C C;
            replicate (tri C) zero]]).
End Forward.

(** ** The default reference matrix *)

Section Identity.
Context `{Scalar R}.

Lemma seq2_dims {A} (F : nat → nat → A) n m :
  has_dims n m ((λ a, (λ b, F a b) <$> seq 0 m) <$> seq 0 n).
Proof.
  split; [by rewrite length_fmap, length_seq|].
  intros row (a & -> & _)%list_elem_of_fmap. by rewrite length_fmap, length_seq.
Qed.

Lemma seq2_lookup_total `{Inhabited A} (F : nat → nat → A) n m a b :
  a < n → b < m →
  (((λ a, (λ b, F a b) <$> seq 0 m) <$> seq 0 n) !!! a) !!! b = F a b.
Proof.
  intros Ha Hb.
  erewrite (list_lookup_total_correct _ a); last first.
  { rewrite list_lookup_fmap, lookup_seq_lt by done. done. }
  apply list_lookup_total_correct.
  rewrite list_lookup_fmap, lookup_seq_lt by done. done.
Qed.

Definition identity_item (n : nat) : list (list (list R)) :=
  stack_last (eye n) (zeros2 n n).

Lemma identity_item_seq n :
  identity_item n =
    (λ a, (λ b, [if a =? b then one else zero; zero]) <$> seq 0 n) <$> seq 0 n.
Proof.
  unfold identity_item, stack_last, eye, zeros2.
  rewrite (replicate_seq n (replicate n _)), (replicate_seq n zero).
  rewrite zip_with_fmap_l, zip_with_fmap_r, zip_with_diag.
  apply list_fmap_ext. intros i a _.
  by rewrite zip_with_fmap_l, zip_with_fmap_r, zip_with_diag.
Qed.

Lemma identity_item_lookup n a b :
  a < n → b < n →
  (identity_item n !!! a) !!! b = [if a =? b then one else zero; zero].
Proof.
  intros Ha Hb. rewrite identity_item_seq.
  by rewrite (seq2_lookup_total (λ a b, [if a =? b then one else zero; zero])).
Qed.

Definition identity_re (n : nat) : list R :=
  (λ ij : nat * nat, if ij.1 =? ij.2 then one else zero) <$> triu_pairs n n.
Definition identity_im (n : nat) : list R := replicate (tri n) zero.

Lemma g_block_identity n r c :
  r < 2 * n → c < 2 * n →
  mlookup (g_block n (identity_item n)) r c = Some (if r =? c then one else zero).
Proof.
  intros Hr Hc.
  pose proof (Nat.div_mod r 2 ltac:(done)) as Hr2.
  pose proof (Nat.div_mod c 2 ltac:(done)) as Hc2.
  pose proof (Nat.mod_upper_bound r 2 ltac:(done)).
  pose proof (Nat.mod_upper_bound c 2 ltac:(done)).
  assert (Ha : r / 2 < n) by (apply Nat.Div0.div_lt_upper_bound; lia).
  assert (Hb : c / 2 < n) by (apply Nat.Div0.div_lt_upper_bound; lia).
  assert (HW : has_dims n n (identity_item n)).
  { rewrite identity_item_seq. apply seq2_dims. }
  destruct (g_block_cells n _ _ _ HW Ha Hb) as (E1 & E2 & E3 & E4).
  cbv zeta in *.
  rewrite identity_item_lookup in E1, E2, E3, E4 by done.
  change ([?x; ?y] !!! 0) with x in *. change ([?x; ?y] !!! 1) with y in *.
  rewrite neg_zero in E3.
  set (a := r / 2) in *. set (b := c / 2) in *. rewrite Hr2, Hc2.
  destruct (r mod 2) as [|[|]], (c mod 2) as [|[|]]; try lia;
    rewrite ?Nat.add_0_r.
  - rewrite E1. f_equal.
    destruct (Nat.eqb_spec a b), (Nat.eqb_spec (2 * a) (2 * b)); done || lia.
  - rewrite E3. f_equal.
    destruct (Nat.eqb_spec (2 * a) (2 * b + 1)); done || lia.
  - rewrite E4. f_equal.
    destruct (Nat.eqb_spec (2 * a + 1) (2 * b)); done || lia.
  - rewrite E2. f_equal.
    destruct (Nat.eqb_spec a b), (Nat.eqb_spec (2 * a + 1) (2 * b + 1)); done || lia.
Qed.

Lemma f_block_identity_le n a b s t :
  a ≤ b → b < n → s < 2 → t < 2 →
  mlookup (f_block n (identity_re n) (identity_im n)) (2 * a + s) (2 * b + t) =
    Some (if 2 * a + s =? 2 * b + t then one else zero) ∧
  mlookup (f_block n (identity_re n) (identity_im n)) (2 * b + t) (2 * a + s) =
    Some (if 2 * a + s =? 2 * b + t then one else zero).
Proof.
  intros Hab Hb Hs Ht.
  destruct (triu_lookup_of_le n a b) as (p & Hp & Hlt); [done..|].
  assert (Hre : length (identity_re n) = tri n).
  { unfold identity_re. by rewrite length_fmap, length_triu_pairs. }
  assert (Him : length (identity_im n) = tri n).
  { unfold identity_im. by rewrite length_replicate. }
  assert (Hr : identity_re n !! p = Some (if a =? b then one else zero)).
  { unfold identity_re. by rewrite list_lookup_fmap, Hp. }
  assert (Hx : identity_im n !! p = Some zero).
  { unfold identity_im. by rewrite lookup_replicate_2. }
  destruct (f_block_cells n _ _ p a b _ _ Hre Him Hp Hr Hx)
    as (E1 & E2 & E3 & E4 & E5 & E6 & E7).
  destruct s as [|[|]], t as [|[|]]; try lia; rewrite ?Nat.add_0_r.
  - rewrite E1, E2.
    destruct (Nat.eqb_spec a b), (Nat.eqb_spec (2 * a) (2 * b)); done || lia.
  - destruct (Nat.eqb_spec (2 * a) (2 * b + 1)); [lia|].
    destruct (decide (a = b)) as [->|Hne].
    + by rewrite E5, E6.
    + destruct E7 as [E7 E8]; [lia|]. by rewrite E7, E8, neg_zero.
  - destruct (Nat.eqb_spec (2 * a + 1) (2 * b)); [lia|]. by rewrite E5, E6.
  - rewrite E3, E4.
    destruct (Nat.eqb_spec a b), (Nat.eqb_spec (2 * a + 1) (2 * b + 1)); done || lia.
Qed.

Lemma f_block_identity n r c :
  r < 2 * n → c < 2 * n →
  mlookup (f_block n (identity_re n) (identity_im n)) r c =
    Some (if r =? c then one else zero).
Proof.
  intros Hr Hc.
  pose proof (Nat.div_mod r 2 ltac:(done)) as Hr2.
  pose proof (Nat.div_mod c 2 ltac:(done)) as Hc2.
  pose proof (Nat.mod_upper_bound r 2 ltac:(done)).
  pose proof (Nat.mod_upper_bound c 2 ltac:(done)).
  assert (Ha : r / 2 < n) by (apply Nat.Div0.div_lt_upper_bound; lia).
  assert (Hb : c / 2 < n) by (apply Nat.Div0.div_lt_upper_bound; lia).
  rewrite Hr2, Hc2.
  destruct (decide (r / 2 ≤ c / 2)).
  - by apply f_block_identity_le.
  - rewrite (Nat.eqb_sym (2 * (r / 2) + r mod 2)).
    apply f_block_identity_le; lia.
Qed.

(** The identity encoded by [g] and the packed identity encoded by [f]
    are the same block. *)
Lemma identity_blocks_agree n :
  g_block n (identity_item n) = f_block n (identity_re n) (identity_im n).
Proof.
  apply (matrix_eq (2 * n) (2 * n)); [apply g_block_dims|apply f_block_dims|].
  intros r c Hr Hc. by rewrite g_block_identity, f_block_identity.
Qed.
End Identity.

(** ** Properties of [forward] *)

Section ForwardProps.
Context `{Scalar R, LinAlg R}.

Lemma stack0_replicate {A} n (x : A) : 0 < n → stack0 (replicate n x) = Ok (replicate n x).
Proof. destruct n; [lia|done]. Qed.

Lemma bmap_replicate {A B} (F : A → B) n m x :
  bmap F (replicate n (replicate m x)) = replicate n (replicate m (F x)).
Proof. unfold bmap. by rewrite !fmap_replicate. Qed.

Lemma replicate_dims {A} n m (x : A) : has_dims n m (replicate n (replicate m x)).
Proof.
  split; [by rewrite length_replicate|].
  intros row [-> _]%elem_of_replicate. by rewrite length_replicate.
Qed.

Lemma identity_packed_wf B K C : wf5 (identity_packed B K C) = true.
Proof.
  unfold wf5, identity_packed. simpl.
  apply shaped_spec. split; [by rewrite length_replicate|].
  intros xb [-> _]%elem_of_replicate.
  apply shaped_spec. split; [done|].
  intros xk ->%list_elem_of_singleton.
  apply shaped_spec. split; [by rewrite length_replicate|].
  intros cell [-> _]%elem_of_replicate.
  apply shaped_spec. split; [done|].
  intros row Hrow. apply shaped1_spec.
  apply elem_of_cons in Hrow as [->|Hrow%list_elem_of_singleton].
  - by rewrite length_fmap, length_triu_pairs.
  - subst row. by rewrite length_replicate.
Qed.

Lemma f_identity_packed B K C :
  f (identity_packed B K C) =
    Ok (T4 (B, K, 2 * C, 2 * C)
          (replicate B (replicate K (f_block C (identity_re C) (identity_im C))))).
Proof.
  rewrite (f_eval _ B K (tri C)); [|done|apply identity_packed_wf|].
  - rewrite channels_of_tri. do 2 f_equal.
    unfold packed_cells, identity_packed. simpl.
    rewrite fmap_replicate. simpl. rewrite app_nil_r.
    by rewrite bmap_replicate.
  - by rewrite channels_of_tri.
Qed.

Lemma eye_lookup n r c :
  r < n → c < n → mlookup (eye n) r c = Some (if r =? c then one else zero).
Proof.
  intros Hr Hc. unfold mlookup, eye.
  rewrite list_lookup_fmap, lookup_seq_lt by done. simpl.
  by rewrite list_lookup_fmap, lookup_seq_lt.
Qed.

Lemma g_block_identity_eye n : g_block n (identity_item n) = eye (2 * n).
Proof.
  apply (matrix_eq (2 * n) (2 * n));
    [apply g_block_dims|apply (seq2_dims (λ i j, if i =? j then one else zero))|].
  intros r c Hr Hc. by rewrite g_block_identity, eye_lookup.
Qed.

(** The identity block of size [2C] for every batch item and bin. *)
Definition identity_block (B K C : nat) : tensor4 R :=
  T4 (B, K, 2 * C, 2 * C) (replicate B (replicate K (eye (2 * C)))).

(** With [b] absent and a non-empty batch, the reference block is the
    identity block, in the default dtype on the default device. *)
Lemma reference_block_none (a : tensor5 R) (ma : meta) B O K d P :
  shape5 a = (B, O, K, d, P) → 0 < B → 0 < K →
  reference_block (Tagged ma a) None =
    Ok (Tagged default_meta (identity_block B K (channels_of P))).
Proof.
  intros Hs HB HK. unfold reference_block. cbn [value_of]. rewrite Hs.
  rewrite stack0_replicate by done. cbn [mbind result_bind].
  rewrite stack0_replicate by done. cbn [mbind result_bind].
  unfold keep_meta. cbn [value_of meta_of].
  rewrite (g_eval _ B K (channels_of P) (channels_of P) 2);
    [|done|done|lia|apply replicate_dims].
  cbn [mbind result_bind data5]. rewrite bmap_replicate.
  unfold identity_block. do 5 f_equal. apply g_block_identity_eye.
Qed.

Lemma f_identity_packed_block B K C :
  f (identity_packed B K C) = Ok (identity_block B K C).
Proof.
  rewrite f_identity_packed. unfold identity_block. do 4 f_equal.
  rewrite <- identity_blocks_agree. apply g_block_identity_eye.
Qed.

Lemma reference_block_default (a : tensor5 R) (ma : meta) B K C :
  shape5 a = (B, 1, K, 2, tri C) → 0 < B → 0 < K →
  reference_block (Tagged ma a) None =
    reference_block (Tagged ma a)
      (Some (Tagged default_meta (identity_packed B K C))).
Proof.
  intros Hs HB HK. rewrite (reference_block_none a ma B 1 K 2 (tri C)) by done.
  rewrite channels_of_tri. unfold reference_block. cbn [value_of]. rewrite Hs.
  unfold keep_meta. cbn [value_of meta_of].
  by rewrite f_identity_packed_block.
Qed.

(** With [b] absent, [forward] returns what it returns with [b] the
    packed identity in the default dtype on the default device, when
    there is at least one batch item and one bin. *)
Lemma forward_default_b (a : tensor5 R) (ma : meta) (B K C : nat) :
  shape5 a = (B, 1, K, 2, tri C) → 0 < B → 0 < K →
  forward (Tagged ma a) None =
    forward (Tagged ma a) (Some (Tagged default_meta (identity_packed B K C))).
Proof.
  intros Hs HB HK.
  pose proof (reference_block_default a ma B K C Hs HB HK) as Href.
  unfold forward, whitened. by rewrite Href.
Qed.

(** The result of [forward] with another dtype and device. *)
Definition with_meta (m : meta)
    (r : result (tagged (tensor5 R) * tagged (tensor5 R))) :
    result (tagged (tensor5 R) * tagged (tensor5 R)) :=
  p ← r; Ok (Tagged m (value_of p.1), Tagged m (value_of p.2)).

Lemma matmul_meta_same m (x y : tensor4 R) :
  matmul_meta (Tagged m x) (Tagged m y) = (z ← matmul x y; Ok (Tagged m z)).
Proof.
  unfold matmul_meta. cbn [meta_of value_of].
  by rewrite bool_decide_eq_true_2.
Qed.

Lemma matmul_meta_differ m m' (x y : tensor4 R) :
  m ≠ m' → matmul_meta (Tagged m x) (Tagged m' y) = Err MetaMismatch.
Proof.
  intros Hne. unfold matmul_meta. cbn [meta_of value_of].
  by rewrite bool_decide_eq_false_2.
Qed.

(** When [a] and [b] agree in dtype and device, the entries [forward]
    returns do not depend on them. *)
Lemma forward_same_meta (a b : tensor5 R) (m m' : meta) :
  forward (Tagged m a) (Some (Tagged m b)) =
    with_meta m (forward (Tagged m' a) (Some (Tagged m' b))).
Proof.
  unfold with_meta, forward, whitened, reference_block, keep_meta.
  cbn [value_of meta_of].
  destruct (shape5 a) as [[[[batch o] n_fft] d] p].
  destruct (f a) as [ash|]; [|done]. cbn [mbind result_bind value_of meta_of].
  destruct (f b) as [bsh|]; [|done]. cbn [mbind result_bind value_of meta_of].
  destruct (cholesky bsh) as [lsh|]; [|done].
  cbn [mbind result_bind value_of meta_of].
  destruct (inverse lsh) as [lsh_inv|]; [|done].
  cbn [mbind result_bind value_of meta_of].
  rewrite !matmul_meta_same.
  destruct (matmul ash _) as [t|]; [|done].
  cbn [mbind result_bind value_of meta_of]. rewrite !matmul_meta_same.
  destruct (matmul lsh_inv t) as [csh|]; [|done].
  cbn [mbind result_bind value_of meta_of fst snd].
  destruct (symeig csh) as [[es ysh]|]; [|done].
  cbn [mbind result_bind value_of meta_of fst snd].
  destruct (index_put4 _ _ _ es) as [dsh|]; [|done].
  cbn [mbind result_bind]. rewrite !matmul_meta_same.
  destruct (matmul _ _) as [vsh|]; [|done].
  cbn [mbind result_bind value_of meta_of].
  destruct (ginv vsh) as [vs|]; [|done]. cbn [mbind result_bind].
  by destruct (ginv dsh) as [ds|].
Qed.

(** C2: the default [b] is not the identity in the dtype and on the
    device of [a].  For a well-formed input with at least one batch item
    and one bin whose dtype or device is not the default one, [forward]
    with [b] absent is refused by the first matrix product, where the
    block of [a] meets the inverse Cholesky factor of the default
    identity; with [b] the packed identity in the dtype and on the
    device of [a] it returns what the default call returns on the same
    entries in the default dtype. *)
Theorem forward_default_b_meta_mismatch (a : tensor5 R) (ma : meta)
    (B K C : nat) (l li : tensor4 R) :
  shape5 a = (B, 1, K, 2, tri C) → wf5 a = true → 0 < B → 0 < K →
  ma ≠ default_meta →
  cholesky (identity_block B K C) = Ok l → inverse l = Ok li →
  forward (Tagged ma a) None = Err MetaMismatch ∧
  forward (Tagged ma a) (Some (Tagged ma (identity_packed B K C))) =
    with_meta ma (forward (Tagged default_meta a) None).
Proof.
  intros Hs Hwf HB HK Hne Hl Hli. split.
  - pose proof (f_eval a B K (tri C) Hs Hwf) as Hf.
    rewrite channels_of_tri in Hf. specialize (Hf eq_refl).
    unfold forward, whitened. cbn [value_of].
    rewrite (reference_block_none a ma B 1 K 2 (tri C)) by done.
    rewrite Hs, channels_of_tri. unfold keep_meta. cbn [value_of meta_of].
    rewrite Hf. cbn [mbind result_bind value_of meta_of].
    rewrite Hl. cbn [mbind result_bind value_of meta_of].
    rewrite Hli. cbn [mbind result_bind value_of meta_of].
    by rewrite (matmul_meta_differ ma default_meta).
  - rewrite (forward_default_b a default_meta B K C) by done.
    apply forward_same_meta.
Qed.

(** C6, amended: when the packed length [P >= 1] is not triangular, [f]
    and [forward] fail in the first indexed assignment of [f], whose
    value of length [P] cannot be broadcast to the [C (C + 1) / 2] index
    positions of the rounded channel count [C]; [P] itself is never
    validated. *)
Theorem f_forward_reject_nontriangular (a : tensor5 R) (ma : meta)
    (B K P : nat) :
  shape5 a = (B, 1, K, 2, P) → 0 < P → (∀ C, 0 < C → P ≠ tri C) →
  f a = Err ShapeMismatch ∧ ∀ b, forward (Tagged ma a) b = Err ShapeMismatch.
Proof.
  intros Hs HP Hnt.
  assert (Hf : f a = Err ShapeMismatch).
  { apply (f_mismatch a B K 2 P); [done|lia|].
    intros Heq. destruct (channels_of P) as [|C] eqn:HC.
    - unfold tri in Heq. simpl in Heq. lia.
    - apply (Hnt (S C)); [lia|done]. }
  split; [done|]. intros b. unfold forward, whitened, keep_meta.
  cbn [value_of]. rewrite Hs, Hf. done.
Qed.
End ForwardProps.

(** ** The eigenvalue matrix *)

Section Eigenvalues.
Context `{Scalar R, LinAlg R}.

(** [es[b, k, d]] *)
Definition at3 (t : tensor3 R) (b k d : nat) : option R :=
  mlookup (data3 t) b k ≫= λ l, l !! d.

(** The assignment [dsh[..., range(0, N), range(0, N)] = es] on one item. *)
Definition diag_block (N : nat) (vals : list R) : list (list R) :=
  scatter (replicate N (replicate N zero))
    (zip (zip (seq 0 N) (seq 0 N)) (expand (length (seq 0 N)) vals)).

Lemma diag_block_lookup N vals r c :
  length vals = N → r < N → c < N →
  mlookup (diag_block N vals) r c =
    if decide (r = c) then vals !! r else Some zero.
Proof.
  intros Hlen Hr Hc. unfold diag_block.
  rewrite length_seq, expand_id by done.
  replace (zip (seq 0 N) (seq 0 N))
    with (id <$> ((λ d, (d, d)) <$> seq 0 N)); last first.
  { rewrite list_fmap_id.
    pose proof (zip_fmap_diag (@id nat) (@id nat) (seq 0 N)) as Hz.
    rewrite !list_fmap_id in Hz. by rewrite Hz. }
  case_decide as Hrc.
  - subst c. destruct (lookup_lt_is_Some_2 vals r) as [v Hv]; [lia|].
    rewrite Hv.
    eapply (step_in id _ _ _ r (r, r)); try done.
    + apply _.
    + apply NoDup_fmap_2; [|apply NoDup_seq]. intros ?? [=]. done.
    + by rewrite length_fmap, length_seq.
    + by rewrite list_lookup_fmap, lookup_seq_lt.
    + by apply zeros_is_Some.
  - rewrite step_out; [by apply mlookup_zeros|].
    intros [d d'] (d0 & [= -> ->] & _)%list_elem_of_fmap. simpl.
    intros [=]. lia.
Qed.

Lemma seq2_mlookup {A} (F : nat → nat → A) n m a b :
  a < n → b < m →
  mlookup ((λ a, (λ b, F a b) <$> seq 0 m) <$> seq 0 n) a b = Some (F a b).
Proof.
  intros Ha Hb. unfold mlookup.
  rewrite list_lookup_fmap, lookup_seq_lt by done. simpl.
  by rewrite list_lookup_fmap, lookup_seq_lt.
Qed.

Lemma wf3_items (t : tensor3 R) B K N :
  shape3 t = (B, K, N) → wf3 t = true →
  has_dims B K (data3 t) ∧ ∀ xs l, xs ∈ data3 t → l ∈ xs → length l = N.
Proof.
  unfold wf3. intros -> [HB Hall]%shaped_spec. split; [split; [done|]|].
  - intros xs Hxs. by apply Hall, shaped_spec in Hxs as [? _].
  - intros xs l Hxs Hl.
    apply Hall, shaped_spec in Hxs as [_ Hxs].
    by apply Hxs, shaped1_spec in Hl.
Qed.

(** The decoded eigenvalue matrix, from the eigenvalue tensor [es]. *)
Lemma eigenvalue_matrix_eval (es : tensor3 R) B K C :
  shape3 es = (B, K, 2 * C) → wf3 es = true →
  (dsh ← index_put4 (zeros4 B K (2 * C) (2 * C)) (seq 0 (2 * C))
           (seq 0 (2 * C)) es;
   ginv dsh) =
  Ok (T5 (B, K, C, C, 2)
        (bmap (λ vals, ginv_block C (diag_block (2 * C) vals)) (data3 es))).
Proof.
  intros Hs Hwf. destruct (wf3_items es B K (2 * C) Hs Hwf) as [HD Hlen].
  destruct es as [sh D]. cbn [shape3 data3] in *. subst sh.
  unfold zeros4. rewrite (replicate_bmap B K _ D) by done.
  replace D with (bmap id D) at 2
    by (unfold bmap; rewrite <- (list_fmap_id D) at 2;
        apply list_fmap_ext; intros; apply list_fmap_id).
  rewrite index_put4_bmap; [|done|intros ? ?%elem_of_seq; lia..|by rewrite length_seq].
  cbn [mbind result_bind].
  by rewrite ginv_eval.
Qed.

Lemma eigenvalue_matrix_cells C vals i j :
  length vals = 2 * C → i < C → j < C →
  mlookup (ginv_block C (diag_block (2 * C) vals)) i j =
    Some [if decide (i = j) then vals !!! (2 * i) else zero; zero].
Proof.
  intros Hlen Hi Hj. rewrite ginv_block_seq.
  rewrite (seq2_mlookup (λ a b, [_; _])) by done.
  f_equal. f_equal; [|f_equal].
  - erewrite mlookup_total; [done|].
    rewrite diag_block_lookup by (done || lia).
    repeat case_decide; try lia; [|done].
    rewrite list_lookup_lookup_total_lt by lia.
    do 2 f_equal. lia.
  - apply mlookup_total.
    rewrite diag_block_lookup by (done || lia).
    case_decide; [lia|done].
Qed.

(** C9: when [forward] succeeds on a packed input of shape
    [(B, 1, K, 2, P)], [P] triangular, and the eigensolver returned a
    well-formed eigenvalue tensor [es] of shape [(B, K, 2C)], the
    eigenvalue matrix [ds] has zero imaginary part everywhere, zero real
    part off the diagonal, and [es[2i]] at the diagonal entry [i],
    whatever the values of [es]. *)
Theorem forward_eigenvalue_matrix (a : tagged (tensor5 R))
    (b : option (tagged (tensor5 R))) (vs ds : tagged (tensor5 R))
    (B K C : nat) :
  shape5 (value_of a) = (B, 1, K, 2, tri C) →
  forward a b = Ok (vs, ds) →
  (∀ cl ey, whitened a b = Ok cl → symeig (value_of cl.1) = Ok ey →
     shape3 ey.1 = (B, K, 2 * C) ∧ wf3 ey.1 = true) →
  ∃ cl es ysh,
    whitened a b = Ok cl ∧ symeig (value_of cl.1) = Ok (es, ysh) ∧
    shape5 (value_of ds) = (B, K, C, C, 2) ∧
    ∀ n k i j, n < B → k < K → i < C → j < C →
      at5 (value_of ds) n k i j 1 = Some zero ∧
      (i ≠ j → at5 (value_of ds) n k i j 0 = Some zero) ∧
      at5 (value_of ds) n k i i 0 = at3 es n k (2 * i).
Proof.
  intros Hs Hfw Hes. unfold forward in Hfw. rewrite Hs, channels_of_tri in Hfw.
  destruct (whitened a b) as [cl|] eqn:Hcl; [|done].
  cbn [mbind result_bind] in Hfw.
  destruct (symeig (value_of cl.1)) as [[es ysh]|] eqn:Hey; [|done].
  cbn [mbind result_bind fst snd] in Hfw.
  destruct (Hes cl (es, ysh) eq_refl Hey) as [Hshape Hwf]. simpl in Hshape, Hwf.
  pose proof (eigenvalue_matrix_eval es B K C Hshape Hwf) as Hds.
  destruct (index_put4 _ _ _ es) as [dsh|] eqn:Hput; [|done].
  cbn [mbind result_bind] in Hfw, Hds.
  destruct (matmul_meta _ _) as [vsh|]; [|done]. cbn [mbind result_bind] in Hfw.
  destruct (keep_meta ginv vsh) as [vs'|]; [|done].
  cbn [mbind result_bind] in Hfw.
  rewrite Hds in Hfw. cbn [mbind result_bind] in Hfw.
  injection Hfw as _ <-. cbn [value_of].
  exists cl, es, ysh. split; [done|]. split; [done|]. split; [done|].
  intros n k i j Hn Hk Hi Hj.
  destruct (wf3_items es B K (2 * C) Hshape Hwf) as [HD Hlen].
  destruct (has_dims_lookup B K (data3 es) n k HD Hn Hk) as [vals Hvals].
  assert (length vals = 2 * C) as Hvl.
  { unfold mlookup in Hvals.
    destruct (data3 es !! n) as [xs|] eqn:Hxs; simpl in Hvals; [|done].
    eapply Hlen; by eapply list_elem_of_lookup_2. }
  unfold at5, at3. simpl. rewrite mlookup_bmap, Hvals. simpl.
  rewrite !eigenvalue_matrix_cells by done. simpl.
  split; [done|]. split.
  - intros Hne. by case_decide.
  - case_decide; [|done]. symmetry.
    apply list_lookup_lookup_total_lt. lia.
Qed.
End Eigenvalues.

(** ** Concrete runs of the solver *)

(** A stand-in for the external routines, exact when the reference
    matrix is the identity (its Cholesky factor and its inverse are the
    identity) and the whitened matrix is diagonal with an ascending
    diagonal (its eigenvalues are the diagonal, its eigenvectors the
    identity).  It serves the concrete runs below; the theorems above
    hold for every implementation. *)
Definition matmul_item (X Y : list (list Z)) : list (list Z) :=
  (λ row : list Z,
     (λ j, foldr Z.add 0%Z (zip_with Z.mul row ((λ r : list Z, r !!! j) <$> Y)))
       <$> seq 0 (length (Y !!! 0))) <$> X.

Definition diagonal_of (m : tensor4 Z) : tensor3 Z :=
  let '(b, k, r, _) := shape4 m in
  T3 (b, k, r) (bmap (λ M : list (list Z), (λ i, (M !!! i) !!! i) <$> seq 0 r) (data4 m)).

Definition identity_like (m : tensor4 Z) : tensor4 Z :=
  let '(b, k, r, c) := shape4 m in
  T4 (b, k, r, c) (bmap (λ _ : list (list Z), eye r) (data4 m)).

#[local] Instance diag_linalg : LinAlg Z := {|
  default_meta := (Float32, Cpu);
  cholesky m := Ok m;
  inverse m := Ok m;
  matmul x y :=
    let '(b, k, r, _) := shape4 x in
    let '(_, _, _, c) := shape4 y in
    Ok (T4 (b, k, r, c) (zip_with (zip_with matmul_item) (data4 x) (data4 y)));
  symeig m := Ok (diagonal_of m, identity_like m) |}.

(** The diagonal matrix [diag(1, 3)], packed. *)
Definition packed_diagonal : tensor5 Z :=
  T5 (1, 1, 1, 2, 3) [[[[[1; 0; 3]; [0; 0; 0]]]]]%Z.

(** A packed input whose packed length [2] is not triangular. *)
Definition packed_nontriangular : tensor5 Z :=
  T5 (1, 1, 1, 2, 2) [[[[[5; 6]; [7; 8]]]]]%Z.

(** Packed inputs with an empty packed axis and with an empty batch. *)
Definition packed_empty : tensor5 Z := T5 (1, 1, 1, 2, 0) [[[[[]; []]]]].
Definition empty_batch : tensor5 Z := T5 (0, 1, 1, 2, 1) [].

(** A double-precision run: with [b] absent the first product is
    refused, with the packed identity in double precision [forward]
    returns. *)
Lemma forward_default_b_meta_mismatch_witness :
  let a := Tagged (Float64, Cpu) packed_diagonal in
  let b := Tagged (Float64, Cpu) (identity_packed 1 1 2) in
  let vs := T5 (1, 1, 2, 2, 2) [[[[[1; 0]; [0; 0]]; [[0; 0]; [1; 0]]]]]%Z in
  let ds := T5 (1, 1, 2, 2, 2) [[[[[1; 0]; [0; 0]]; [[0; 0]; [3; 0]]]]]%Z in
  (Float64, Cpu) ≠ default_meta ∧
  forward a None = Err MetaMismatch ∧
  forward a (Some b) = with_meta (Float64, Cpu)
                         (forward (Tagged default_meta packed_diagonal) None) ∧
  forward a (Some b) = Ok (Tagged (Float64, Cpu) vs, Tagged (Float64, Cpu) ds).
Proof.
  intros a b vs ds.
  assert (Hne : (Float64, Cpu) ≠ default_meta) by discriminate.
  destruct (forward_default_b_meta_mismatch packed_diagonal (Float64, Cpu)
              1 1 2 (identity_block 1 1 2) (identity_block 1 1 2)
              eq_refl eq_refl Nat.lt_0_1 Nat.lt_0_1 Hne eq_refl eq_refl)
    as [E1 E2].
  split; [exact Hne|]. split; [exact E1|]. split; [exact E2|]. reflexivity.
Defined.

(** On an empty batch, with [b] absent [torch.stack] is given an empty
    list and no block [B_h] is produced, while the packed identity is
    encoded by [f] to an empty block. *)
Lemma forward_default_b_empty_batch :
  let a := Tagged (Float32, Cpu) empty_batch in
  let b := Tagged (Float32, Cpu) (identity_packed 0 1 1) in
  shape5 empty_batch = (0, 1, 1, 2, tri 1) ∧ wf5 empty_batch = true ∧
  reference_block a None = Err EmptyStack ∧
  reference_block a (Some b) = Ok (Tagged (Float32, Cpu) (T4 (0, 1, 2, 2) [])) ∧
  forward a None = Err EmptyStack ∧
  forward a (Some b) =
    Ok (Tagged (Float32, Cpu) (T5 (0, 1, 1, 1, 2) []),
        Tagged (Float32, Cpu) (T5 (0, 1, 1, 1, 2) [])).
Proof. repeat split. Qed.

Lemma two_not_triangular C : 0 < C → 2 ≠ tri C.
Proof.
  destruct C as [|[|C]]; [lia|done|]. intros _.
  rewrite !tri_S. lia.
Qed.

Lemma f_forward_reject_nontriangular_witness :
  shape5 packed_nontriangular = (1, 1, 1, 2, 2) ∧
  f packed_nontriangular = Err ShapeMismatch ∧
  ∀ b, forward (Tagged (Float32, Cpu) packed_nontriangular) b =
         Err ShapeMismatch.
Proof.
  split; [reflexivity|].
  apply (f_forward_reject_nontriangular packed_nontriangular (Float32, Cpu)
           1 1 2);
    [reflexivity | apply Nat.lt_0_2 | exact two_not_triangular].
Defined.

(** C6 as stated fails for [P = 0], which no positive [C] gives: [f]
    rounds the channel count to [0] and returns an empty block. *)
Lemma f_empty_packing_counterexample :
  shape5 packed_empty = (1, 1, 1, 2, 0) ∧
  (∀ C, 0 < C → 0 ≠ tri C) ∧
  f packed_empty = Ok (T4 (1, 1, 0, 0) [[[]]]).
Proof.
  split; [reflexivity|]. split; [|reflexivity].
  intros [|C] HC; [lia|]. rewrite tri_S. lia.
Qed.

Lemma forward_eigenvalue_matrix_witness :
  let a := Tagged (Float32, Cpu) packed_diagonal in
  let vs := Tagged (Float32, Cpu)
              (T5 (1, 1, 2, 2, 2) [[[[[1; 0]; [0; 0]]; [[0; 0]; [1; 0]]]]]%Z) in
  let ds := Tagged (Float32, Cpu)
              (T5 (1, 1, 2, 2, 2) [[[[[1; 0]; [0; 0]]; [[0; 0]; [3; 0]]]]]%Z) in
  forward a None = Ok (vs, ds) ∧
  ∃ cl es ysh,
    whitened a None = Ok cl ∧ symeig (value_of cl.1) = Ok (es, ysh) ∧
    shape5 (value_of ds) = (1, 1, 2, 2, 2) ∧
    ∀ n k i j, n < 1 → k < 1 → i < 2 → j < 2 →
      at5 (value_of ds) n k i j 1 = Some 0%Z ∧
      (i ≠ j → at5 (value_of ds) n k i j 0 = Some 0%Z) ∧
      at5 (value_of ds) n k i i 0 = at3 es n k (2 * i).
Proof.
  intros a vs ds.
  assert (Hfw : forward a None = Ok (vs, ds)) by reflexivity.
  split; [exact Hfw|].
  assert (Hes : ∀ cl ey, whitened a None = Ok cl →
            symeig (value_of cl.1) = Ok ey →
            shape3 ey.1 = (1, 1, 2 * 2) ∧ wf3 ey.1 = true).
  { intros cl ey Hcl Hey.
    vm_compute in Hcl. injection Hcl as <-.
    vm_compute in Hey. injection Hey as <-.
    split; reflexivity. }
  exact (forward_eigenvalue_matrix a None vs ds 1 1 2 eq_refl Hfw Hes).
Defined.

(** ** The regulariser [EigenH.pos_def]

    [pos_def] clones its argument and updates the clone in place, so
    the tensors live in a store: a location names a tensor, [clone]
    allocates a fresh location, and the augmented assignment writes to
    the location of the clone. *)

Definition count_true (mask : list bool) : nat :=
  length (filter (λ m : bool, m = true) mask).

(** [row[mask] = vals] on one row: the selected positions receive the
    values in order. *)
Fixpoint mask_update {A} (mask : list bool) (row vals : list A) : list A :=
  match mask, row with
  | m :: mask', x :: row' =>
      if m then
        match vals with
        | v :: vals' => v :: mask_update mask' row' vals'
        | [] => x :: mask_update mask' row' []
        end
      else x :: mask_update mask' row' vals
  | _, _ => row
  end.

Section PosDef.
Context `{Scalar R}.

(** [t[..., c, mask]] *)
Definition masked_get5 (t : tensor5 R) (c : nat) (mask : list bool) :
    result (tensor4 R) :=
  let '(b, o, k, d, p) := shape5 t in
  _ ← guard_or IndexError ((c <? d) && (length mask =? p));
  Ok (T4 (b, o, k, count_true mask)
        (lmap (lmap (lmap (λ cell : list (list R), mask_select mask (cell !!! c))))
           (data5 t))).

(** [torch.sum(t, 3)] *)
Definition sum_dim3 (t : tensor4 R) : tensor3 R :=
  let '(b, o, k, _) := shape4 t in
  T3 (b, o, k) (lmap (lmap (lmap (foldl add zero))) (data4 t)).

(** [t.unsqueeze(3)] and [t.repeat(1, 1, 1, n)] *)
Definition unsqueeze3 (t : tensor3 R) : tensor4 R :=
  let '(b, o, k) := shape3 t in
  T4 (b, o, k, 1) (lmap (lmap (lmap (λ x : R, [x]))) (data3 t)).
Definition repeat_last (n : nat) (t : tensor4 R) : tensor4 R :=
  let '(b, o, k, d) := shape4 t in
  T4 (b, o, k, n * d)
     (lmap (lmap (lmap (λ l : list R, concat (replicate n l)))) (data4 t)).

(** [alpha * t] and [t + eps] with scalars [alpha] and [eps] *)
Definition scale4 (alpha : R) (t : tensor4 R) : tensor4 R :=
  T4 (shape4 t) (lmap (lmap (lmap (lmap (mul alpha)))) (data4 t)).
Definition add_scalar4 (t : tensor4 R) (eps : R) : tensor4 R :=
  T4 (shape4 t) (lmap (lmap (lmap (lmap (λ x, add x eps)))) (data4 t)).

(** [x += v] on a rank 4 value: [v] is broadcast to the shape of [x]. *)
Definition iadd4 (x v : tensor4 R) : result (tensor4 R) :=
  let '(b, o, k, d) := shape4 x in
  let '(vb, vo, vk, vd) := shape4 v in
  _ ← guard_or ShapeMismatch
        (bcast_ok vb b && bcast_ok vo o && bcast_ok vk k && bcast_ok vd d);
  Ok (T4 (b, o, k, d) (bzip (bzip (bzip (bzip add))) (data4 x) (data4 v))).

(** [t[..., c, mask] = v] *)
Definition masked_put5 (t : tensor5 R) (c : nat) (mask : list bool)
    (v : tensor4 R) : result (tensor5 R) :=
  let '(b, o, k, d, p) := shape5 t in
  let '(vb, vo, vk, vd) := shape4 v in
  _ ← guard_or IndexError ((c <? d) && (length mask =? p));
  _ ← guard_or ShapeMismatch
        (bcast_ok vb b && bcast_ok vo o && bcast_ok vk k &&
         bcast_ok vd (count_true mask));
  Ok (T5 (b, o, k, d, p)
        (bzip (bzip (bzip (λ (cell : list (list R)) vals,
                 alter (λ row, mask_update mask row
                                 (expand (count_true mask) vals)) c cell)))
           (data5 t) (data4 v))).

(** The store, and [t.clone()]. *)
Definition read (l : nat) (h : gmap nat (tensor5 R)) : result (tensor5 R) :=
  match h !! l with
  | Some t => Ok t
  | None => Err RuntimeError
  end.

Definition clone (l : nat) (h : gmap nat (tensor5 R)) :
    result (nat * gmap nat (tensor5 R)) :=
  t ← read l h;
  let l' := fresh (dom h) in
  Ok (l', <[l':=t]> h).

(** [EigenH.pos_def], on the location [ws] of its argument; it returns
    the location of [ws_pf] and the store it leaves. *)
Definition pos_def (ws : nat) (alpha eps : R) (h : gmap nat (tensor5 R)) :
    result (nat * gmap nat (tensor5 R)) :=
  t ← read ws h;
  let '(_, _, _, _, p) := shape5 t in
  let n_channels := channels_of p in
  let indices_diag := indices_diag n_channels in
  d ← masked_get5 t 0 indices_diag;
  let trace := sum_dim3 d in
  let trace := repeat_last n_channels (unsqueeze3 trace) in
  lh ← clone ws h;
  let ws_pf := lh.1 in
  let h := lh.2 in
  t_pf ← read ws_pf h;
  cur ← masked_get5 t_pf 0 indices_diag;
  new ← iadd4 cur (add_scalar4 (scale4 alpha trace) eps);
  t_pf ← masked_put5 t_pf 0 indices_diag new;
  Ok (ws_pf, <[ws_pf:=t_pf]> h).
End PosDef.

(** ** Masks *)

(** The diagonal packed entries of a row, in the words of the packing:
    the entries whose upper-triangle pair [(i, j)] has [i = j]. *)
Definition diag_entries {A} (n : nat) (l : list A) : list A :=
  (filter (λ pv : (nat * nat) * A, pv.1.1 = pv.1.2) (zip (triu_pairs n n) l)).*2.

Lemma indices_diag_fmap n :
  indices_diag n = (λ ij : nat * nat, ij.1 =? ij.2) <$> triu_pairs n n.
Proof.
  unfold indices_diag, triu_indices. cbn [fst snd].
  rewrite zip_with_fmap_l, zip_with_fmap_r. apply zip_with_diag.
Qed.

Lemma length_indices_diag n : length (indices_diag n) = tri n.
Proof. by rewrite indices_diag_fmap, length_fmap, length_triu_pairs. Qed.

Lemma mask_select_fmap {A B} (t : B → bool) (T : list B) (l : list A) :
  mask_select (t <$> T) l = (filter (λ pv : B * A, t pv.1 = true) (zip T l)).*2.
Proof.
  unfold mask_select. revert l.
  induction T as [|x T IH]; intros [|v l]; csimpl; try done.
  rewrite !filter_cons. simpl.
  destruct (decide (t x = true)); csimpl; by rewrite IH.
Qed.

Lemma mask_select_diag_entries {A} n (l : list A) :
  mask_select (indices_diag n) l = diag_entries n l.
Proof.
  rewrite indices_diag_fmap, mask_select_fmap. unfold diag_entries. f_equal.
  apply list_filter_iff. intros [[i j] v]. simpl. apply Nat.eqb_eq.
Qed.

Lemma length_mask_select {A} (mask : list bool) (l : list A) :
  length l = length mask → length (mask_select mask l) = count_true mask.
Proof.
  unfold mask_select, count_true. revert l.
  induction mask as [|m mask IH]; intros [|v l] Hlen; simplify_eq/=; [done|].
  rewrite !filter_cons. simpl.
  destruct (decide (m = true)); csimpl; by rewrite IH.
Qed.

Lemma filter_diag_above i j m :
  i < j → filter (λ ij : nat * nat, (ij.1 =? ij.2) = true)
            ((λ j, (i, j)) <$> seq j m) = [].
Proof.
  revert j. induction m as [|m IH]; intros j Hij; csimpl; [done|].
  rewrite filter_cons_False by (simpl; rewrite Nat.eqb_eq; lia).
  apply IH. lia.
Qed.

Lemma count_diag_aux n k :
  k ≤ n →
  length (filter (λ ij : nat * nat, (ij.1 =? ij.2) = true)
            (i ← seq (n - k) k; (λ j, (i, j)) <$> seq i (n - i))) = k.
Proof.
  induction k as [|k IH]; intros Hk; [done|].
  simpl seq. csimpl. rewrite filter_app, length_app.
  replace (S (n - S k)) with (n - k) by lia. rewrite IH by lia.
  replace (n - (n - S k)) with (S k) by lia. csimpl.
  rewrite filter_cons_True by (simpl; apply Nat.eqb_refl).
  rewrite filter_diag_above by lia. done.
Qed.

Lemma count_true_fmap {B} (t : B → bool) (T : list B) :
  count_true (t <$> T) = length (filter (λ x, t x = true) T).
Proof.
  unfold count_true. induction T as [|x T IH]; csimpl; [done|].
  rewrite !filter_cons. destruct (decide (t x = true)); simpl; by rewrite IH.
Qed.

Lemma count_true_indices_diag n : count_true (indices_diag n) = n.
Proof.
  rewrite indices_diag_fmap, count_true_fmap. unfold triu_pairs.
  pose proof (count_diag_aux n n ltac:(lia)) as Hc.
  by rewrite Nat.sub_diag in Hc.
Qed.

(** Adding one value [t] to the selected entries of a row. *)
Lemma mask_update_add {A} (op : A → A → A) (mask : list bool) (row : list A) t n :
  count_true mask ≤ n →
  mask_update mask row (zip_with op (mask_select mask row) (replicate n t)) =
    zip_with (λ (m : bool) x, if m then op x t else x) mask row ++ drop (length mask) row.
Proof.
  unfold mask_select, count_true. revert row n.
  induction mask as [|m mask IH]; intros [|x row] n Hn; simpl; try done.
  rewrite filter_cons in Hn. rewrite filter_cons. simpl in *.
  destruct m; simpl in *.
  - destruct n as [|n]; [lia|]. csimpl. f_equal. apply IH. lia.
  - f_equal. by apply IH.
Qed.

Lemma concat_replicate_singleton {A} n (x : A) :
  concat (replicate n [x]) = replicate n x.
Proof. induction n as [|n IH]; simpl; [done|]. by rewrite IH. Qed.

(** ** Evaluating [pos_def] *)

Definition bmap3 {A B} (F : A → B) (D : list (list (list A))) :
    list (list (list B)) :=
  lmap (lmap (lmap F)) D.

Lemma bzip3_bmap3 {A B C D} (h : B → C → D) (F : A → B) (G : A → C) X :
  bzip (bzip (bzip h)) (bmap3 F X) (bmap3 G X) = bmap3 (λ x, h (F x) (G x)) X.
Proof.
  unfold bmap3. rewrite bzip_zip_with by (by rewrite !length_fmap).
  rewrite zip_with_fmap_l, zip_with_fmap_r, zip_with_diag.
  apply list_fmap_ext. intros i xs _. apply (bzip_bmap h F G).
Qed.

Lemma bmap3_bmap3 {A B C} (F : A → B) (G : B → C) X :
  bmap3 G (bmap3 F X) = bmap3 (λ x, G (F x)) X.
Proof.
  unfold bmap3. rewrite <- list_fmap_compose. apply list_fmap_ext.
  intros i xs _. apply (bmap_bmap F G).
Qed.

Lemma lmap3_bmap3 {A B C} (F : A → B) (G : B → C) X :
  lmap (lmap (lmap G)) (bmap3 F X) = bmap3 (λ x, G (F x)) X.
Proof. apply bmap3_bmap3. Qed.

Lemma bmap3_ext {A B} (F G : A → B) X :
  (∀ xs ys x, xs ∈ X → ys ∈ xs → x ∈ ys → F x = G x) → bmap3 F X = bmap3 G X.
Proof.
  intros Hext. unfold bmap3. apply list_fmap_ext.
  intros i xs Hxs%list_elem_of_lookup_2.
  apply (bmap_ext F G). intros ys x Hys Hx. by eapply Hext.
Qed.

Section PosDefEval.
Context `{Scalar R}.

(** [t[b, o, k]] and [t[b, o, k, c]] *)
Definition cell5 (t : tensor5 R) (b o k : nat) : option (list (list R)) :=
  mlookup (data5 t) b o ≫= λ xk, xk !! k.
Definition row5 (t : tensor5 R) (b o k c : nat) : option (list R) :=
  cell5 t b o k ≫= λ cell, cell !! c.

Lemma at5_cell5 (t : tensor5 R) b o k c p :
  at5 t b o k c p = cell5 t b o k ≫= λ cell, mlookup cell c p.
Proof.
  unfold at5, cell5, mlookup.
  destruct (data5 t !! b) as [xb|]; simpl; [|done].
  destruct (xb !! o) as [xk|]; simpl; [|done].
  by destruct (xk !! k) as [cell|].
Qed.

Lemma cell5_bmap3 s (G : list (list R) → list (list R)) D b o k :
  cell5 (T5 s (bmap3 G D)) b o k = G <$> cell5 (T5 s D) b o k.
Proof.
  unfold cell5, mlookup, bmap3. simpl. rewrite list_lookup_fmap.
  destruct (D !! b) as [xb|]; simpl; [|done].
  rewrite list_lookup_fmap.
  destruct (xb !! o) as [xk|]; simpl; [|done].
  by rewrite list_lookup_fmap.
Qed.

(** The regularised item: [alpha * trace + eps] is added to the real
    entries selected by the mask. *)
Definition pos_def_cell (n : nat) (alpha eps : R) (cell : list (list R)) :
    list (list R) :=
  let t := add (mul alpha (foldl add zero (mask_select (indices_diag n) (cell !!! 0)))) eps in
  alter (λ row, zip_with (λ (m : bool) x, if m then add x t else x)
                  (indices_diag n) row) 0 cell.

Lemma wf5_cells (t : tensor5 R) B O K m n :
  shape5 t = (B, O, K, m, n) → wf5 t = true →
  ∀ xs ys cell, xs ∈ data5 t → ys ∈ xs → cell ∈ ys → has_dims m n cell.
Proof.
  unfold wf5. intros -> [_ Hall]%shaped_spec xs ys cell Hxs Hys Hcell.
  apply Hall, shaped_spec in Hxs as [_ Hxs].
  apply Hxs, shaped_spec in Hys as [_ Hys].
  by apply Hys, shaped_matrix in Hcell.
Qed.

Lemma masked_get5_eval B O K d P c mask (D : list (list (list (list (list R))))) :
  c < d → length mask = P →
  masked_get5 (T5 (B, O, K, d, P) D) c mask =
    Ok (T4 (B, O, K, count_true mask)
          (bmap3 (λ cell, mask_select mask (cell !!! c)) D)).
Proof.
  intros Hc Hm. unfold masked_get5. simpl.
  destruct (Nat.ltb_spec c d) as [_|?]; [|lia].
  by rewrite Hm, Nat.eqb_refl.
Qed.

Lemma trace_eval {A} B O K d n (F : A → list R) D :
  repeat_last n (unsqueeze3 (sum_dim3 (T4 (B, O, K, d) (bmap3 F D)))) =
    T4 (B, O, K, n * 1)
       (bmap3 (λ x, concat (replicate n [foldl add zero (F x)])) D).
Proof.
  unfold repeat_last, unsqueeze3, sum_dim3. cbn [shape4 data4 shape3 data3].
  by rewrite !lmap3_bmap3.
Qed.

Lemma scale_add_eval {A} s alpha eps (F : A → list R) D :
  add_scalar4 (scale4 alpha (T4 s (bmap3 F D))) eps =
    T4 s (bmap3 (λ x, (λ y, add y eps) <$> (mul alpha <$> F x)) D).
Proof.
  unfold add_scalar4, scale4. cbn [shape4 data4].
  by rewrite !lmap3_bmap3.
Qed.

Lemma bmap3_id {A} (D : list (list (list A))) : bmap3 id D = D.
Proof.
  unfold bmap3. rewrite <- (list_fmap_id D) at 2.
  apply list_fmap_ext. intros i xs _. rewrite <- (list_fmap_id xs) at 2.
  apply list_fmap_ext. intros j ys _. apply list_fmap_id.
Qed.

Lemma iadd4_eval {A} B O K n (F G : A → list R) D :
  iadd4 (T4 (B, O, K, n) (bmap3 F D)) (T4 (B, O, K, n) (bmap3 G D)) =
    Ok (T4 (B, O, K, n) (bmap3 (λ x, bzip add (F x) (G x)) D)).
Proof.
  unfold iadd4. cbn [shape4 data4].
  unfold bcast_ok. rewrite !Nat.eqb_refl. cbn [andb orb guard_or mbind result_bind].
  by rewrite (bzip3_bmap3 (bzip add)).
Qed.

Lemma masked_put5_eval B O K d P n c mask (G : list (list R) → list R)
    (D : list (list (list (list (list R))))) :
  c < d → length mask = P → n = count_true mask →
  masked_put5 (T5 (B, O, K, d, P) D) c mask (T4 (B, O, K, n) (bmap3 G D)) =
    Ok (T5 (B, O, K, d, P)
          (bmap3 (λ cell, alter (λ row, mask_update mask row
                                          (expand (count_true mask) (G cell)))
                            c cell) D)).
Proof.
  intros Hc Hm ->. unfold masked_put5. cbn [shape5 shape4 data5 data4].
  destruct (Nat.ltb_spec c d) as [_|?]; [|lia].
  rewrite Hm. unfold bcast_ok. rewrite !Nat.eqb_refl.
  cbn [andb orb guard_or mbind result_bind]. do 2 f_equal.
  rewrite <- (bmap3_id D) at 1. by rewrite bzip3_bmap3.
Qed.

Lemma pos_def_eval (h : gmap nat (tensor5 R)) l ws alpha eps B K C :
  h !! l = Some ws → shape5 ws = (B, 1, K, 2, tri C) → wf5 ws = true →
  pos_def l alpha eps h =
    Ok (fresh (dom h),
        <[fresh (dom h) := T5 (B, 1, K, 2, tri C)
                             (bmap3 (pos_def_cell C alpha eps) (data5 ws))]> h).
Proof.
  intros Hl Hs Hwf. pose proof (wf5_cells ws _ _ _ _ _ Hs Hwf) as Hcells.
  destruct ws as [sh D]. cbn [shape5 data5] in *. subst sh.
  unfold pos_def, clone, read. rewrite Hl. cbn [mbind result_bind shape5].
  rewrite channels_of_tri.
  rewrite masked_get5_eval by (lia || apply length_indices_diag).
  cbn [mbind result_bind fst snd]. rewrite lookup_insert_eq.
  cbn [mbind result_bind fst snd].
  rewrite masked_get5_eval by (lia || apply length_indices_diag).
  cbn [mbind result_bind].
  rewrite trace_eval, scale_add_eval.
  rewrite Nat.mul_1_r, count_true_indices_diag.
  rewrite iadd4_eval. cbn [mbind result_bind].
  rewrite masked_put5_eval
    by (lia || apply length_indices_diag || by rewrite count_true_indices_diag).
  cbn [mbind result_bind]. rewrite insert_insert_eq.
  do 4 f_equal. apply bmap3_ext. intros xs ys cell Hxs Hys Hcell.
  specialize (Hcells xs ys cell Hxs Hys Hcell).
  unfold pos_def_cell. apply list_alter_ext; [|done].
  intros row Hrow.
  assert (row = cell !!! 0) as ->.
  { symmetry. by apply list_lookup_total_correct. }
  assert (length (cell !!! 0) = tri C) as Hlen by (eapply has_dims_row; [done|lia]).
  rewrite concat_replicate_singleton, !fmap_replicate.
  rewrite bzip_zip_with; last first.
  { rewrite length_replicate, length_mask_select, count_true_indices_diag;
      [done|by rewrite length_indices_diag]. }
  rewrite expand_id; last first.
  { rewrite length_zip_with_l_eq;
      rewrite length_mask_select, ?count_true_indices_diag, ?length_replicate;
      done || by rewrite length_indices_diag. }
  rewrite mask_update_add by (by rewrite count_true_indices_diag).
  rewrite drop_ge by (by rewrite length_indices_diag, Hlen).
  by rewrite app_nil_r.
Qed.
End PosDefEval.

Section PosDefTheorem.
Context `{Scalar R}.

Lemma pos_def_cell_lookup C alpha eps (cell : list (list R)) re c p i j x :
  cell !! 0 = Some re → triu_pairs C C !! p = Some (i, j) →
  mlookup cell c p = Some x →
  mlookup (pos_def_cell C alpha eps cell) c p =
    Some (if decide (c = 0 ∧ i = j)
          then add x (add (mul alpha (foldl add zero (diag_entries C re))) eps)
          else x).
Proof.
  intros Hre Hp Hx. unfold pos_def_cell, mlookup in *.
  rewrite (list_lookup_total_correct _ _ _ Hre), mask_select_diag_entries.
  destruct (decide (c = 0)) as [->|Hc].
  - rewrite list_lookup_alter_eq, Hre in *. simpl in *.
    rewrite lookup_zip_with, (indices_diag_lookup C p i j Hp), Hx. simpl.
    destruct (Nat.eqb_spec i j); case_decide as Hd;
      first [done | by destruct Hd | exfalso; by apply Hd].
  - rewrite list_lookup_alter_ne by done. rewrite Hx.
    case_decide as Hd; [by destruct Hd|done].
Qed.

(** C8: [pos_def] leaves its argument unchanged in the store and returns
    a new array, at a fresh location, that equals the argument at every
    entry except the real diagonal packed entries, to each of which
    [alpha * trace + eps] is added; [trace] is the sum of the real
    diagonal packed entries of the [(batch, bin)] item. *)
Theorem pos_def_frame (h : gmap nat (tensor5 R)) (l : nat) (ws : tensor5 R)
    (alpha eps : R) (B K C : nat) :
  h !! l = Some ws → shape5 ws = (B, 1, K, 2, tri C) → wf5 ws = true →
  ∃ l' h' ws_pf,
    pos_def l alpha eps h = Ok (l', h') ∧
    l' ≠ l ∧ h !! l' = None ∧
    h' !! l = Some ws ∧
    (∀ l'', l'' ≠ l' → h' !! l'' = h !! l'') ∧
    h' !! l' = Some ws_pf ∧
    shape5 ws_pf = shape5 ws ∧
    ∀ b k c p i j re x,
      row5 ws b 0 k 0 = Some re → triu_pairs C C !! p = Some (i, j) →
      at5 ws b 0 k c p = Some x →
      at5 ws_pf b 0 k c p =
        Some (if decide (c = 0 ∧ i = j)
              then add x (add (mul alpha (foldl add zero (diag_entries C re))) eps)
              else x).
Proof.
  intros Hl Hs Hwf. rewrite (pos_def_eval h l ws alpha eps B K C) by done.
  set (l' := fresh (dom h)).
  assert (Hfresh : h !! l' = None) by apply not_elem_of_dom, is_fresh.
  assert (Hne : l' ≠ l) by (intros ->; congruence).
  eexists _, _, _. split; [done|]. split; [done|]. split; [done|].
  split; [by rewrite lookup_insert_ne|].
  split; [intros l'' Hl''; by rewrite lookup_insert_ne|].
  split; [apply lookup_insert_eq|]. split; [done|].
  intros b k c p i j re x Hre Hp Hx.
  rewrite at5_cell5 in Hx. rewrite at5_cell5, cell5_bmap3.
  unfold row5 in Hre. destruct ws as [sh D]. simpl in *.
  destruct (cell5 (T5 sh D) b 0 k) as [cell|] eqn:Hcell; simpl in *; [|done].
  replace (cell5 (T5 (B, 1, K, 2, tri C) D) b 0 k) with (Some cell)
    by (by rewrite <- Hcell).
  simpl. by apply pos_def_cell_lookup.
Qed.
End PosDefTheorem.

Lemma pos_def_frame_witness :
  ∃ l' h' ws_pf,
    pos_def 0 2%Z 1%Z {[0 := packed_example]} = Ok (l', h') ∧
    l' ≠ 0 ∧ ({[0 := packed_example]} : gmap nat (tensor5 Z)) !! l' = None ∧
    h' !! 0 = Some packed_example ∧
    (∀ l'', l'' ≠ l' →
       h' !! l'' = ({[0 := packed_example]} : gmap nat (tensor5 Z)) !! l'') ∧
    h' !! l' = Some ws_pf ∧
    shape5 ws_pf = shape5 packed_example ∧
    ∀ b k c p i j re x,
      row5 packed_example b 0 k 0 = Some re → triu_pairs 2 2 !! p = Some (i, j) →
      at5 packed_example b 0 k c p = Some x →
      at5 ws_pf b 0 k c p =
        Some (if decide (c = 0 ∧ i = j)
              then add x (add (mul 2%Z (foldl add zero (diag_entries 2 re))) 1%Z)
              else x).
Proof.
  apply (pos_def_frame {[0 := packed_example]} 0 packed_example 2%Z 1%Z 1 1 2);
    reflexivity.
Defined.

(** ** [notch_filter]

    The frequencies are rational numbers (every finite float is one) and
    the filter width is an integer, as wide as Python's.  The entries of
    the kernel are computed by the float primitives of torch, which are
    external: the function is modelled over any implementation of them. *)

Class FloatOps (K : Type) := {
  of_Q : Q → K;
  fsin : K → K;
  fdiv : K → K → K;
  fmul : K → K → K;
  fadd : K → K → K;
  fneg : K → K;
  (** [torch.blackman_window(n)] has [n] entries. *)
  blackman_window : nat → list K;
  length_blackman_window : ∀ n, length (blackman_window n) = n;
}.

(** [l[:n]] and [l[n:]] of Python, for any integer [n]. *)
Definition py_take {A} (n : Z) (l : list A) : list A :=
  if (0 <=? n)%Z then take (Z.to_nat n) l
  else take (length l - Z.to_nat (- n)) l.
Definition py_drop {A} (n : Z) (l : list A) : list A :=
  if (0 <=? n)%Z then drop (Z.to_nat n) l
  else drop (length l - Z.to_nat (- n)) l.

(** [torch.arange(n)] *)
Definition arange (n : Z) : result (list Z) :=
  if (n <? 0)%Z then Err RuntimeError else Ok (seqZ 0 n).

Section Notch.
Context `{FloatOps K}.

(** [x *= w] and [x + y] on vectors, with broadcasting of the right
    operand. *)
Definition imul (x w : list K) : result (list K) :=
  if bcast_ok (length w) (length x)
  then Ok (zip_with fmul x (expand (length x) w))
  else Err ShapeMismatch.
Definition vadd (x y : list K) : result (list K) :=
  if bcast_ok (length y) (length x)
  then Ok (zip_with fadd x (expand (length x) y))
  else Err ShapeMismatch.

(** [x[i] += v] *)
Definition index_iadd (x : list K) (i : Z) (v : K) : result (list K) :=
  let i' := if (0 <=? i)%Z then i else (Z.of_nat (length x) + i)%Z in
  if (0 <=? i')%Z && (i' <? Z.of_nat (length x))%Z
  then Ok (alter (λ y, fadd y v) (Z.to_nat i') x)
  else Err IndexError.

Definition sinc (pad : Z) (x : list K) : list K :=
  let _sinc (x : list K) := (λ y, fdiv (fsin y) y) <$> x in
  _sinc (py_take pad x) ++ [of_Q 1] ++ _sinc (py_drop (pad + 1) x).

Definition vsum (x : list K) : K := foldl fadd (of_Q 0) x.

Definition notch_filter (notch_freq : Q) (filter_width : Z) (notch_width : Q) :
    result (tensor3 K) :=
  _ ← guard_or AssertionError
        (negb (Qle_bool notch_freq 0) && Qle_bool notch_freq 1);
  _ ← guard_or AssertionError (negb (filter_width `mod` 2 =? 0)%Z);
  let pad := (filter_width `div` 2)%Z in
  r ← arange filter_width;
  let inputs := (λ i, (i - pad)%Z) <$> r in
  let notch_freq := Qplus notch_freq notch_width in
  let hlpf :=
    sinc pad ((λ i, of_Q (Qmult (Qmult 3 (Qminus notch_freq notch_width))
                            (inject_Z i))) <$> inputs) in
  hlpf ← imul hlpf (blackman_window (Z.to_nat filter_width));
  let hlpf := (λ y, fdiv y (vsum hlpf)) <$> hlpf in
  let hhpf :=
    sinc pad ((λ i, of_Q (Qmult (Qmult 3 (Qplus notch_freq notch_width))
                            (inject_Z i))) <$> inputs) in
  hhpf ← imul hhpf (blackman_window (Z.to_nat filter_width));
  let hhpf := (λ y, fdiv y (fneg (vsum hhpf))) <$> hhpf in
  hhpf ← index_iadd hhpf pad (of_Q 1);
  s ← vadd hlpf hhpf;
  Ok (T3 (1, length s, 1) [(λ y, [y]) <$> s]).
End Notch.

Section NotchProps.
Context `{FloatOps K}.

Lemma in_range_spec (q : Q) :
  negb (Qle_bool q 0) && Qle_bool q 1 = true ↔ Qlt 0 q ∧ Qle q 1.
Proof.
  rewrite andb_true_iff, negb_true_iff, Qle_bool_iff.
  split; intros [H0 H1]; split; try done.
  - apply Qnot_le_lt. intros Hle%Qle_bool_iff. congruence.
  - destruct (Qle_bool q 0) eqn:Hle; [|done].
    apply Qle_bool_iff in Hle. by apply Qlt_not_le in H0.
Qed.

Lemma length_sinc (pad : Z) (x : list K) :
  (0 ≤ pad)%Z → Z.to_nat pad < length x → length (sinc pad x) = length x.
Proof.
  intros Hpad Hlt. unfold sinc, py_take, py_drop.
  destruct (Z.leb_spec 0 pad) as [_|?]; [|lia].
  destruct (Z.leb_spec 0 (pad + 1)) as [_|?]; [|lia].
  rewrite !length_app, !length_fmap, length_take, length_drop. simpl. lia.
Qed.

Lemma imul_ok (x w : list K) :
  length w = length x → imul x w = Ok (zip_with fmul x w).
Proof.
  intros Hlen. unfold imul, bcast_ok. rewrite Hlen, Nat.eqb_refl. simpl.
  by rewrite expand_id.
Qed.

Lemma vadd_ok (x y : list K) :
  length y = length x → vadd x y = Ok (zip_with fadd x y).
Proof.
  intros Hlen. unfold vadd, bcast_ok. rewrite Hlen, Nat.eqb_refl. simpl.
  by rewrite expand_id.
Qed.

Lemma index_iadd_ok (x : list K) (i : Z) v :
  (0 ≤ i < Z.of_nat (length x))%Z →
  index_iadd x i v = Ok (alter (λ y, fadd y v) (Z.to_nat i) x).
Proof.
  intros Hi. unfold index_iadd. cbv zeta.
  assert (E1 : (0 <=? i)%Z = true) by (apply Z.leb_le; lia).
  assert (E2 : (i <? Z.of_nat (length x))%Z = true) by (apply Z.ltb_lt; lia).
  rewrite E1. cbv iota. by rewrite E1, E2.
Qed.

Lemma imul_error (x w : list K) e : imul x w = Err e → e = ShapeMismatch.
Proof. unfold imul. destruct (bcast_ok _ _); congruence. Qed.

Lemma vadd_error (x y : list K) e : vadd x y = Err e → e = ShapeMismatch.
Proof. unfold vadd. destruct (bcast_ok _ _); congruence. Qed.

Lemma index_iadd_error (x : list K) i v e :
  index_iadd x i v = Err e → e = IndexError.
Proof. unfold index_iadd. cbv zeta. destruct (_ && _); congruence. Qed.

Lemma arange_error n e : arange n = Err e → e = RuntimeError.
Proof. unfold arange. destruct (n <? 0)%Z; congruence. Qed.

(** After the two assertions [notch_filter] raises no assertion error. *)
Lemma bind_no_assertion {A B} (m : result A) (k : A → result B) :
  (∀ e, m = Err e → e ≠ AssertionError) →
  (∀ a, m = Ok a → k a ≠ Err AssertionError) →
  m ≫= k ≠ Err AssertionError.
Proof.
  intros He Ha. destruct m as [a|e]; cbn [mbind result_bind].
  - by apply Ha.
  - intros [= Heq]. by apply (He e).
Qed.

Lemma notch_filter_past_assertions (notch_freq : Q) (filter_width : Z)
    (notch_width : Q) :
  negb (Qle_bool notch_freq 0) && Qle_bool notch_freq 1 = true →
  negb (filter_width `mod` 2 =? 0)%Z = true →
  notch_filter notch_freq filter_width notch_width ≠ Err AssertionError.
Proof.
  intros H1 H2. unfold notch_filter. rewrite H1, H2.
  cbn [guard_or mbind result_bind].
  apply bind_no_assertion; [by intros e ->%arange_error|intros r _].
  apply bind_no_assertion; [by intros e ->%imul_error|intros hlpf _].
  apply bind_no_assertion; [by intros e ->%imul_error|intros hhpf _].
  apply bind_no_assertion; [by intros e ->%index_iadd_error|intros hhpf' _].
  apply bind_no_assertion; [by intros e ->%vadd_error|intros s _].
  by intros [=].
Qed.

(** C7, amended: [notch_filter] fails with an assertion error exactly
    when [filter_width] is even or [notch_freq] is outside [(0, 1]]; for
    a positive odd [filter_width] and [notch_freq] in [(0, 1]] it
    returns a kernel of shape [(1, filter_width, 1)]. *)
Theorem notch_filter_assertions (notch_freq : Q) (filter_width : Z)
    (notch_width : Q) :
  (notch_filter notch_freq filter_width notch_width = Err AssertionError ↔
     (filter_width `mod` 2 = 0)%Z ∨ ¬ (Qlt 0 notch_freq ∧ Qle notch_freq 1)) ∧
  ((0 < filter_width)%Z → (filter_width `mod` 2 ≠ 0)%Z →
   Qlt 0 notch_freq → Qle notch_freq 1 →
   ∃ kernel, notch_filter notch_freq filter_width notch_width =
               Ok (T3 (1, Z.to_nat filter_width, 1) kernel)).
Proof.
  split; [split|].
  - intros Herr.
    destruct (negb (Qle_bool notch_freq 0) && Qle_bool notch_freq 1) eqn:H1.
    + destruct (negb (filter_width `mod` 2 =? 0)%Z) eqn:H2.
      * by destruct (notch_filter_past_assertions _ _ notch_width H1 H2).
      * left. apply negb_false_iff in H2. by apply Z.eqb_eq.
    + right. intros Hr%in_range_spec. congruence.
  - intros Hcase. unfold notch_filter.
    destruct (negb (Qle_bool notch_freq 0) && Qle_bool notch_freq 1) eqn:H1;
      [|done].
    destruct Hcase as [Heven|Hout].
    + rewrite Heven. done.
    + destruct Hout. by apply in_range_spec.
  - intros Hpos Hodd Hlo Hhi. unfold notch_filter.
    rewrite (proj2 (in_range_spec notch_freq)) by done.
    destruct (Z.eqb_spec (filter_width `mod` 2) 0) as [?|_]; [done|].
    cbn [negb guard_or mbind result_bind].
    unfold arange. destruct (Z.ltb_spec filter_width 0) as [?|_]; [lia|].
    cbn [mbind result_bind].
    set (pad := (filter_width `div` 2)%Z).
    assert (Hpad : (0 ≤ pad)%Z) by (apply Z.div_pos; lia).
    assert (Hlt : (pad < filter_width)%Z) by (apply Z.div_lt; lia).
    assert (Hlen : ∀ g : Z → K,
      length (sinc pad (g <$> ((λ i, (i - pad)%Z) <$> seqZ 0 filter_width))) =
        Z.to_nat filter_width).
    { intros g. rewrite length_sinc; rewrite ?length_fmap, ?length_seqZ; lia. }
    rewrite imul_ok by (by rewrite length_blackman_window, Hlen).
    cbn [mbind result_bind].
    rewrite imul_ok by (by rewrite length_blackman_window, Hlen).
    cbn [mbind result_bind].
    rewrite index_iadd_ok; last first.
    { rewrite length_fmap, length_zip_with_l_eq;
        rewrite ?length_blackman_window, Hlen; lia. }
    cbn [mbind result_bind].
    rewrite vadd_ok; last first.
    { rewrite length_alter, !length_fmap, !length_zip_with_l_eq;
        rewrite ?length_blackman_window, ?Hlen; done. }
    cbn [mbind result_bind]. eexists.
    rewrite length_zip_with_l_eq; last first.
    { rewrite length_alter, !length_fmap, !length_zip_with_l_eq;
        rewrite ?length_blackman_window, ?Hlen; done. }
    rewrite length_fmap, length_zip_with_l_eq
      by (by rewrite length_blackman_window, Hlen).
    by rewrite Hlen.
Qed.
End NotchProps.

(** A stand-in for the float primitives on the rationals (the sine is
    replaced by the identity and the window by a constant one): it
    serves the concrete runs below, the theorem holds for every
    implementation. *)
#[local] Program Instance rational_ops : FloatOps Q := {|
  of_Q q := q;
  fsin q := q;
  fdiv := Qdiv;
  fmul := Qmult;
  fadd := Qplus;
  fneg := Qopp;
  blackman_window n := replicate n (1 # 1)%Q |}.
Next Obligation. intros n. apply length_replicate. Qed.

Lemma notch_filter_assertions_witness :
  (0 < 3)%Z ∧ (3 `mod` 2 ≠ 0)%Z ∧ Qlt 0 (1 # 2) ∧ Qle (1 # 2) 1 ∧
  ∃ kernel, notch_filter (1 # 2) 3 (1 # 20) = Ok (T3 (1, Z.to_nat 3, 1) kernel).
Proof.
  assert (H1 : (0 < 3)%Z) by reflexivity.
  assert (H2 : (3 `mod` 2 ≠ 0)%Z) by discriminate.
  assert (H3 : Qlt 0 (1 # 2)) by reflexivity.
  assert (H4 : Qle (1 # 2) 1) by discriminate.
  split; [exact H1|]. split; [exact H2|]. split; [exact H3|]. split; [exact H4|].
  exact (proj2 (notch_filter_assertions (1 # 2) 3 (1 # 20)) H1 H2 H3 H4).
Defined.

(** C7 as stated fails for a negative odd width: both assertions pass
    for [filter_width = -1] and [notch_freq = 1/2], and [torch.arange]
    then refuses the negative length, so no kernel is returned. *)
Lemma notch_filter_negative_width_counterexample :
  ((-1) `mod` 2 ≠ 0)%Z ∧ Qlt 0 (1 # 2) ∧ Qle (1 # 2) 1 ∧
  notch_filter (1 # 2) (-1) (1 # 20) = (Err RuntimeError : result (tensor3 Q)).
Proof.
  split; [discriminate|]. split; [reflexivity|]. split; [discriminate|].
  reflexivity.
Qed.

(** ** [convolve1d]

    Every tensor operation of [convolve1d] is a torch primitive; the
    function is modelled over any implementation of them.  The padding
    primitive is kept apart from the others, to state which calls reach
    it. *)

Inductive padding :=
  | PadInt (n : Z)              (* an integer *)
  | PadTuple (left right : Z).  (* a tuple [(left_pad, right_pad)] *)

Class Torch (T : Type) := {
  t_shape : T → list nat;
  (** [t.transpose(2, 1)] *)
  t_transpose : T → result T;
  (** [t[..., :n]] and [t[..., n:]] *)
  t_take_last : Z → T → T;
  t_drop_last : Z → T → T;
  (** [torch.zeros(a, b, c)] *)
  t_zeros : nat → nat → Z → result T;
  (** [torch.cat(l, dim=-1)] *)
  t_cat_last : list T → result T;
  (** [torch.rfft(t, 1)], [torch.irfft(t, 1)] *)
  t_rfft : T → result T;
  t_irfft : T → result T;
  (** [t.unbind(-1)] of a tensor with two components *)
  t_unbind : T → result (T * T);
  (** [x * y], [x - y], [x + y] *)
  t_mul : T → T → result T;
  t_sub : T → T → result T;
  t_add : T → T → result T;
  (** [torch.stack([x, y], dim=-1)] *)
  t_stack : T → T → result T;
  (** [torch.nn.functional.conv1d(input, weight, stride, groups, padding)] *)
  t_conv1d : T → T → Z → Z → Z → result T;
}.

Section Convolve.
Context `{Torch T}.
(** [torch.nn.functional.pad(input, pad, mode)] *)
Variable pad : T → Z * Z → string → result T.

(** [t.size(k)] and [t.size(-1)] *)
Definition size (k : nat) (t : T) : nat := default 0 (t_shape t !! k).
Definition size_last (t : T) : Z := Z.of_nat (default 0 (last (t_shape t))).

(** The branch [if use_fft:] of [convolve1d], on the time-last waveform
    and kernel. *)
Definition fft_convolve (waveform kernel : T) (rotation_index : Z) : result T :=
  let zero_length := (size_last waveform - size_last kernel)%Z in
  let kz :=
    if (zero_length <? 0)%Z then (t_take_last zero_length kernel, 0%Z)
    else (kernel, zero_length) in
  let kernel := kz.1 in
  let zero_length := kz.2 in
  zeros ← t_zeros (size 0 kernel) (size 1 kernel) zero_length;
  let after_index := t_drop_last rotation_index kernel in
  let before_index := t_take_last rotation_index kernel in
  kernel ← t_cat_last [after_index; zeros; before_index];
  f_signal ← t_rfft waveform;
  f_kernel ← t_rfft kernel;
  sig ← t_unbind f_signal;
  ker ← t_unbind f_kernel;
  rr ← t_mul sig.1 ker.1;
  ii ← t_mul sig.2 ker.2;
  re ← t_sub rr ii;
  ri ← t_mul sig.1 ker.2;
  ir ← t_mul sig.2 ker.1;
  im ← t_add ri ir;
  f_result ← t_stack re im;
  convolved ← t_irfft f_result;
  if (size_last waveform <? size_last convolved)%Z
  then Ok (t_take_last (size_last waveform) convolved)
  else Ok convolved.

Definition convolve1d (waveform kernel : T) (padding : padding)
    (pad_type : string) (stride groups : Z) (use_fft : bool)
    (rotation_index : Z) : result T :=
  if negb (length (t_shape waveform) =? 3) then Err ValueError else
  waveform ← t_transpose waveform;
  kernel ← t_transpose kernel;
  waveform ← match padding with
             | PadTuple l r => pad waveform (l, r) pad_type
             | PadInt _ => Ok waveform
             end;
  convolved ←
    (if use_fft then fft_convolve waveform kernel rotation_index
     else t_conv1d waveform kernel stride groups
            (match padding with PadInt n => n | PadTuple _ _ => 0%Z end));
  t_transpose convolved.
End Convolve.

(** The primitives on shapes alone: a tensor is its shape, and every
    primitive computes the shape of its result as torch documents it.
    [torch.rfft(t, 1)] turns [n] samples into [n // 2 + 1] complex bins
    (it is one-sided), and [torch.irfft(t, 1)], called without
    [signal_sizes], turns [m] bins into [2 (m - 1)] samples. *)
Definition map_last (g : nat → nat) (s : list nat) : list nat :=
  match reverse s with
  | d :: rest => reverse (g d :: rest)
  | [] => []
  end.

Definition slice_take (n : Z) (d : nat) : nat :=
  if (0 <=? n)%Z then Z.to_nat n `min` d else d - Z.to_nat (- n) `min` d.

(** Broadcasting of two shapes, aligned at the last axis: two sizes agree
    when they are equal or one of them is one. *)
Definition bdim (x y : nat) : option nat :=
  if x =? y then Some x
  else if x =? 1 then Some y
  else if y =? 1 then Some x
  else None.

Fixpoint broadcast_rev (xs ys : list nat) : option (list nat) :=
  match xs, ys with
  | [], _ => Some ys
  | _, [] => Some xs
  | x :: xs', y :: ys' =>
      d ← bdim x y; r ← broadcast_rev xs' ys'; Some (d :: r)
  end.

Definition broadcast (xs ys : list nat) : result (list nat) :=
  match broadcast_rev (reverse xs) (reverse ys) with
  | Some r => Ok (reverse r)
  | None => Err ShapeMismatch
  end.

#[local] Instance shape_torch : Torch (list nat) := {|
  t_shape s := s;
  t_transpose s :=
    match s with [a; b; c] => Ok [a; c; b] | _ => Err RuntimeError end;
  t_take_last n s := map_last (slice_take n) s;
  t_drop_last n s := map_last (λ d, d - slice_take n d) s;
  t_zeros a b c := if (c <? 0)%Z then Err RuntimeError else Ok [a; b; Z.to_nat c];
  t_cat_last l :=
    match l with
    | [] => Err RuntimeError
    | s :: _ => Ok (map_last (λ _, foldr (λ s' acc, default 0 (last s') + acc) 0 l) s)
    end;
  t_rfft s := Ok (map_last (λ d, d / 2 + 1) s ++ [2]);
  t_irfft s :=
    match reverse s with
    | 2 :: m :: rest => Ok (reverse (2 * (m - 1) :: rest))
    | _ => Err RuntimeError
    end;
  t_unbind s :=
    match reverse s with
    | 2 :: rest => Ok (reverse rest, reverse rest)
    | _ => Err RuntimeError
    end;
  t_mul x y := broadcast x y;
  t_sub x y := broadcast x y;
  t_add x y := broadcast x y;
  t_stack x y := if decide (x = y) then Ok (x ++ [2]) else Err ShapeMismatch;
  t_conv1d x w stride groups p :=
    match x, w with
    | [b; _; l], [o; _; k] =>
        Ok [b; o; Z.to_nat ((Z.of_nat l + 2 * p - Z.of_nat k) `div` stride + 1)]
    | _, _ => Err RuntimeError
    end |}.

Definition shape_pad (s : list nat) (lr : Z * Z) (mode : string) :
    result (list nat) :=
  Ok (map_last (λ d, Z.to_nat (Z.of_nat d + lr.1 + lr.2)) s).

(** ** The length of the FFT result *)

Section ShapeRules.
Implicit Types (a b c n m k : nat).

Lemma shape_take_last (z : Z) a b c :
  t_take_last z [a; b; c] = [a; b; slice_take z c].
Proof. reflexivity. Qed.

Lemma shape_drop_last (z : Z) a b c :
  t_drop_last z [a; b; c] = [a; b; c - slice_take z c].
Proof. reflexivity. Qed.

Lemma shape_zeros a b (z : Z) :
  (0 ≤ z)%Z → t_zeros a b z = Ok [a; b; Z.to_nat z].
Proof.
  intros Hz. cbn [t_zeros shape_torch].
  by destruct (Z.ltb_spec z 0) as [?|_]; [lia|].
Qed.

Lemma shape_cat3 a b x a' b' y a'' b'' z :
  t_cat_last [[a; b; x]; [a'; b'; y]; [a''; b''; z]] = Ok [a; b; x + (y + (z + 0))].
Proof. reflexivity. Qed.

Lemma shape_rfft a b n : t_rfft [a; b; n] = Ok [a; b; n / 2 + 1; 2].
Proof. reflexivity. Qed.

Lemma shape_unbind a b m : t_unbind [a; b; m; 2] = Ok ([a; b; m], [a; b; m]).
Proof. reflexivity. Qed.

Lemma bdim_same x : bdim x x = Some x.
Proof. unfold bdim. by rewrite Nat.eqb_refl. Qed.

Lemma bdim_one x : bdim x 1 = Some x.
Proof. unfold bdim. by destruct (x =? 1). Qed.

Lemma broadcast3 a b m a' b' :
  a' = a ∨ a' = 1 → b' = b ∨ b' = 1 →
  broadcast [a; b; m] [a'; b'; m] = Ok [a; b; m].
Proof.
  intros Ha Hb. unfold broadcast.
  change (reverse [a; b; m]) with [m; b; a].
  change (reverse [a'; b'; m]) with [m; b'; a'].
  cbn [broadcast_rev]. rewrite bdim_same. cbn [mbind option_bind].
  assert (bdim b b' = Some b) as -> by (destruct Hb as [-> | ->];
    [apply bdim_same | apply bdim_one]).
  assert (bdim a a' = Some a) as -> by (destruct Ha as [-> | ->];
    [apply bdim_same | apply bdim_one]).
  reflexivity.
Qed.

Lemma shape_mul a b m a' b' :
  a' = a ∨ a' = 1 → b' = b ∨ b' = 1 →
  t_mul [a; b; m] [a'; b'; m] = Ok [a; b; m].
Proof. apply broadcast3. Qed.

Lemma shape_sub a b m : t_sub [a; b; m] [a; b; m] = Ok [a; b; m].
Proof. apply broadcast3; by left. Qed.

Lemma shape_add a b m : t_add [a; b; m] [a; b; m] = Ok [a; b; m].
Proof. apply broadcast3; by left. Qed.

Lemma shape_stack a b m : t_stack [a; b; m] [a; b; m] = Ok [a; b; m; 2].
Proof. cbn [t_stack shape_torch]. by rewrite decide_True. Qed.

Lemma shape_irfft a b m : t_irfft [a; b; m; 2] = Ok [a; b; 2 * (m - 1)].
Proof. reflexivity. Qed.

Lemma shape_transpose a b c : t_transpose [a; b; c] = Ok [a; c; b].
Proof. reflexivity. Qed.

Lemma shape_size_last a b c : size_last [a; b; c] = Z.of_nat c.
Proof. reflexivity. Qed.

Lemma slice_take_le (z : Z) d : slice_take z d ≤ d.
Proof. unfold slice_take. destruct (0 <=? z)%Z; lia. Qed.

Lemma slice_take_neg (z : Z) d :
  (z < 0)%Z → slice_take z d = d - Z.to_nat (- z).
Proof.
  intros Hz. unfold slice_take.
  destruct (Z.leb_spec 0 z) as [?|_]; lia.
Qed.

(** The FFT branch on a signal of [n] samples: the kernel is brought to
    [n] samples, both spectra have [n // 2 + 1] bins, and the inverse
    transform returns [2 (n // 2)] samples, which the final truncation
    never shortens.  The kernel has the batch size and the channel count
    of the signal, or one in their place. *)
Lemma fft_convolve_shape b c n kb kc k (rot : Z) :
  kb = b ∨ kb = 1 → kc = c ∨ kc = 1 →
  fft_convolve [b; c; n] [kb; kc; k] rot = Ok [b; c; 2 * (n / 2)].
Proof.
  intros Hb Hc.
  assert (Hcat : ∀ kk (zl : Z),
            t_cat_last [t_drop_last rot [kb; kc; kk]; [kb; kc; Z.to_nat zl];
                        t_take_last rot [kb; kc; kk]] =
              Ok [kb; kc; kk + Z.to_nat zl]).
  { intros kk zl. rewrite shape_drop_last, shape_take_last, shape_cat3.
    pose proof (slice_take_le rot kk). do 4 f_equal. lia. }
  assert (Hrest : ∀ kernel, kernel = [kb; kc; n] →
            (f_signal ← t_rfft [b; c; n];
             f_kernel ← t_rfft kernel;
             sig ← t_unbind f_signal;
             ker ← t_unbind f_kernel;
             rr ← t_mul sig.1 ker.1;
             ii ← t_mul sig.2 ker.2;
             re ← t_sub rr ii;
             ri ← t_mul sig.1 ker.2;
             ir ← t_mul sig.2 ker.1;
             im ← t_add ri ir;
             f_result ← t_stack re im;
             convolved ← t_irfft f_result;
             if (Z.of_nat n <? size_last convolved)%Z
             then Ok (t_take_last (Z.of_nat n) convolved)
             else Ok convolved) = Ok [b; c; 2 * (n / 2)]).
  { intros kernel ->. rewrite !shape_rfft. cbn [mbind result_bind].
    rewrite !shape_unbind. cbn [mbind result_bind fst snd].
    rewrite !shape_mul by done. cbn [mbind result_bind].
    rewrite shape_sub. cbn [mbind result_bind].
    rewrite shape_add. cbn [mbind result_bind].
    rewrite shape_stack. cbn [mbind result_bind].
    rewrite shape_irfft. cbn [mbind result_bind].
    rewrite shape_size_last. replace (n / 2 + 1 - 1) with (n / 2) by lia.
    pose proof (Nat.div_mod_eq n 2).
    by destruct (Z.ltb_spec (Z.of_nat n) (Z.of_nat (2 * (n / 2)))) as [?|_]; [lia|]. }
  unfold fft_convolve. rewrite !shape_size_last. cbv zeta.
  destruct (Z.ltb_spec (Z.of_nat n - Z.of_nat k) 0) as [Hlt|Hge];
    cbn [fst snd].
  - rewrite !shape_take_last.
    change (size 0 [kb; kc; ?x]) with kb. change (size 1 [kb; kc; ?x]) with kc.
    rewrite shape_zeros by done. cbn [mbind result_bind].
    rewrite <- (shape_take_last rot), Hcat. cbn [mbind result_bind].
    apply Hrest. do 3 f_equal. rewrite slice_take_neg by done. lia.
  - change (size 0 [kb; kc; ?x]) with kb. change (size 1 [kb; kc; ?x]) with kc.
    rewrite shape_zeros by done. cbn [mbind result_bind].
    rewrite Hcat. cbn [mbind result_bind].
    apply Hrest. do 3 f_equal. lia.
Qed.

End ShapeRules.


(** * Further properties of the codecs *)

Section WellFormed.
Context {R : Type}.

Lemma wf4_spec (t : tensor4 R) B K r c :
  shape4 t = (B, K, r, c) →
  wf4 t = true ↔
    has_dims B K (data4 t) ∧
    ∀ xs M, xs ∈ data4 t → M ∈ xs → has_dims r c M.
Proof.
  intros Hs. unfold wf4. rewrite Hs, shaped_spec.
  setoid_rewrite shaped_spec. setoid_rewrite shaped_spec.
  setoid_rewrite shaped1_spec. unfold has_dims. split.
  - intros [HB Hall]. split; [split; [done|]|].
    + intros xs Hxs. by destruct (Hall xs Hxs).
    + intros xs M Hxs HM. destruct (Hall xs Hxs) as [_ HK]. by apply HK.
  - intros [[HB HK] Hall]. split; [done|]. intros xs Hxs. split; [by apply HK|].
    intros M HM. by apply (Hall xs M).
Qed.

Lemma wf4_bmap {A} (F : A → list (list R)) B K r c (X : list (list A)) :
  has_dims B K X → (∀ x, has_dims r c (F x)) →
  wf4 (T4 (B, K, r, c) (bmap F X)) = true.
Proof.
  intros HX HF. apply (wf4_spec _ B K r c); [done|]. simpl. split.
  - by apply has_dims_bmap.
  - intros xs M (ys & -> & _)%list_elem_of_fmap (x & -> & _)%list_elem_of_fmap.
    apply HF.
Qed.

Lemma mlookup_elem {A} (X : list (list A)) b k x :
  mlookup X b k = Some x → ∃ xs, xs ∈ X ∧ x ∈ xs.
Proof.
  unfold mlookup. intros Hx.
  destruct (X !! b) as [xs|] eqn:Hb; simpl in Hx; [|done].
  exists xs. split; by eapply list_elem_of_lookup_2.
Qed.

Lemma mlookup_lookup_total `{Inhabited A} (M : list (list A)) r c v :
  mlookup M r c = Some v → (M !!! r) !!! c = v.
Proof.
  unfold mlookup. intros Hv.
  destruct (M !! r) as [row|] eqn:Hrow; simpl in Hv; [|done].
  apply list_lookup_total_correct in Hrow. rewrite Hrow.
  by apply list_lookup_total_correct.
Qed.
End WellFormed.

Section GProps.
Context `{Scalar R}.

Lemma at5_item (w : tensor5 R) b k i j c :
  at5 w b k i j c =
    mlookup (data5 w) b k ≫= λ W, mlookup W i j ≫= λ cell, cell !! c.
Proof. done. Qed.

Lemma g_ok (w : tensor5 R) B K C :
  shape5 w = (B, K, C, C, 2) → wf5 w = true →
  g w = Ok (T4 (B, K, 2 * C, 2 * C) (bmap (g_block C) (data5 w))) ∧
  wf4 (T4 (B, K, 2 * C, 2 * C) (bmap (g_block C) (data5 w))) = true.
Proof.
  intros Hs Hwf. destruct (wf5_items w B K C C 2 Hs Hwf) as [HX _].
  split.
  - apply (g_eval w B K C C 2); done || lia.
  - apply wf4_bmap; [done|]. intros W. apply g_block_dims.
Qed.

(** X1: [g] writes every complex entry [re + i im] at [(i, j)] of an item
    as the block [[re, -im], [im, re]] at [(2i, 2j)], and returns a
    well-formed tensor of shape [(B, K, 2C, 2C)]. *)
Theorem g_block_rule (w : tensor5 R) (B K C b k i j : nat) (re im : R) :
  shape5 w = (B, K, C, C, 2) → wf5 w = true →
  at5 w b k i j 0 = Some re → at5 w b k i j 1 = Some im →
  ∃ m, g w = Ok m ∧ shape4 m = (B, K, 2 * C, 2 * C) ∧ wf4 m = true ∧
    at4 m b k (2 * i) (2 * j) = Some re ∧
    at4 m b k (2 * i + 1) (2 * j + 1) = Some re ∧
    at4 m b k (2 * i) (2 * j + 1) = Some (neg im) ∧
    at4 m b k (2 * i + 1) (2 * j) = Some im.
Proof.
  intros Hs Hwf Hre Him.
  destruct (g_ok w B K C Hs Hwf) as [Hg Hwf4].
  destruct (wf5_items w B K C C 2 Hs Hwf) as [HX Hitems].
  eexists. split; [exact Hg|]. split; [done|]. split; [done|].
  rewrite at5_item in Hre, Him. unfold at4. simpl. rewrite mlookup_bmap.
  destruct (mlookup (data5 w) b k) as [W|] eqn:HW; simpl in *; [|done].
  destruct (mlookup_elem _ _ _ _ HW) as (xs & Hxs & HWin).
  destruct (Hitems xs W Hxs HWin) as [Hd _].
  destruct (mlookup W i j) as [cell|] eqn:Hcell; simpl in *; [|done].
  destruct (has_dims_lookup_inv C C W i j Hd) as [Hi Hj]; [by eexists|].
  destruct (g_block_cells C W i j Hd Hi Hj) as (E1 & E2 & E3 & E4).
  cbv zeta in *.
  rewrite (mlookup_lookup_total W i j cell Hcell) in E1, E2, E3, E4.
  rewrite (list_lookup_total_correct _ _ _ Hre) in E1, E2.
  rewrite (list_lookup_total_correct _ _ _ Him) in E3, E4.
  done.
Qed.

(** X2: [g] refuses a batch of non-square matrices: the first slice
    assignment cannot broadcast [n × m] values to the [n × n] selected
    cells. *)
Theorem g_rejects_non_square (w : tensor5 R) (B K n m d : nat) :
  shape5 w = (B, K, n, m, d) → 0 < d → m ≠ n → m ≠ 1 →
  g w = Err ShapeMismatch.
Proof.
  intros Hs Hd Hmn Hm1. destruct w as [sh X]. simpl in Hs. subst sh.
  unfold g. cbn [shape5].
  rewrite (select_last5_bmap B K n m d 0) by lia. cbn [mbind result_bind].
  unfold slice_put4 at 4. unfold zeros4. cbn [shape4].
  rewrite !slice_range_step2 by lia. rewrite !length_fmap, !length_seq.
  unfold bcast_ok. rewrite !Nat.eqb_refl.
  destruct (Nat.eqb_spec m n); [done|]. destruct (Nat.eqb_spec m 1); [done|].
  by rewrite !andb_false_r.
Qed.
End GProps.

Lemma g_block_rule_witness :
  ∃ m, g complex_example = Ok m ∧ shape4 m = (1, 1, 2 * 2, 2 * 2) ∧
    wf4 m = true ∧
    at4 m 0 0 (2 * 0) (2 * 1) = Some 3%Z ∧
    at4 m 0 0 (2 * 0 + 1) (2 * 1 + 1) = Some 3%Z ∧
    at4 m 0 0 (2 * 0) (2 * 1 + 1) = Some (-4)%Z ∧
    at4 m 0 0 (2 * 0 + 1) (2 * 1) = Some 4%Z.
Proof.
  exact (g_block_rule complex_example 1 1 2 0 0 0 1 3%Z 4%Z
           eq_refl eq_refl eq_refl eq_refl).
Defined.

(** A batch of [2 × 3] complex matrices. *)
Definition complex_non_square : tensor5 Z :=
  T5 (1, 1, 2, 3, 2)
     [[[[[1; 0]; [2; 0]; [3; 0]]; [[4; 0]; [5; 0]; [6; 0]]]]]%Z.

Lemma g_rejects_non_square_witness :
  shape5 complex_non_square = (1, 1, 2, 3, 2) ∧
  g complex_non_square = Err ShapeMismatch.
Proof.
  split; [reflexivity|].
  apply (g_rejects_non_square complex_non_square 1 1 2 3 2);
    [reflexivity | apply Nat.lt_0_2 | discriminate | discriminate].
Defined.

Section CodecProps.
Context `{Scalar R}.

Lemma bmap_id {A} (D : list (list A)) : bmap id D = D.
Proof.
  unfold bmap. rewrite <- (list_fmap_id D) at 2.
  apply list_fmap_ext. intros i xs _. apply list_fmap_id.
Qed.

Lemma wf4_dims (m : tensor4 R) B K r c :
  shape4 m = (B, K, r, c) → wf4 m = true →
  has_dims B K (data4 m) ∧
  ∀ b k M, mlookup (data4 m) b k = Some M → has_dims r c M.
Proof.
  intros Hs [HX HM]%(wf4_spec m B K r c Hs). split; [done|].
  intros b k M (xs & Hxs & Hin)%mlookup_elem. by apply (HM xs).
Qed.

Lemma wf5_bmap {A} (F : A → list (list (list R))) B K n m d
    (X : list (list A)) :
  has_dims B K X →
  (∀ x, has_dims n m (F x) ∧
        ∀ row cell, row ∈ F x → cell ∈ row → length cell = d) →
  wf5 (T5 (B, K, n, m, d) (bmap F X)) = true.
Proof.
  intros [HB HK] HF. unfold wf5. simpl. apply shaped_spec.
  split; [unfold bmap; by rewrite length_fmap|].
  intros ys (xs & -> & Hxs)%list_elem_of_fmap. apply shaped_spec.
  split; [rewrite length_fmap; by apply HK|].
  intros W (x & -> & _)%list_elem_of_fmap.
  destruct (HF x) as [[Hn Hm] Hd]. apply shaped_spec. split; [done|].
  intros row Hrow. apply shaped_spec. split; [by apply Hm|].
  intros cell Hcell. apply shaped1_spec. by apply (Hd row).
Qed.

Lemma wf5_cells_packed {A} (G : A → list (list R)) B K d p
    (X : list (list A)) :
  has_dims B K X → (∀ x, has_dims d p (G x)) →
  wf5 (T5 (B, 1, K, d, p) (lmap (λ xs, [lmap G xs]) X)) = true.
Proof.
  intros [HB HK] HG. unfold wf5. simpl. apply shaped_spec.
  split; [by rewrite length_fmap|].
  intros ys (xs & -> & Hxs)%list_elem_of_fmap. apply shaped_spec.
  split; [done|]. intros zs ->%list_elem_of_singleton. apply shaped_spec.
  split; [rewrite length_fmap; by apply HK|].
  intros cell (x & -> & _)%list_elem_of_fmap.
  destruct (HG x) as [Hd Hp]. apply shaped_spec. split; [done|].
  intros row Hrow. apply shaped1_spec. by apply Hp.
Qed.

Lemma at5_cells {A} s (G : A → list (list R)) (X : list (list A)) b k c p :
  at5 (T5 s (lmap (λ xs, [lmap G xs]) X)) b 0 k c p =
    mlookup X b k ≫= λ x, mlookup (G x) c p.
Proof.
  unfold at5, mlookup. simpl. rewrite list_lookup_fmap.
  destruct (X !! b) as [xs|]; simpl; [|done].
  rewrite list_lookup_fmap. by destruct (xs !! k).
Qed.

Lemma ginv_block_dims n (M : list (list R)) :
  has_dims n n (ginv_block n M) ∧
  ∀ row cell, row ∈ ginv_block n M → cell ∈ row → length cell = 2.
Proof.
  rewrite ginv_block_seq. split; [split|].
  - by rewrite length_fmap, length_seq.
  - intros row (a & -> & _)%list_elem_of_fmap.
    by rewrite length_fmap, length_seq.
  - intros row cell (a & -> & _)%list_elem_of_fmap
      (b & -> & _)%list_elem_of_fmap. done.
Qed.

(** X3: on every well-formed block tensor of shape [(B, K, 2C, 2C)],
    [ginv] returns a well-formed tensor of shape [(B, K, C, C, 2)] whose
    entry [(i, j)] has the cell [(2i, 2j)] as real part and the cell
    [(2i + 1, 2j)] as imaginary part: the odd columns are never read. *)
Theorem ginv_reads_even_columns (m : tensor4 R) (B K C b k i j : nat) :
  shape4 m = (B, K, 2 * C, 2 * C) → wf4 m = true →
  b < B → k < K → i < C → j < C →
  ∃ w, ginv m = Ok w ∧ shape5 w = (B, K, C, C, 2) ∧ wf5 w = true ∧
    is_Some (at5 w b k i j 0) ∧
    at5 w b k i j 0 = at4 m b k (2 * i) (2 * j) ∧
    at5 w b k i j 1 = at4 m b k (2 * i + 1) (2 * j).
Proof.
  intros Hs Hwf Hb Hk Hi Hj.
  destruct (wf4_dims m B K _ _ Hs Hwf) as [HX HM].
  destruct m as [sh X]. cbn [shape4 data4] in *. subst sh.
  pose proof (ginv_eval B K C id X HX) as Hg. rewrite bmap_id in Hg.
  rewrite Hg. clear Hg.
  eexists. split; [done|]. split; [done|].
  split; [apply wf5_bmap; [done|]; intros M; apply ginv_block_dims|].
  rewrite !at5_item. unfold at4. cbn [data4 data5]. rewrite mlookup_bmap.
  destruct (has_dims_lookup B K X b k HX Hb Hk) as [M HMl].
  rewrite HMl. cbn [fmap option_fmap option_map mbind option_bind].
  specialize (HM b k M HMl).
  rewrite ginv_block_seq.
  rewrite (seq2_mlookup (λ a b, [(M !!! (0 + a * 2)) !!! (0 + b * 2);
                                (M !!! (1 + a * 2)) !!! (0 + b * 2)]))
    by done.
  cbn [mbind option_bind lookup list_lookup].
  destruct (has_dims_lookup _ _ M (2 * i) (2 * j) HM) as [x Hx]; [lia..|].
  destruct (has_dims_lookup _ _ M (2 * i + 1) (2 * j) HM) as [y Hy]; [lia..|].
  rewrite Hx, Hy.
  apply mlookup_total in Hx, Hy.
  replace (0 + i * 2) with (2 * i) by lia.
  replace (0 + j * 2) with (2 * j) by lia.
  replace (1 + i * 2) with (2 * i + 1) by lia.
  rewrite Hx, Hy. done.
Qed.

(** X4: on every well-formed block tensor of shape [(B, K, 2C, 2C)],
    [finv] returns a well-formed packed tensor of shape
    [(B, 1, K, 2, C(C+1)/2)] whose entry for the pair [(i, j)], [i ≤ j],
    has the cell [(2i, 2j)] as real part and the negated cell
    [(2i, 2j + 1)] as imaginary part: only these cells of the upper
    triangle are read. *)
Theorem finv_reads_upper_triangle (m : tensor4 R) (B K C b k p i j : nat) :
  shape4 m = (B, K, 2 * C, 2 * C) → wf4 m = true →
  b < B → k < K → triu_pairs C C !! p = Some (i, j) →
  ∃ a, finv m = Ok a ∧ shape5 a = (B, 1, K, 2, tri C) ∧ wf5 a = true ∧
    is_Some (at5 a b 0 k 0 p) ∧
    at5 a b 0 k 0 p = at4 m b k (2 * i) (2 * j) ∧
    at5 a b 0 k 1 p = neg <$> at4 m b k (2 * i) (2 * j + 1).
Proof.
  intros Hs Hwf Hb Hk Hp.
  assert (i ≤ j ∧ i < C ∧ j < C) as (Hij & Hi & Hj).
  { apply elem_of_triu_pairs. by eapply list_elem_of_lookup_2. }
  destruct (wf4_dims m B K _ _ Hs Hwf) as [HX HM].
  destruct m as [sh X]. cbn [shape4 data4] in *. subst sh.
  pose proof (finv_eval B K C id X HX) as Hg. rewrite bmap_id in Hg.
  rewrite Hg. clear Hg.
  eexists. split; [done|]. split; [done|]. split.
  { apply wf5_cells_packed; [done|]. intros M. split; [done|].
    intros row [->| ->%list_elem_of_singleton]%elem_of_cons;
      unfold gather, twice, twice1;
      by rewrite ?length_fmap, zip_index_lists, length_fmap, length_triu_pairs. }
  rewrite !at5_cells. unfold at4. cbn [data4].
  destruct (has_dims_lookup B K X b k HX Hb Hk) as [M HMl].
  rewrite HMl. cbn [mbind option_bind]. specialize (HM b k M HMl).
  assert (E0 : ∀ l0 l1 : list R, mlookup [l0; l1] 0 p = l0 !! p) by done.
  assert (E1 : ∀ l0 l1 : list R, mlookup [l0; l1] 1 p = l1 !! p) by done.
  rewrite !E0, E1.
  unfold gather, twice, twice1. rewrite !zip_index_lists.
  rewrite !list_lookup_fmap, Hp.
  cbn [fmap option_fmap option_map fst snd id].
  destruct (has_dims_lookup _ _ M (2 * i) (2 * j) HM) as [x Hx]; [lia..|].
  destruct (has_dims_lookup _ _ M (2 * i) (2 * j + 1) HM) as [y Hy]; [lia..|].
  rewrite Hx, Hy. apply mlookup_total in Hx, Hy.
  rewrite !(Nat.mul_comm _ 2), Hx, Hy. done.
Qed.
End CodecProps.

Section CodecComposition.
Context `{Scalar R}.

(** X5: without any assumption on the diagonal, [finv (f a)] returns the
    packed input with the imaginary parts of the diagonal entries
    negated: [f] writes the diagonal imaginary part [x] last at
    [(2i, 2i + 1)], where [finv] reads it back as [-x]; every other
    packed entry comes back unchanged. *)
Theorem finv_f_negates_diagonal_imag (a : tensor5 R)
    (B K C b k p i j : nat) (r x : R) :
  shape5 a = (B, 1, K, 2, tri C) → wf5 a = true →
  triu_pairs C C !! p = Some (i, j) →
  at5 a b 0 k 0 p = Some r → at5 a b 0 k 1 p = Some x →
  ∃ m a', f a = Ok m ∧ finv m = Ok a' ∧ shape5 a' = shape5 a ∧
    wf5 a' = true ∧
    at5 a' b 0 k 0 p = Some r ∧
    at5 a' b 0 k 1 p = Some (if decide (i = j) then neg x else x).
Proof.
  intros Hs Hwf Hp Hr Hx.
  pose proof (packed_cells_wf _ _ _ _ _ Hs Hwf) as HX.
  rewrite (f_eval a B K (tri C) Hs Hwf) by (by rewrite channels_of_tri).
  rewrite channels_of_tri. eexists. eexists. split; [done|].
  rewrite (finv_eval B K C) by apply HX.
  split; [done|]. split; [done|]. split.
  { apply wf5_cells_packed; [apply HX|]. intros M. split; [done|].
    intros row [->| ->%list_elem_of_singleton]%elem_of_cons;
      unfold gather, twice, twice1;
      by rewrite ?length_fmap, zip_index_lists, length_fmap, length_triu_pairs. }
  rewrite (at5_packed a B K 2 (tri C)) in Hr, Hx by done.
  rewrite !at5_cells.
  destruct (mlookup (packed_cells a) b k) as [cell|] eqn:Hcell;
    cbn [mbind option_bind] in *; [|done].
  destruct (mlookup_elem _ _ _ _ Hcell) as (xs & Hxs & Hin).
  destruct (cells_lengths _ _ _ _ _ _ HX Hxs Hin) as [Hre Him].
  assert (Hrow : ∀ c v, mlookup cell c p = Some v → (cell !!! c) !! p = Some v).
  { intros c v Hv. unfold mlookup in Hv.
    destruct (cell !! c) as [row|] eqn:Hc; simpl in Hv; [|done].
    by rewrite (list_lookup_total_correct _ _ _ Hc). }
  apply Hrow in Hr, Hx.
  destruct (f_block_cells C _ _ p i j r x Hre Him Hp Hr Hx)
    as (_ & E2 & _ & _ & _ & E6 & E7).
  assert (E0 : ∀ l0 l1 : list R, mlookup [l0; l1] 0 p = l0 !! p) by done.
  assert (E1 : ∀ l0 l1 : list R, mlookup [l0; l1] 1 p = l1 !! p) by done.
  rewrite E0, E1.
  unfold gather, twice, twice1. rewrite !zip_index_lists.
  rewrite !list_lookup_fmap, Hp.
  cbn [fmap option_fmap option_map fst snd].
  rewrite !(Nat.mul_comm _ 2).
  rewrite (mlookup_total _ _ _ _ E2). split; [done|].
  case_decide as Hd.
  - subst j. by rewrite (mlookup_total _ _ _ _ E6).
  - assert (i ≤ j ∧ i < C ∧ j < C) as (Hij & _).
    { apply elem_of_triu_pairs. by eapply list_elem_of_lookup_2. }
    destruct E7 as [E7 _]; [lia|].
    by rewrite (mlookup_total _ _ _ _ E7), neg_neg.
Qed.

(** X6: on a well-formed packed input of shape [(B, 1, K, 2, P)], [f]
    returns exactly when [P] is a triangular number, and what it returns
    is a well-formed tensor of shape [(B, K, 2C, 2C)], [C] the channel
    count of [P]. *)
Theorem f_accepts_iff_triangular (a : tensor5 R) (B K P : nat) :
  shape5 a = (B, 1, K, 2, P) → wf5 a = true →
  ((∃ m, f a = Ok m) ↔ ∃ C, P = tri C) ∧
  ∀ m, f a = Ok m →
    shape4 m = (B, K, 2 * channels_of P, 2 * channels_of P) ∧ wf4 m = true.
Proof.
  intros Hs Hwf.
  pose proof (packed_cells_wf _ _ _ _ _ Hs Hwf) as [HX _].
  destruct (decide (tri (channels_of P) = P)) as [HP|HP].
  - rewrite (f_eval a B K P Hs Hwf HP). split.
    + split; [by exists (channels_of P)|by eexists].
    + intros m [= <-]. split; [done|].
      apply wf4_bmap; [done|]. intros cell. apply f_block_dims.
  - rewrite (f_mismatch a B K 2 P Hs) by (lia || done). split; [|done].
    split; [by intros [m ?]|]. intros [C ->]. by rewrite channels_of_tri in HP.
Qed.

(** The matrices of a full complex tensor are Hermitian: the entry
    [(j, i)] is the conjugate of the entry [(i, j)]. *)
Definition hermitian (w : tensor5 R) : Prop :=
  ∀ b k i j re im,
    at5 w b k i j 0 = Some re → at5 w b k i j 1 = Some im →
    at5 w b k j i 0 = Some re ∧ at5 w b k j i 1 = Some (neg im).

Lemma at5_total (w : tensor5 R) B K C b k W i j c :
  shape5 w = (B, K, C, C, 2) → wf5 w = true →
  mlookup (data5 w) b k = Some W → i < C → j < C → c < 2 →
  at5 w b k i j c = Some (((W !!! i) !!! j) !!! c).
Proof.
  intros Hs Hwf HW Hi Hj Hc.
  destruct (wf5_items w B K C C 2 Hs Hwf) as [_ Hitems].
  destruct (mlookup_elem _ _ _ _ HW) as (xs & Hxs & HWin).
  destruct (Hitems xs W Hxs HWin) as [Hd Hcells].
  rewrite at5_item, HW. cbn [mbind option_bind].
  destruct (has_dims_lookup C C W i j Hd Hi Hj) as [cell Hcell].
  rewrite Hcell. cbn [mbind option_bind].
  rewrite (mlookup_lookup_total W i j cell Hcell).
  apply list_lookup_lookup_total_lt.
  unfold mlookup in Hcell.
  destruct (W !! i) as [row|] eqn:Hrow; simpl in Hcell; [|done].
  rewrite (Hcells row cell); [done|by eapply list_elem_of_lookup_2..].
Qed.

Lemma g_block_hermitian_cells C (W : list (list (list R))) :
  has_dims C C W →
  (∀ i j, i < C → j < C →
     ((W !!! j) !!! i) !!! 0 = ((W !!! i) !!! j) !!! 0 ∧
     ((W !!! j) !!! i) !!! 1 = neg (((W !!! i) !!! j) !!! 1)) →
  ∀ r c, r < 2 * C → c < 2 * C →
    mlookup (g_block C W) r c = mlookup (g_block C W) c r.
Proof.
  intros Hd Hh r c Hr Hc.
  assert (∃ i ri, r = 2 * i + ri ∧ ri < 2 ∧ i < C) as (i & ri & -> & Hri & Hi).
  { exists (r / 2), (r mod 2). pose proof (Nat.div_mod_eq r 2).
    pose proof (Nat.mod_upper_bound r 2).
    split; [lia|]. split; [lia|]. apply Nat.Div0.div_lt_upper_bound. lia. }
  assert (∃ j rj, c = 2 * j + rj ∧ rj < 2 ∧ j < C) as (j & rj & -> & Hrj & Hj).
  { exists (c / 2), (c mod 2). pose proof (Nat.div_mod_eq c 2).
    pose proof (Nat.mod_upper_bound c 2).
    split; [lia|]. split; [lia|]. apply Nat.Div0.div_lt_upper_bound. lia. }
  destruct (g_block_cells C W i j Hd Hi Hj) as (A1 & A2 & A3 & A4).
  destruct (g_block_cells C W j i Hd Hj Hi) as (B1 & B2 & B3 & B4).
  destruct (Hh i j Hi Hj) as [Hre Him].
  cbv zeta in *. rewrite Hre in B1, B2. rewrite Him in B3, B4.
  rewrite neg_neg in B3.
  destruct ri as [|[|?]]; [| |lia]; destruct rj as [|[|?]]; try lia;
    rewrite ?Nat.add_0_r; congruence.
Qed.

(** X7: [g] maps a batch of Hermitian matrices to symmetric real blocks:
    the result equals its own transpose in the last two axes. *)
Theorem g_hermitian_symmetric (w : tensor5 R) (B K C : nat) :
  shape5 w = (B, K, C, C, 2) → wf5 w = true → hermitian w →
  ∃ m, g w = Ok m ∧ shape4 m = (B, K, 2 * C, 2 * C) ∧ transpose23 m = m.
Proof.
  intros Hs Hwf Hh.
  destruct (g_ok w B K C Hs Hwf) as [Hg _].
  destruct (wf5_items w B K C C 2 Hs Hwf) as [HX Hitems].
  eexists. split; [exact Hg|]. split; [done|].
  unfold transpose23. cbn [shape4 data4]. f_equal.
  change (lmap (lmap ?F) ?D) with (bmap F D).
  rewrite bmap_bmap. apply bmap_ext. intros xs W Hxs HW.
  destruct (Hitems xs W Hxs HW) as [Hd _].
  apply list_elem_of_lookup_1 in Hxs as [b Hb].
  apply list_elem_of_lookup_1 in HW as [k Hk].
  assert (HWl : mlookup (data5 w) b k = Some W).
  { unfold mlookup. by rewrite Hb. }
  apply transpose2_symmetric; [apply g_block_dims|].
  apply g_block_hermitian_cells; [done|].
  intros i j Hi Hj.
  destruct (Hh b k i j _ _
              (at5_total w B K C b k W i j 0 Hs Hwf HWl Hi Hj ltac:(lia))
              (at5_total w B K C b k W i j 1 Hs Hwf HWl Hi Hj ltac:(lia)))
    as [E0 E1].
  rewrite (at5_total w B K C b k W j i 0 Hs Hwf HWl Hj Hi) in E0 by lia.
  rewrite (at5_total w B K C b k W j i 1 Hs Hwf HWl Hj Hi) in E1 by lia.
  by simplify_eq.
Qed.
End CodecComposition.

(** One [4 × 4] real block, and a Hermitian [2 × 2] complex matrix. *)
Definition block_example : tensor4 Z :=
  T4 (1, 1, 4, 4)
     [[[[1; 2; 3; 4]; [5; 6; 7; 8]; [9; 10; 11; 12]; [13; 14; 15; 16]]]]%Z.
Definition hermitian_example : tensor5 Z :=
  T5 (1, 1, 2, 2, 2) [[[[[1; 0]; [2; 7]]; [[2; -7]; [3; 0]]]]]%Z.

Lemma ginv_reads_even_columns_witness :
  ∃ w, ginv block_example = Ok w ∧ shape5 w = (1, 1, 2, 2, 2) ∧
    wf5 w = true ∧
    is_Some (at5 w 0 0 0 1 0) ∧
    at5 w 0 0 0 1 0 = at4 block_example 0 0 (2 * 0) (2 * 1) ∧
    at5 w 0 0 0 1 1 = at4 block_example 0 0 (2 * 0 + 1) (2 * 1).
Proof.
  apply (ginv_reads_even_columns block_example 1 1 2 0 0 0 1);
    [reflexivity | reflexivity | lia..].
Defined.

Lemma finv_reads_upper_triangle_witness :
  ∃ a, finv block_example = Ok a ∧ shape5 a = (1, 1, 1, 2, tri 2) ∧
    wf5 a = true ∧
    is_Some (at5 a 0 0 0 0 1) ∧
    at5 a 0 0 0 0 1 = at4 block_example 0 0 (2 * 0) (2 * 1) ∧
    at5 a 0 0 0 1 1 = neg <$> at4 block_example 0 0 (2 * 0) (2 * 1 + 1).
Proof.
  apply (finv_reads_upper_triangle block_example 1 1 2 0 0 1 0 1);
    [reflexivity | reflexivity | lia | lia | reflexivity].
Defined.

Lemma finv_f_negates_diagonal_imag_witness :
  ∃ m a', f packed_diag_imag = Ok m ∧ finv m = Ok a' ∧
    shape5 a' = shape5 packed_diag_imag ∧ wf5 a' = true ∧
    at5 a' 0 0 0 0 0 = Some 5%Z ∧
    at5 a' 0 0 0 1 0 = Some (if decide (0 = 0) then neg 7%Z else 7%Z).
Proof.
  apply (finv_f_negates_diagonal_imag packed_diag_imag 1 1 1 0 0 0 0 0 5%Z 7%Z);
    reflexivity.
Defined.

Lemma f_accepts_iff_triangular_witness :
  ((∃ m, f packed_example = Ok m) ↔ ∃ C, 3 = tri C) ∧
  ∀ m, f packed_example = Ok m →
    shape4 m = (1, 1, 2 * channels_of 3, 2 * channels_of 3) ∧ wf4 m = true.
Proof.
  apply (f_accepts_iff_triangular packed_example 1 1 3); reflexivity.
Defined.

Lemma hermitian_example_ok : hermitian hermitian_example.
Proof.
  intros b k i j re im Hre Him.
  destruct b as [|b]; [|discriminate Hre].
  destruct k as [|k]; [|discriminate Hre].
  destruct i as [|[|i]]; [| |discriminate Hre];
    (destruct j as [|[|j]]; [| |discriminate Hre]);
    injection Hre as <-; injection Him as <-; split; reflexivity.
Defined.

Lemma g_hermitian_symmetric_witness :
  ∃ m, g hermitian_example = Ok m ∧ shape4 m = (1, 1, 2 * 2, 2 * 2) ∧
    transpose23 m = m.
Proof.
  apply (g_hermitian_symmetric hermitian_example 1 1 2);
    [reflexivity | reflexivity | apply hermitian_example_ok].
Defined.

(** * Further properties of [forward], [pos_def], [convolve1d] and
      [notch_filter] *)

Section ForwardErrors.
Context `{Scalar R, LinAlg R}.

(** X8: on a well-formed packed input of triangular packed length with
    at least one batch item and one bin, [forward] with [b] absent
    encodes [a], builds as reference block the real identity of size
    [2C] for every batch item and bin, in the default dtype on the
    default device, and hands it to the Cholesky routine: a failure of
    that routine on the identity is the failure of [forward]. *)
Theorem reference_block_none_identity (a : tensor5 R) (ma : meta)
    (B K C : nat) :
  shape5 a = (B, 1, K, 2, tri C) → wf5 a = true → 0 < B → 0 < K →
  (∃ ash, f a = Ok ash) ∧
  reference_block (Tagged ma a) None =
    Ok (Tagged default_meta (identity_block B K C)) ∧
  ∀ e, cholesky (identity_block B K C) = Err e →
    forward (Tagged ma a) None = Err e.
Proof.
  intros Hs Hwf HB HK.
  pose proof (f_eval a B K (tri C) Hs Hwf) as Hf.
  rewrite channels_of_tri in Hf. specialize (Hf eq_refl).
  pose proof (reference_block_none a ma B 1 K 2 (tri C) Hs HB HK) as Href.
  rewrite channels_of_tri in Href.
  split; [by eexists|]. split; [done|].
  intros e He. unfold forward, whitened. cbn [value_of].
  rewrite Href, Hs. unfold keep_meta. cbn [value_of meta_of].
  rewrite Hf. cbn [mbind result_bind value_of meta_of].
  by rewrite He.
Qed.

(** X9: on a well-formed packed input with an empty batch axis or an
    empty bin axis, [forward] with [b] absent fails when it stacks the
    identity, whatever the linear-algebra primitives are: [f a] has
    returned, and no primitive is reached. *)
Theorem forward_none_empty_stack (a : tensor5 R) (ma : meta) (B K C : nat) :
  shape5 a = (B, 1, K, 2, tri C) → wf5 a = true → B = 0 ∨ K = 0 →
  (∃ m, f a = Ok m) ∧ reference_block (Tagged ma a) None = Err EmptyStack ∧
  forward (Tagged ma a) None = Err EmptyStack.
Proof.
  intros Hs Hwf HBK.
  pose proof (f_eval a B K (tri C) Hs Hwf) as Hf.
  rewrite channels_of_tri in Hf. specialize (Hf eq_refl).
  split; [by eexists|].
  assert (Href : reference_block (Tagged ma a) None = Err EmptyStack).
  { unfold reference_block. cbn [value_of]. rewrite Hs.
    destruct K as [|K]; [done|].
    rewrite stack0_replicate by lia. cbn [mbind result_bind].
    destruct HBK as [->|?]; [done|lia]. }
  split; [done|].
  unfold forward, whitened, keep_meta. cbn [value_of].
  rewrite Hs, Hf, Href. done.
Qed.
End ForwardErrors.

Lemma reference_block_none_identity_witness :
  (∃ ash, f packed_example = Ok ash) ∧
  reference_block (Tagged (Float64, Cpu) packed_example) None =
    Ok (Tagged default_meta (identity_block 1 1 2)) ∧
  ∀ e, cholesky (identity_block 1 1 2) = Err e →
    forward (Tagged (Float64, Cpu) packed_example) None = Err e.
Proof.
  apply (reference_block_none_identity packed_example (Float64, Cpu) 1 1 2);
    [reflexivity | reflexivity | lia | lia].
Defined.

Lemma forward_none_empty_stack_witness :
  (∃ m, f empty_batch = Ok m) ∧
  reference_block (Tagged (Float32, Cpu) empty_batch) None = Err EmptyStack ∧
  forward (Tagged (Float32, Cpu) empty_batch) None = Err EmptyStack.
Proof.
  apply (forward_none_empty_stack empty_batch (Float32, Cpu) 0 1 1);
    [reflexivity | reflexivity | left; reflexivity].
Defined.

Section PosDefProps.
Context `{Scalar R}.

Lemma shaped_fmap {A B} (wfA : A → bool) (wfB : B → bool) (F : A → B) n l :
  (∀ x, wfA x = true → wfB (F x) = true) →
  shaped wfA n l = true → shaped wfB n (F <$> l) = true.
Proof.
  intros HF [Hlen Hall]%shaped_spec. apply shaped_spec.
  split; [by rewrite length_fmap|].
  intros y (x & -> & Hx)%list_elem_of_fmap. by apply HF, Hall.
Qed.

Lemma wf5_bmap3 (G : list (list R) → list (list R)) B O K m n D :
  (∀ cell, has_dims m n cell → has_dims m n (G cell)) →
  wf5 (T5 (B, O, K, m, n) D) = true →
  wf5 (T5 (B, O, K, m, n) (bmap3 G D)) = true.
Proof.
  intros HG. unfold wf5, bmap3, bmap. cbn [shape5 data5].
  apply shaped_fmap. intros xs. apply shaped_fmap. intros ys.
  apply shaped_fmap. intros cell Hcell.
  apply shaped_matrix, HG. by apply shaped_matrix.
Qed.

Lemma pos_def_cell_dims C alpha eps (cell : list (list R)) :
  has_dims 2 (tri C) cell → has_dims 2 (tri C) (pos_def_cell C alpha eps cell).
Proof.
  intros [Hlen Hrows]. unfold pos_def_cell. split; [by rewrite length_alter|].
  intros row (i & Hi)%list_elem_of_lookup_1.
  destruct (decide (i = 0)) as [->|Hne].
  - rewrite list_lookup_alter_eq in Hi.
    destruct (cell !! 0) as [r0|] eqn:H0; simplify_eq/=.
    rewrite length_zip_with, length_indices_diag.
    rewrite (Hrows r0) by (by eapply list_elem_of_lookup_2). lia.
  - rewrite list_lookup_alter_ne in Hi by done.
    apply Hrows. by eapply list_elem_of_lookup_2.
Qed.

Lemma pos_def_cell_imag C alpha eps (cell : list (list R)) :
  pos_def_cell C alpha eps cell !!! 1 = cell !!! 1.
Proof. unfold pos_def_cell. by apply list_lookup_total_alter_ne. Qed.

Lemma packed_cells_bmap3 s (G : list (list R) → list (list R)) D :
  packed_cells (T5 s (bmap3 G D)) = bmap G (packed_cells (T5 s D)).
Proof.
  unfold packed_cells, bmap3, bmap. cbn [data5].
  rewrite <- !list_fmap_compose. apply list_fmap_ext. intros i xs _. simpl.
  apply concat_lmap_lmap.
Qed.

(** X10: [pos_def] fails with an index error when the packed length is
    not triangular: the diagonal mask has [C (C + 1) / 2] entries for the
    rounded channel count [C] and cannot index an axis of another size:
    the first masked read fails. *)
Theorem pos_def_rejects_nontriangular (h : gmap nat (tensor5 R)) (l : nat)
    (ws : tensor5 R) (alpha eps : R) (B O K d P : nat) :
  h !! l = Some ws → shape5 ws = (B, O, K, d, P) →
  tri (channels_of P) ≠ P →
  pos_def l alpha eps h = Err IndexError.
Proof.
  intros Hl Hs HP. unfold pos_def, read. rewrite Hl.
  cbn [mbind result_bind]. rewrite Hs.
  unfold masked_get5 at 2. rewrite Hs, length_indices_diag.
  destruct (Nat.eqb_spec (tri (channels_of P)) P) as [?|_]; [done|].
  by rewrite andb_false_r.
Qed.

(** X11: [pos_def] keeps a packed Hermitian input packed: the tensor it
    returns is well formed with the same shape, its diagonal entries keep
    a zero imaginary part when the input's have one, and [f] encodes it
    to a symmetric block. *)
Theorem pos_def_preserves_packing (h : gmap nat (tensor5 R)) (l : nat)
    (ws : tensor5 R) (alpha eps : R) (B K C : nat) :
  h !! l = Some ws → shape5 ws = (B, 1, K, 2, tri C) → wf5 ws = true →
  ∃ l' h' ws_pf,
    pos_def l alpha eps h = Ok (l', h') ∧ h' !! l' = Some ws_pf ∧
    shape5 ws_pf = (B, 1, K, 2, tri C) ∧ wf5 ws_pf = true ∧
    (diag_imag_zero C ws → diag_imag_zero C ws_pf) ∧
    ∃ m, f ws_pf = Ok m ∧ shape4 m = (B, K, 2 * C, 2 * C) ∧
         transpose23 m = m.
Proof.
  intros Hl Hs Hwf.
  rewrite (pos_def_eval h l ws alpha eps B K C Hl Hs Hwf).
  eexists _, _, _. split; [done|]. split; [apply lookup_insert_eq|].
  split; [done|].
  assert (Hwf' : wf5 (T5 (B, 1, K, 2, tri C)
                        (bmap3 (pos_def_cell C alpha eps) (data5 ws))) = true).
  { apply wf5_bmap3; [apply pos_def_cell_dims|].
    destruct ws as [sh D]. cbn [shape5 data5] in *. by subst sh. }
  split; [done|]. split.
  - unfold diag_imag_zero. rewrite packed_cells_bmap3.
    destruct ws as [sh D]. cbn [shape5 data5] in *. subst sh.
    unfold bmap. rewrite Forall_fmap. intros Hz.
    eapply Forall_impl; [exact Hz|]. intros xs Hxs. simpl.
    rewrite Forall_fmap. eapply Forall_impl; [exact Hxs|].
    intros cell Hcell. simpl. by rewrite pos_def_cell_imag.
  - by apply f_symmetric_any.
Qed.
End PosDefProps.

Lemma pos_def_rejects_nontriangular_witness :
  pos_def 0 2%Z 1%Z {[0 := packed_nontriangular]} = Err IndexError.
Proof.
  apply (pos_def_rejects_nontriangular {[0 := packed_nontriangular]} 0
           packed_nontriangular 2%Z 1%Z 1 1 1 2 2);
    [reflexivity | reflexivity | discriminate].
Defined.

Lemma pos_def_preserves_packing_witness :
  ∃ l' h' ws_pf,
    pos_def 0 2%Z 1%Z {[0 := packed_example]} = Ok (l', h') ∧
    h' !! l' = Some ws_pf ∧
    shape5 ws_pf = (1, 1, 1, 2, tri 2) ∧ wf5 ws_pf = true ∧
    (diag_imag_zero 2 packed_example → diag_imag_zero 2 ws_pf) ∧
    ∃ m, f ws_pf = Ok m ∧ shape4 m = (1, 1, 2 * 2, 2 * 2) ∧
         transpose23 m = m.
Proof.
  apply (pos_def_preserves_packing {[0 := packed_example]} 0 packed_example
           2%Z 1%Z 1 1 2); reflexivity.
Defined.

Section BlockRoundTrip.
Context `{Scalar R}.

(** The [2 × 2] cells of a block are those of complex numbers:
    [[x, -y], [y, x]]. *)
Definition complex_block (m : tensor4 R) : Prop :=
  ∀ b k i j x y,
    at4 m b k (2 * i) (2 * j) = Some x →
    at4 m b k (2 * i + 1) (2 * j) = Some y →
    at4 m b k (2 * i + 1) (2 * j + 1) = Some x ∧
    at4 m b k (2 * i) (2 * j + 1) = Some (neg y).

Lemma g_ginv_block_cells C (M : list (list R)) i j :
  has_dims (2 * C) (2 * C) M → i < C → j < C →
  let G := g_block C (ginv_block C M) in
  mlookup G (2 * i) (2 * j) = mlookup M (2 * i) (2 * j) ∧
  mlookup G (2 * i + 1) (2 * j + 1) = mlookup M (2 * i) (2 * j) ∧
  mlookup G (2 * i) (2 * j + 1) = neg <$> mlookup M (2 * i + 1) (2 * j) ∧
  mlookup G (2 * i + 1) (2 * j) = mlookup M (2 * i + 1) (2 * j).
Proof.
  intros HM Hi Hj G. subst G.
  destruct (ginv_block_dims C M) as [HW _].
  destruct (g_block_cells C (ginv_block C M) i j HW Hi Hj)
    as (E1 & E2 & E3 & E4).
  assert (Hcell : (ginv_block C M !!! i) !!! j =
                    [(M !!! (2 * i)) !!! (2 * j);
                     (M !!! (2 * i + 1)) !!! (2 * j)]).
  { rewrite ginv_block_seq.
    rewrite (seq2_lookup_total
               (λ a b, [(M !!! (0 + a * 2)) !!! (0 + b * 2);
                        (M !!! (1 + a * 2)) !!! (0 + b * 2)])) by done.
    replace (0 + i * 2) with (2 * i) by lia.
    replace (0 + j * 2) with (2 * j) by lia.
    by replace (1 + i * 2) with (2 * i + 1) by lia. }
  cbv zeta in *. rewrite Hcell in E1, E2, E3, E4.
  change ([?u; ?v] !!! 0) with u in E1, E2.
  change ([?u; ?v] !!! 1) with v in E3, E4.
  destruct (has_dims_lookup _ _ M (2 * i) (2 * j) HM) as [x Hx]; [lia..|].
  destruct (has_dims_lookup _ _ M (2 * i + 1) (2 * j) HM) as [y Hy]; [lia..|].
  rewrite Hx, Hy. apply mlookup_total in Hx, Hy.
  rewrite Hx in E1, E2. rewrite Hy in E3, E4. done.
Qed.

(** X12: on a well-formed block tensor of shape [(B, K, 2C, 2C)],
    [g (ginv m)] gives [m] back exactly when every [2 × 2] cell of [m]
    has the form [[x, -y], [y, x]]: these blocks are the image of [g],
    and on them [ginv] is also a right inverse. *)
Theorem g_ginv_iff_complex_block (m : tensor4 R) (B K C : nat) :
  shape4 m = (B, K, 2 * C, 2 * C) → wf4 m = true →
  ∃ w, ginv m = Ok w ∧ (g w = Ok m ↔ complex_block m).
Proof.
  intros Hs Hwf.
  destruct (wf4_dims m B K _ _ Hs Hwf) as [HX HM].
  destruct m as [sh X]. cbn [shape4 data4] in *. subst sh.
  pose proof (ginv_eval B K C id X HX) as Hg. rewrite bmap_id in Hg.
  rewrite Hg. clear Hg. eexists. split; [done|].
  rewrite (g_eval _ B K C C 2); [|done|done|lia|by apply has_dims_bmap].
  cbn [data5]. rewrite bmap_bmap.
  split.
  - intros [= HXeq] b k i j x y Hx Hy. unfold at4 in *. cbn [data4] in *.
    destruct (mlookup X b k) as [M|] eqn:HMl; cbn [mbind option_bind] in *;
      [|done].
    assert (HMeq : g_block C (ginv_block C M) = M).
    { pose proof (f_equal (λ D, mlookup D b k) HXeq) as Hl. cbv beta in Hl.
      rewrite mlookup_bmap, HMl in Hl. injection Hl as Hl. exact Hl. }
    specialize (HM b k M HMl).
    destruct (has_dims_lookup_inv _ _ M (2 * i) (2 * j) HM) as [Hi Hj];
      [by eexists|].
    destruct (g_ginv_block_cells C M i j HM) as (_ & E2 & E3 & _); [lia..|].
    cbv zeta in *. rewrite HMeq in E2, E3. rewrite E2, E3, Hx, Hy. done.
  - intros Hcb. do 2 f_equal.
    rewrite <- (bmap_id X) at 2. apply bmap_ext. intros xs M Hxs HMin.
    unfold id.
    apply list_elem_of_lookup_1 in Hxs as [b Hb].
    apply list_elem_of_lookup_1 in HMin as [k Hk].
    assert (HMl : mlookup X b k = Some M).
    { unfold mlookup. by rewrite Hb. }
    specialize (HM b k M HMl).
    apply (matrix_eq (2 * C) (2 * C)); [apply g_block_dims|done|].
    intros r c Hr Hc.
    assert (∃ i ri, r = 2 * i + ri ∧ ri < 2 ∧ i < C) as (i & ri & -> & Hri & Hi).
    { exists (r / 2), (r mod 2). pose proof (Nat.div_mod_eq r 2).
      pose proof (Nat.mod_upper_bound r 2).
      split; [lia|]. split; [lia|]. apply Nat.Div0.div_lt_upper_bound. lia. }
    assert (∃ j rj, c = 2 * j + rj ∧ rj < 2 ∧ j < C) as (j & rj & -> & Hrj & Hj).
    { exists (c / 2), (c mod 2). pose proof (Nat.div_mod_eq c 2).
      pose proof (Nat.mod_upper_bound c 2).
      split; [lia|]. split; [lia|]. apply Nat.Div0.div_lt_upper_bound. lia. }
    destruct (g_ginv_block_cells C M i j HM Hi Hj) as (E1 & E2 & E3 & E4).
    cbv zeta in *.
    destruct (has_dims_lookup _ _ M (2 * i) (2 * j) HM) as [x Hx]; [lia..|].
    destruct (has_dims_lookup _ _ M (2 * i + 1) (2 * j) HM) as [y Hy]; [lia..|].
    destruct (Hcb b k i j x y) as [F1 F2].
    { unfold at4. cbn [data4]. by rewrite HMl. }
    { unfold at4. cbn [data4]. by rewrite HMl. }
    unfold at4 in F1, F2. cbn [data4] in F1, F2. rewrite HMl in F1, F2.
    cbn [mbind option_bind] in F1, F2.
    destruct ri as [|[|?]]; [| |lia]; destruct rj as [|[|?]]; try lia;
      rewrite ?Nat.add_0_r.
    + done.
    + by rewrite E3, Hy, F2.
    + done.
    + by rewrite E2, Hx, F1.
Qed.
End BlockRoundTrip.

(** A block whose [2 × 2] cell is the complex number [1 + 2i]. *)
Definition complex_block_example : tensor4 Z :=
  T4 (1, 1, 2, 2) [[[[1; -2]; [2; 1]]]]%Z.

Lemma g_ginv_iff_complex_block_witness :
  ∃ w, ginv complex_block_example = Ok w ∧
    (g w = Ok complex_block_example ↔ complex_block complex_block_example).
Proof.
  apply (g_ginv_iff_complex_block complex_block_example 1 1 1); reflexivity.
Defined.

Section ConvolveMore.
Context `{Torch T}.

(** X13: [convolve1d] raises a value error for a waveform whose rank is
    not three, before any tensor primitive is applied: whatever the
    kernel, the padding, the options and the primitives are. *)
Theorem convolve1d_rank_check (pad : T → Z * Z → string → result T)
    (waveform kernel : T) (p : padding) (pad_type : string)
    (stride groups : Z) (use_fft : bool) (rotation_index : Z) :
  length (t_shape waveform) ≠ 3 →
  convolve1d pad waveform kernel p pad_type stride groups use_fft
    rotation_index = Err ValueError.
Proof.
  intros Hrank. unfold convolve1d.
  by destruct (Nat.eqb_spec (length (t_shape waveform)) 3).
Qed.

End ConvolveMore.

Lemma convolve1d_rank_check_witness :
  length (t_shape [8; 1]) ≠ 3 ∧
  convolve1d shape_pad [8; 1] [1; 3; 1] (PadInt 0) "constant" 1 1 false 0 =
    Err ValueError.
Proof.
  split; [discriminate|].
  apply (convolve1d_rank_check shape_pad [8; 1] [1; 3; 1]). discriminate.
Defined.

Section NotchMore.
Context `{FloatOps K}.

(** X16: for a negative odd filter width and a notch frequency in
    [(0, 1]], both assertions pass and [notch_filter] fails in
    [torch.arange], which refuses a negative length; no kernel entry is
    computed. *)
Theorem notch_filter_negative_width (notch_freq : Q) (filter_width : Z)
    (notch_width : Q) :
  (filter_width < 0)%Z → (filter_width `mod` 2 ≠ 0)%Z →
  Qlt 0 notch_freq → Qle notch_freq 1 →
  notch_filter notch_freq filter_width notch_width = Err RuntimeError.
Proof.
  intros Hneg Hodd H0 H1. unfold notch_filter.
  rewrite (proj2 (in_range_spec notch_freq)) by done.
  destruct (Z.eqb_spec (filter_width `mod` 2) 0) as [?|_]; [done|].
  cbn [negb guard_or mbind result_bind]. unfold arange.
  by destruct (Z.ltb_spec filter_width 0) as [_|?]; [|lia].
Qed.
End NotchMore.

Lemma notch_filter_negative_width_witness :
  notch_filter (1 # 2) (-3) (1 # 20) = (Err RuntimeError : result (tensor3 Q)).
Proof.
  apply (notch_filter_negative_width (1 # 2) (-3) (1 # 20));
    [reflexivity | discriminate | reflexivity | discriminate].
Defined.

Section PackedAndFull.
Context `{Scalar R}.

(** The packed tensor [a] stores the upper triangle of the complex
    matrices of [w]: its entry [p] is the entry [(i, j)] of the [p]-th
    upper-triangle pair. *)
Definition packing_of (C : nat) (a w : tensor5 R) : Prop :=
  ∀ b k p i j c, triu_pairs C C !! p = Some (i, j) → c < 2 →
    at5 a b 0 k c p = at5 w b k i j c.

Lemma f_block_eq_g_block C (re im : list R) (W : list (list (list R))) :
  length re = tri C → length im = tri C → has_dims C C W →
  (∀ p i j, triu_pairs C C !! p = Some (i, j) →
     re !! p = Some (((W !!! i) !!! j) !!! 0) ∧
     im !! p = Some (((W !!! i) !!! j) !!! 1)) →
  (∀ i j, i < C → j < C →
     ((W !!! j) !!! i) !!! 0 = ((W !!! i) !!! j) !!! 0 ∧
     ((W !!! j) !!! i) !!! 1 = neg (((W !!! i) !!! j) !!! 1)) →
  f_block C re im = g_block C W.
Proof.
  intros Hre Him HW Hpack Hherm.
  apply (matrix_eq (2 * C) (2 * C)); [apply f_block_dims|apply g_block_dims|].
  assert (Hle : ∀ i j s t, i ≤ j → j < C → s < 2 → t < 2 →
            mlookup (f_block C re im) (2 * i + s) (2 * j + t) =
            mlookup (g_block C W) (2 * i + s) (2 * j + t)).
  { intros i j s t Hij Hj Hs Ht.
    destruct (triu_lookup_of_le C i j Hij Hj) as (p & Hp & _).
    destruct (Hpack p i j Hp) as [Hr Hx].
    destruct (f_block_cells C re im p i j _ _ Hre Him Hp Hr Hx)
      as (_ & E2 & _ & E4 & E5 & E6 & E7).
    destruct (g_block_cells C W i j HW) as (G1 & G2 & G3 & G4); [lia..|].
    cbv zeta in *.
    destruct s as [|[|?]]; [| |lia]; destruct t as [|[|?]]; try lia;
      rewrite ?Nat.add_0_r.
    - by rewrite E2, G1.
    - rewrite G3. destruct (decide (i = j)) as [->|Hne].
      + rewrite E6. f_equal. destruct (Hherm j j) as [_ Hd]; [lia..|]. done.
      + destruct E7 as [E7 _]; [lia|]. done.
    - by rewrite E5, G4.
    - by rewrite E4, G2. }
  intros r c Hr Hc.
  assert (∃ i s, r = 2 * i + s ∧ s < 2 ∧ i < C) as (i & s & -> & Hs & Hi).
  { exists (r / 2), (r mod 2). pose proof (Nat.div_mod_eq r 2).
    pose proof (Nat.mod_upper_bound r 2).
    split; [lia|]. split; [lia|]. apply Nat.Div0.div_lt_upper_bound. lia. }
  assert (∃ j t, c = 2 * j + t ∧ t < 2 ∧ j < C) as (j & t & -> & Ht & Hj).
  { exists (c / 2), (c mod 2). pose proof (Nat.div_mod_eq c 2).
    pose proof (Nat.mod_upper_bound c 2).
    split; [lia|]. split; [lia|]. apply Nat.Div0.div_lt_upper_bound. lia. }
  destruct (decide (i ≤ j)) as [Hij|Hij]; [by apply Hle|].
  rewrite (f_block_symmetric C re im) by done.
  rewrite (g_block_hermitian_cells C W HW Hherm (2 * i + s) (2 * j + t))
    by done.
  apply Hle; lia.
Qed.

(** X17: [f] is [g] on packed storage: when the packed tensor [a] stores
    the upper triangles of the Hermitian matrices of [w], [f a] and
    [g w] return the same block tensor. *)
Theorem f_packed_eq_g_full (a w : tensor5 R) (B K C : nat) :
  shape5 a = (B, 1, K, 2, tri C) → wf5 a = true →
  shape5 w = (B, K, C, C, 2) → wf5 w = true →
  packing_of C a w → hermitian w →
  ∃ m, f a = Ok m ∧ g w = Ok m ∧ shape4 m = (B, K, 2 * C, 2 * C).
Proof.
  intros Hsa Hwfa Hsw Hwfw Hpack Hherm.
  pose proof (packed_cells_wf _ _ _ _ _ Hsa Hwfa) as HX.
  destruct (g_ok w B K C Hsw Hwfw) as [Hg _].
  destruct (wf5_items w B K C C 2 Hsw Hwfw) as [HY Hitems].
  rewrite (f_eval a B K (tri C) Hsa Hwfa) by (by rewrite channels_of_tri).
  rewrite channels_of_tri, Hg. eexists. split; [done|]. split; [|done].
  do 2 f_equal.
  apply (matrix_eq B K); [apply has_dims_bmap|apply has_dims_bmap, HX|]; [done|].
  intros b k Hb Hk. rewrite !mlookup_bmap.
  destruct (has_dims_lookup B K _ b k HY Hb Hk) as [W HWl].
  destruct (has_dims_lookup B K _ b k (proj1 HX) Hb Hk) as [cell Hcell].
  rewrite HWl, Hcell. cbn [fmap option_fmap option_map]. f_equal.
  destruct (mlookup_elem _ _ _ _ HWl) as (ys & Hys & HWin).
  destruct (Hitems ys W Hys HWin) as [HW _].
  destruct (mlookup_elem _ _ _ _ Hcell) as (xs & Hxs & Hin).
  destruct (cells_lengths _ _ _ _ _ _ HX Hxs Hin) as [Hre Him].
  symmetry. apply f_block_eq_g_block; [done..| |].
  - intros p i j Hp.
    assert (i ≤ j ∧ i < C ∧ j < C) as (_ & Hi & Hj).
    { apply elem_of_triu_pairs. by eapply list_elem_of_lookup_2. }
    assert (Hc : ∀ c, c < 2 →
              (cell !!! c) !! p = Some (((W !!! i) !!! j) !!! c)).
    { intros c Hc. pose proof (Hpack b k p i j c Hp Hc) as Heq.
      rewrite (at5_total w B K C b k W i j c Hsw Hwfw HWl Hi Hj Hc) in Heq.
      rewrite (at5_packed a B K 2 (tri C)) in Heq by done.
      rewrite Hcell in Heq. cbn [mbind option_bind] in Heq.
      unfold mlookup in Heq.
      destruct (cell !! c) as [row|] eqn:Hrow; simpl in Heq; [|done].
      by rewrite (list_lookup_total_correct _ _ _ Hrow). }
    split; apply Hc; lia.
  - intros i j Hi Hj.
    destruct (Hherm b k i j _ _
                (at5_total w B K C b k W i j 0 Hsw Hwfw HWl Hi Hj ltac:(lia))
                (at5_total w B K C b k W i j 1 Hsw Hwfw HWl Hi Hj ltac:(lia)))
      as [E0 E1].
    rewrite (at5_total w B K C b k W j i 0 Hsw Hwfw HWl Hj Hi) in E0 by lia.
    rewrite (at5_total w B K C b k W j i 1 Hsw Hwfw HWl Hj Hi) in E1 by lia.
    by simplify_eq.
Qed.
End PackedAndFull.

Lemma packed_example_packing : packing_of 2 packed_example hermitian_example.
Proof.
  intros b k p i j c Hp Hc.
  destruct b as [|b]; [|reflexivity]. destruct k as [|k]; [|reflexivity].
  destruct c as [|[|c]]; [| |lia];
    (destruct p as [|[|[|p]]]; [| | |discriminate Hp]);
    injection Hp as <- <-; reflexivity.
Defined.

Lemma f_packed_eq_g_full_witness :
  ∃ m, f packed_example = Ok m ∧ g hermitian_example = Ok m ∧
    shape4 m = (1, 1, 2 * 2, 2 * 2).
Proof.
  apply (f_packed_eq_g_full packed_example hermitian_example 1 1 2);
    [reflexivity | reflexivity | reflexivity | reflexivity
    | apply packed_example_packing | apply hermitian_example_ok].
Defined.
